(** * KickCraft: the 11v11 canvas prototype and its service worker

    A shallow embedding of the simulation core of the KickCraft component
    (projection helpers, ball physics, possession, defensive AI, keepers,
    level progression) and of the fetch handler of [docs/sw.js].

    Numbers.  JavaScript numbers are binary64 floats.  The simulation is
    embedded over exact rationals [Q]: every arithmetic expression of the
    source is kept as written, rounding is left out.  Counters and indices
    that only ever hold integers ([score], [levelIdx], [receiverIndex], ...)
    are [Z], with the source's [-1] sentinel.  Every division of the
    embedded code has a non-zero constant or an [x || d] guard as divisor.
    The three projection helpers are embedded a second time over binary64
    ([FloatProjection]) for the statements that speak about non-finite
    values.

    Library calls.  [Math.hypot], [Math.sin], [Math.cos], [Math.atan2] and
    [Math.random] are taken through the interface [MathLib]; nothing is
    assumed about them. *)

From Stdlib Require Import ZArith QArith Qminmax Qabs Lqa Lia.
From Stdlib Require Import Bool List String ListSet Floats.
From Stdlib Require Import Permutation Sorted.
Import ListNotations.

Open Scope string_scope.
Open Scope Q_scope.

(** ** JavaScript number helpers *)

(** [a < b] on numbers. *)
Definition Qltb (a b : Q) : bool := negb (Qle_bool b a).

(** [x || d] on numbers: [d] when [x] is zero (the only falsy rational). *)
Definition orElse (x d : Q) : Q := if Qeq_bool x 0 then d else x.

(** [o?.f ?? d]. *)
Definition optField {A B : Type} (o : option A) (f : A -> B) (d : B) : B :=
  match o with Some a => f a | None => d end.

(** The library functions of [Math] that have no rational counterpart, and
    the ambient random source as the sequence of its draws. *)
Class MathLib : Type := {
  hypot  : Q -> Q -> Q;
  sin    : Q -> Q;
  cos    : Q -> Q;
  atan2  : Q -> Q -> Q;
  random : nat -> Q
}.

(** ** World constants *)

Definition W : Q := 1100.
Definition H : Q := 620.
Definition GOAL_W : Q := 320.
Definition BALL_R : Q := 10.
Definition RESTITUTION : Q := 0.58.

Definition NUM_DEFENDERS : nat := 10.
Definition NUM_TEAMMATES : nat := 10.

Definition MAX_ENGAGERS : Q := 2.
Definition ENGAGE_RADIUS : Q := 180.
Definition HOLD_RADIUS : Q := 80.
Definition DEFENDER_SPEED : Q := 180.
Definition TEAMMATE_SPEED : Q := 170.
Definition CAPTURE_SPEED_MAX : Q := 260.
Definition PASS_MIN : Q := 360.
Definition PASS_MAX : Q := 780.

Definition FINESSE_SPIN : Q := 85.
Definition DRIVEN_SPEED_F : Q := 1.18.
Definition FINESSE_SPEED_F : Q := 0.82.
Definition SHOT_SPRAY : Q := 0.03.

Definition GK_REACT_MS : Q := 120.
Definition GK_PARRY_SPEED : Q := 520.
Definition GK_HOLD_SPEED : Q := 380.

Module Level.
Record t : Type := mk {
    name : string;
    maxEngagers : Q;
    defenderSpeed : Q;
    engageRadius : Q;
    holdRadius : Q;
    captureSpeedMax : Q;
    passGrace : Q
  }.
End Level.

Definition LEVELS : list Level.t :=
  [ Level.mk "Friendly"     2 200 185 88 280 700;
    Level.mk "Warmup"       2 220 195 84 300 650;
    Level.mk "League Match" 2 240 205 82 320 620;
    Level.mk "Cup Tie"      3 255 215 80 340 580;
    Level.mk "Quarterfinal" 3 270 225 78 360 540;
    Level.mk "Semifinal"    3 285 235 76 380 520;
    Level.mk "Final"        3 300 245 74 400 500 ].

(** [LEVELS.length - 1]. *)
Definition LAST_LEVEL : Z := Z.of_nat (List.length LEVELS) - 1.

Module PERS.
Definition top : Q := 24.
Definition bottom : Q := H - 24.
Definition sFar : Q := 0.55.
Definition sNear : Q := 1.0.
End PERS.

(** ** Projection helpers (world <-> pseudo-3D screen) *)

Record Point : Type := mkPoint { pt_x : Q; pt_y : Q }.
Record Projected : Type := mkProjected { pr_x : Q; pr_y : Q; pr_s : Q }.

Definition scaleAtY (y : Q) : Q :=
  let t := Qmax 0 (Qmin 1 (y / H)) in
  PERS.sFar + (PERS.sNear - PERS.sFar) * t.

Definition project (x y : Q) : Projected :=
  let s := scaleAtY y in
  let px := (x - W / 2) * s + W / 2 in
  let py := PERS.top + (PERS.bottom - PERS.top) * (y / H) in
  mkProjected px py s.

Definition unproject (px py : Q) : Point :=
  let t := (py - PERS.top) / (PERS.bottom - PERS.top) in
  let y := Qmax 0 (Qmin H (t * H)) in
  let s := scaleAtY y in
  let x := ((px - W / 2) / (orElse s 1)) + W / 2 in
  mkPoint x y.

(** The divisor of the x-recovery of [unproject], [s || 1]. *)
Definition unproject_divisor (py : Q) : Q :=
  let t := (py - PERS.top) / (PERS.bottom - PERS.top) in
  let y := Qmax 0 (Qmin H (t * H)) in
  orElse (scaleAtY y) 1.

(** The same helpers over binary64, operation for operation. *)
Module FloatProjection.
Local Open Scope float_scope.

Definition W : float := 1100.
Definition H : float := 620.
Definition top : float := 24.
Definition bottom : float := H - 24.
  (** The doubles nearest to 0.55 and to 1.0. *)
Definition sFar : float := 0x1.199999999999ap-1.
Definition sNear : float := 1.

  (** [Math.max] and [Math.min]: NaN if an argument is NaN, and
      [-0] below [+0]. *)
Definition Math_max (a b : float) : float :=
    if PrimFloat.is_nan a || PrimFloat.is_nan b then nan
    else if a <? b then b
    else if b <? a then a
    else if PrimFloat.get_sign a then b else a.

Definition Math_min (a b : float) : float :=
    if PrimFloat.is_nan a || PrimFloat.is_nan b then nan
    else if a <? b then a
    else if b <? a then b
    else if PrimFloat.get_sign a then a else b.

  (** [x || d]: [d] when [x] is [+0], [-0] or NaN. *)
Definition orElse (x d : float) : float :=
    if PrimFloat.is_nan x || (x =? 0) then d else x.

Definition scaleAtY (y : float) : float :=
    let t := Math_max 0 (Math_min 1 (y / H)) in
    sFar + (sNear - sFar) * t.

Definition unproject (px py : float) : float * float :=
    let t := (py - top) / (bottom - top) in
    let y := Math_max 0 (Math_min H (t * H)) in
    let s := scaleAtY y in
    let x := ((px - W / 2) / (orElse s 1)) + W / 2 in
    (x, y).

Definition unproject_divisor (py : float) : float :=
    let t := (py - top) / (bottom - top) in
    let y := Math_max 0 (Math_min H (t * H)) in
    orElse (scaleAtY y) 1.

  (** A bound that no pointer coordinate comes near: 2^1000. *)
Definition farOut : float := 0x1p1000.
End FloatProjection.

(** The prediction of [gkUpdate] over binary64, operation for operation:
    [Math.abs((goalY - b.y) / (b.vy || 1e-6))] and
    [b.x + b.vx * t + 0.5*(b.spin||0)*t*t*0]. *)
Module FloatKeeper.
Local Open Scope float_scope.

Definition flightTime (goalY y vy : float) : float :=
    abs ((goalY - y) / FloatProjection.orElse vy 0x1.0c6f7a0b5ed8dp-20).

Definition projX (x vx spin t : float) : float :=
    x + vx * t + 0x1p-1 * FloatProjection.orElse spin 0 * t * t * 0.
End FloatKeeper.

(** Binary64 numbers on their specification ([spec_float], precision 53,
    [emax] 1024): what [shr_fexp] makes of a mantissa and an exponent, and
    the sizes and signs of numbers. *)
Section Binary64.
Local Open Scope Z_scope.

Definition shifted_m (m e : Z) : Z :=
  let n := fexp prec emax (Zdigits2 m + e) - e in
  if 0 <? n then m / 2 ^ n else m.

Definition shifted_e (m e : Z) : Z :=
  let n := fexp prec emax (Zdigits2 m + e) - e in
  if 0 <? n then e + n else e.

(** Zero, or finite with a value below [2 ^ K]. *)
Definition below (K : Z) (x : spec_float) : Prop :=
  match x with
  | S754_zero _ => True
  | S754_finite _ m e => Zpos m < 2 ^ (K - e) /\ e <= K - 53
  | _ => False
  end.

(** A number (no NaN) of sign [s]. *)
Definition signed (s : bool) (x : spec_float) : Prop :=
  match x with
  | S754_zero s' | S754_infinity s' | S754_finite s' _ _ => s' = s
  | S754_nan => False
  end.

Definition number (x : spec_float) : Prop := x <> S754_nan.

End Binary64.

Module Ball.
Record t : Type := mk {
  x : Q;
  y : Q;
  vx : Q;
  vy : Q;
  r : Q;
  spin : Q
}.
Definition set_x (v : Q) (s : t) : t :=
  mk v (y s) (vx s) (vy s) (r s) (spin s).
Definition set_y (v : Q) (s : t) : t :=
  mk (x s) v (vx s) (vy s) (r s) (spin s).
Definition set_vx (v : Q) (s : t) : t :=
  mk (x s) (y s) v (vy s) (r s) (spin s).
Definition set_vy (v : Q) (s : t) : t :=
  mk (x s) (y s) (vx s) v (r s) (spin s).
Definition set_r (v : Q) (s : t) : t :=
  mk (x s) (y s) (vx s) (vy s) v (spin s).
Definition set_spin (v : Q) (s : t) : t :=
  mk (x s) (y s) (vx s) (vy s) (r s) v.
End Ball.

Module Player.
Record t : Type := mk {
  role : string;
  num : Z;
  x : Q;
  y : Q;
  r : Q;
  phase : Q;
  engaged : bool;
  react : Q;
  lag : Q;
  homeX : Q;
  homeY : Q
}.
Definition set_x (v : Q) (s : t) : t :=
  mk (role s) (num s) v (y s) (r s) (phase s) (engaged s) (react s) (lag s)
    (homeX s) (homeY s).
Definition set_y (v : Q) (s : t) : t :=
  mk (role s) (num s) (x s) v (r s) (phase s) (engaged s) (react s) (lag s)
    (homeX s) (homeY s).
Definition set_phase (v : Q) (s : t) : t :=
  mk (role s) (num s) (x s) (y s) (r s) v (engaged s) (react s) (lag s) (homeX
    s) (homeY s).
Definition set_engaged (v : bool) (s : t) : t :=
  mk (role s) (num s) (x s) (y s) (r s) (phase s) v (react s) (lag s) (homeX
    s) (homeY s).
Definition set_lag (v : Q) (s : t) : t :=
  mk (role s) (num s) (x s) (y s) (r s) (phase s) (engaged s) (react s) v
    (homeX s) (homeY s).
End Player.

Module Keeper.
Record t : Type := mk {
  x : Q;
  y : Q;
  speed : Q;
  react : Q;
  reactT : Q
}.
Definition set_x (v : Q) (s : t) : t :=
  mk v (y s) (speed s) (react s) (reactT s).
Definition set_reactT (v : Q) (s : t) : t :=
  mk (x s) (y s) (speed s) (react s) v.
End Keeper.

Module Keys.
Record t : Type := mk {
  w : bool;
  a : bool;
  s : bool;
  d : bool;
  ArrowLeft : bool;
  ArrowRight : bool;
  ArrowUp : bool;
  ArrowDown : bool
}.
End Keys.

Module Mod.
Record t : Type := mk {
  shift : bool;
  ctrl : bool
}.
End Mod.

Module AI.
Record t : Type := mk {
  carrier : option nat;
  ptCarrier : Z
}.
Definition set_carrier (v : option nat) (s : t) : t :=
  mk v (ptCarrier s).
Definition set_ptCarrier (v : Z) (s : t) : t :=
  mk (carrier s) v.
End AI.

Module State.
Record t : Type := mk {
  time : Q;
  ball : Ball.t;
  charging : bool;
  t0 : Q;
  aim : Point;
  defenders : list Player.t;
  mates : list Player.t;
  tackleCd : Q;
  protect : Q;
  ai : AI.t;
  score : Z;
  against : Z;
  gkFR : Keeper.t;
  gkPT : Keeper.t;
  trapLock : Q;
  trapOwner : Z;
  receiverIndex : Z;
  selectedIdx : Z;
  keys : Keys.t;
  mod_ : Mod.t;
  levelIdx : Z;
  goalsToAdvance : Z;
  levelProgress : Z;
  cfg : option Level.t;
  rng : nat
}.
Definition set_time (v : Q) (s : t) : t :=
  mk v (ball s) (charging s) (t0 s) (aim s) (defenders s) (mates s) (tackleCd
    s) (protect s) (ai s) (score s) (against s) (gkFR s) (gkPT s) (trapLock s)
    (trapOwner s) (receiverIndex s) (selectedIdx s) (keys s) (mod_ s)
    (levelIdx s) (goalsToAdvance s) (levelProgress s) (cfg s) (rng s).
Definition set_ball (v : Ball.t) (s : t) : t :=
  mk (time s) v (charging s) (t0 s) (aim s) (defenders s) (mates s) (tackleCd
    s) (protect s) (ai s) (score s) (against s) (gkFR s) (gkPT s) (trapLock s)
    (trapOwner s) (receiverIndex s) (selectedIdx s) (keys s) (mod_ s)
    (levelIdx s) (goalsToAdvance s) (levelProgress s) (cfg s) (rng s).
Definition set_charging (v : bool) (s : t) : t :=
  mk (time s) (ball s) v (t0 s) (aim s) (defenders s) (mates s) (tackleCd s)
    (protect s) (ai s) (score s) (against s) (gkFR s) (gkPT s) (trapLock s)
    (trapOwner s) (receiverIndex s) (selectedIdx s) (keys s) (mod_ s)
    (levelIdx s) (goalsToAdvance s) (levelProgress s) (cfg s) (rng s).
Definition set_t0 (v : Q) (s : t) : t :=
  mk (time s) (ball s) (charging s) v (aim s) (defenders s) (mates s)
    (tackleCd s) (protect s) (ai s) (score s) (against s) (gkFR s) (gkPT s)
    (trapLock s) (trapOwner s) (receiverIndex s) (selectedIdx s) (keys s)
    (mod_ s) (levelIdx s) (goalsToAdvance s) (levelProgress s) (cfg s) (rng
    s).
Definition set_aim (v : Point) (s : t) : t :=
  mk (time s) (ball s) (charging s) (t0 s) v (defenders s) (mates s) (tackleCd
    s) (protect s) (ai s) (score s) (against s) (gkFR s) (gkPT s) (trapLock s)
    (trapOwner s) (receiverIndex s) (selectedIdx s) (keys s) (mod_ s)
    (levelIdx s) (goalsToAdvance s) (levelProgress s) (cfg s) (rng s).
Definition set_defenders (v : list Player.t) (s : t) : t :=
  mk (time s) (ball s) (charging s) (t0 s) (aim s) v (mates s) (tackleCd s)
    (protect s) (ai s) (score s) (against s) (gkFR s) (gkPT s) (trapLock s)
    (trapOwner s) (receiverIndex s) (selectedIdx s) (keys s) (mod_ s)
    (levelIdx s) (goalsToAdvance s) (levelProgress s) (cfg s) (rng s).
Definition set_mates (v : list Player.t) (s : t) : t :=
  mk (time s) (ball s) (charging s) (t0 s) (aim s) (defenders s) v (tackleCd
    s) (protect s) (ai s) (score s) (against s) (gkFR s) (gkPT s) (trapLock s)
    (trapOwner s) (receiverIndex s) (selectedIdx s) (keys s) (mod_ s)
    (levelIdx s) (goalsToAdvance s) (levelProgress s) (cfg s) (rng s).
Definition set_tackleCd (v : Q) (s : t) : t :=
  mk (time s) (ball s) (charging s) (t0 s) (aim s) (defenders s) (mates s) v
    (protect s) (ai s) (score s) (against s) (gkFR s) (gkPT s) (trapLock s)
    (trapOwner s) (receiverIndex s) (selectedIdx s) (keys s) (mod_ s)
    (levelIdx s) (goalsToAdvance s) (levelProgress s) (cfg s) (rng s).
Definition set_protect (v : Q) (s : t) : t :=
  mk (time s) (ball s) (charging s) (t0 s) (aim s) (defenders s) (mates s)
    (tackleCd s) v (ai s) (score s) (against s) (gkFR s) (gkPT s) (trapLock s)
    (trapOwner s) (receiverIndex s) (selectedIdx s) (keys s) (mod_ s)
    (levelIdx s) (goalsToAdvance s) (levelProgress s) (cfg s) (rng s).
Definition set_ai (v : AI.t) (s : t) : t :=
  mk (time s) (ball s) (charging s) (t0 s) (aim s) (defenders s) (mates s)
    (tackleCd s) (protect s) v (score s) (against s) (gkFR s) (gkPT s)
    (trapLock s) (trapOwner s) (receiverIndex s) (selectedIdx s) (keys s)
    (mod_ s) (levelIdx s) (goalsToAdvance s) (levelProgress s) (cfg s) (rng
    s).
Definition set_score (v : Z) (s : t) : t :=
  mk (time s) (ball s) (charging s) (t0 s) (aim s) (defenders s) (mates s)
    (tackleCd s) (protect s) (ai s) v (against s) (gkFR s) (gkPT s) (trapLock
    s) (trapOwner s) (receiverIndex s) (selectedIdx s) (keys s) (mod_ s)
    (levelIdx s) (goalsToAdvance s) (levelProgress s) (cfg s) (rng s).
Definition set_against (v : Z) (s : t) : t :=
  mk (time s) (ball s) (charging s) (t0 s) (aim s) (defenders s) (mates s)
    (tackleCd s) (protect s) (ai s) (score s) v (gkFR s) (gkPT s) (trapLock s)
    (trapOwner s) (receiverIndex s) (selectedIdx s) (keys s) (mod_ s)
    (levelIdx s) (goalsToAdvance s) (levelProgress s) (cfg s) (rng s).
Definition set_gkFR (v : Keeper.t) (s : t) : t :=
  mk (time s) (ball s) (charging s) (t0 s) (aim s) (defenders s) (mates s)
    (tackleCd s) (protect s) (ai s) (score s) (against s) v (gkPT s) (trapLock
    s) (trapOwner s) (receiverIndex s) (selectedIdx s) (keys s) (mod_ s)
    (levelIdx s) (goalsToAdvance s) (levelProgress s) (cfg s) (rng s).
Definition set_gkPT (v : Keeper.t) (s : t) : t :=
  mk (time s) (ball s) (charging s) (t0 s) (aim s) (defenders s) (mates s)
    (tackleCd s) (protect s) (ai s) (score s) (against s) (gkFR s) v (trapLock
    s) (trapOwner s) (receiverIndex s) (selectedIdx s) (keys s) (mod_ s)
    (levelIdx s) (goalsToAdvance s) (levelProgress s) (cfg s) (rng s).
Definition set_trapLock (v : Q) (s : t) : t :=
  mk (time s) (ball s) (charging s) (t0 s) (aim s) (defenders s) (mates s)
    (tackleCd s) (protect s) (ai s) (score s) (against s) (gkFR s) (gkPT s) v
    (trapOwner s) (receiverIndex s) (selectedIdx s) (keys s) (mod_ s)
    (levelIdx s) (goalsToAdvance s) (levelProgress s) (cfg s) (rng s).
Definition set_trapOwner (v : Z) (s : t) : t :=
  mk (time s) (ball s) (charging s) (t0 s) (aim s) (defenders s) (mates s)
    (tackleCd s) (protect s) (ai s) (score s) (against s) (gkFR s) (gkPT s)
    (trapLock s) v (receiverIndex s) (selectedIdx s) (keys s) (mod_ s)
    (levelIdx s) (goalsToAdvance s) (levelProgress s) (cfg s) (rng s).
Definition set_receiverIndex (v : Z) (s : t) : t :=
  mk (time s) (ball s) (charging s) (t0 s) (aim s) (defenders s) (mates s)
    (tackleCd s) (protect s) (ai s) (score s) (against s) (gkFR s) (gkPT s)
    (trapLock s) (trapOwner s) v (selectedIdx s) (keys s) (mod_ s) (levelIdx
    s) (goalsToAdvance s) (levelProgress s) (cfg s) (rng s).
Definition set_selectedIdx (v : Z) (s : t) : t :=
  mk (time s) (ball s) (charging s) (t0 s) (aim s) (defenders s) (mates s)
    (tackleCd s) (protect s) (ai s) (score s) (against s) (gkFR s) (gkPT s)
    (trapLock s) (trapOwner s) (receiverIndex s) v (keys s) (mod_ s) (levelIdx
    s) (goalsToAdvance s) (levelProgress s) (cfg s) (rng s).
Definition set_keys (v : Keys.t) (s : t) : t :=
  mk (time s) (ball s) (charging s) (t0 s) (aim s) (defenders s) (mates s)
    (tackleCd s) (protect s) (ai s) (score s) (against s) (gkFR s) (gkPT s)
    (trapLock s) (trapOwner s) (receiverIndex s) (selectedIdx s) v (mod_ s)
    (levelIdx s) (goalsToAdvance s) (levelProgress s) (cfg s) (rng s).
Definition set_mod_ (v : Mod.t) (s : t) : t :=
  mk (time s) (ball s) (charging s) (t0 s) (aim s) (defenders s) (mates s)
    (tackleCd s) (protect s) (ai s) (score s) (against s) (gkFR s) (gkPT s)
    (trapLock s) (trapOwner s) (receiverIndex s) (selectedIdx s) (keys s) v
    (levelIdx s) (goalsToAdvance s) (levelProgress s) (cfg s) (rng s).
Definition set_levelIdx (v : Z) (s : t) : t :=
  mk (time s) (ball s) (charging s) (t0 s) (aim s) (defenders s) (mates s)
    (tackleCd s) (protect s) (ai s) (score s) (against s) (gkFR s) (gkPT s)
    (trapLock s) (trapOwner s) (receiverIndex s) (selectedIdx s) (keys s)
    (mod_ s) v (goalsToAdvance s) (levelProgress s) (cfg s) (rng s).
Definition set_goalsToAdvance (v : Z) (s : t) : t :=
  mk (time s) (ball s) (charging s) (t0 s) (aim s) (defenders s) (mates s)
    (tackleCd s) (protect s) (ai s) (score s) (against s) (gkFR s) (gkPT s)
    (trapLock s) (trapOwner s) (receiverIndex s) (selectedIdx s) (keys s)
    (mod_ s) (levelIdx s) v (levelProgress s) (cfg s) (rng s).
Definition set_levelProgress (v : Z) (s : t) : t :=
  mk (time s) (ball s) (charging s) (t0 s) (aim s) (defenders s) (mates s)
    (tackleCd s) (protect s) (ai s) (score s) (against s) (gkFR s) (gkPT s)
    (trapLock s) (trapOwner s) (receiverIndex s) (selectedIdx s) (keys s)
    (mod_ s) (levelIdx s) (goalsToAdvance s) v (cfg s) (rng s).
Definition set_cfg (v : option Level.t) (s : t) : t :=
  mk (time s) (ball s) (charging s) (t0 s) (aim s) (defenders s) (mates s)
    (tackleCd s) (protect s) (ai s) (score s) (against s) (gkFR s) (gkPT s)
    (trapLock s) (trapOwner s) (receiverIndex s) (selectedIdx s) (keys s)
    (mod_ s) (levelIdx s) (goalsToAdvance s) (levelProgress s) v (rng s).
Definition set_rng (v : nat) (s : t) : t :=
  mk (time s) (ball s) (charging s) (t0 s) (aim s) (defenders s) (mates s)
    (tackleCd s) (protect s) (ai s) (score s) (against s) (gkFR s) (gkPT s)
    (trapLock s) (trapOwner s) (receiverIndex s) (selectedIdx s) (keys s)
    (mod_ s) (levelIdx s) (goalsToAdvance s) (levelProgress s) (cfg s) v.
End State.

(** ** Rosters and the initial world state *)

Definition NUM_BY_ROLE : list (string * Z) :=
  [("GK", 1); ("RB", 2); ("LB", 3); ("RCB", 4); ("LCB", 5); ("CDM", 6);
   ("RCM", 8); ("LCM", 10); ("RW", 7); ("LW", 11); ("ST", 9)]%Z.

Definition ROLES_PT : list string :=
  ["LB"; "LCB"; "RCB"; "RB"; "CDM"; "LCM"; "RCM"; "LW"; "ST"; "RW"]%string.
Definition ROLES_FR : list string :=
  ["RB"; "RCB"; "LCB"; "LB"; "CDM"; "RCM"; "LCM"; "RW"; "ST"; "LW"]%string.

Definition ANCHORS_PT : list (string * Point) :=
  [("GK", mkPoint 0 (H - 52));
   ("LB", mkPoint (-260) (H * 0.68)); ("LCB", mkPoint (-120) (H * 0.68));
   ("RCB", mkPoint 120 (H * 0.68)); ("RB", mkPoint 260 (H * 0.68));
   ("CDM", mkPoint 0 (H * 0.58)); ("LCM", mkPoint (-120) (H * 0.56));
   ("RCM", mkPoint 120 (H * 0.56));
   ("LW", mkPoint (-220) (H * 0.42)); ("ST", mkPoint 0 (H * 0.40));
   ("RW", mkPoint 220 (H * 0.42))].

Definition ANCHORS_FR : list (string * Point) :=
  [("GK", mkPoint 0 52);
   ("RB", mkPoint 260 (H * 0.32)); ("RCB", mkPoint 120 (H * 0.32));
   ("LCB", mkPoint (-120) (H * 0.32)); ("LB", mkPoint (-260) (H * 0.32));
   ("CDM", mkPoint 0 (H * 0.42)); ("RCM", mkPoint 120 (H * 0.44));
   ("LCM", mkPoint (-120) (H * 0.44));
   ("RW", mkPoint 220 (H * 0.22)); ("ST", mkPoint 0 (H * 0.20));
   ("LW", mkPoint (-220) (H * 0.22))].

(** [table[key]], [None] for [undefined]. *)
Fixpoint lookup {A : Type} (k : string) (table : list (string * A)) : option A :=
  match table with
  | [] => None
  | (k', v) :: rest => if String.eqb k k' then Some v else lookup k rest
  end.

(** [l[i]] for a number [i]; [None] for [undefined]. *)
Definition nthZ {A : Type} (l : list A) (i : Z) : option A :=
  if (i <? 0)%Z then None else nth_error l (Z.to_nat i).

(** [l[i] = v] for an index inside the array. *)
Fixpoint list_set {A : Type} (i : nat) (v : A) (l : list A) : list A :=
  match l, i with
  | [], _ => []
  | _ :: rest, O => v :: rest
  | a :: rest, S j => a :: list_set j v rest
  end.

Section Simulation.
Context {M : MathLib}.

(** One element of [roles.map(role => ({ ... }))]; the literal draws
    [Math.random()] twice, for [phase] and then for [react]. *)
Definition spawnPlayer (anchors : list (string * Point)) (n : nat)
    (role : string) : Player.t :=
  let ax := orElse (optField (lookup role anchors) pt_x 0) 0 in
  let ay := orElse (optField (lookup role anchors) pt_y 0) (H / 2) in
  Player.mk role
    (match lookup role NUM_BY_ROLE with
     | Some k => if (k =? 0)%Z then 0%Z else k
     | None => 0%Z
     end)
    (W / 2 + ax) ay 14 (random n * 6.28) false
    (220 + random (S n) * 220) 0 (W / 2 + ax) ay.

Fixpoint spawnFrom (anchors : list (string * Point)) (n : nat)
    (roles : list string) : list Player.t :=
  match roles with
  | [] => []
  | role :: rest => spawnPlayer anchors n role :: spawnFrom anchors (n + 2) rest
  end.

(** [spawnTeamWithRoles(roles, anchors)], drawing from position [n] of the
    random source on. *)
Definition spawnTeamWithRoles (n : nat) (roles : list string)
    (anchors : list (string * Point)) : list Player.t :=
  spawnFrom anchors n roles.

(** [applyLevel(i)]. *)
Definition applyLevel (i : Z) (s : State.t) : State.t :=
  let idx := Z.max 0 (Z.min LAST_LEVEL i) in
  State.set_cfg (nthZ LEVELS idx) (State.set_levelIdx idx s).

Definition advanceLevel (s : State.t) : State.t :=
  applyLevel (State.levelIdx s + 1) s.

(** The [state] literal followed by [applyLevel(0)]; [now] is the value of
    [performance.now()]. *)
Definition initState (now : Q) : State.t :=
  let nFR := List.length ROLES_FR in
  applyLevel 0
    (State.mk now
       (Ball.mk (W / 2) (H / 2) 0 0 BALL_R 0)
       false 0 (mkPoint (W / 2) (H * 0.5))
       (spawnTeamWithRoles 0 ROLES_FR ANCHORS_FR)
       (spawnTeamWithRoles (2 * nFR) ROLES_PT ANCHORS_PT)
       0 0 (AI.mk None (-1))
       0 0
       (Keeper.mk (W / 2) 52 360 GK_REACT_MS 0)
       (Keeper.mk (W / 2) (H - 52) 360 GK_REACT_MS 0)
       0 (-1) (-1)
       0 (Keys.mk false false false false false false false false)
       (Mod.mk false false)
       0 2 0 None
       (2 * nFR + 2 * List.length ROLES_PT)).

(** ** Input actions *)

(** [cycleSelected(dir)]; [%] is the truncating remainder. *)
Definition cycleSelected (dir : Z) (s : State.t) : State.t :=
  let n := Z.of_nat (List.length (State.mates s)) in
  State.set_selectedIdx
    (Z.rem (Z.rem (State.selectedIdx s + dir) n + n) n) s.

(** [shoot()]; [now] is the value of [performance.now()]. *)
Definition shoot (now : Q) (s : State.t) : State.t :=
  let ms := Qmin 900 (now - State.t0 s) in
  let pwr := Qmax 0.15 (Qmin 1 (ms / 900)) in
  let b := State.ball s in
  let dx := pt_x (State.aim s) - Ball.x b in
  let dy := pt_y (State.aim s) - Ball.y b in
  let finesse := Mod.shift (State.mod_ s) && negb (Mod.ctrl (State.mod_ s)) in
  let driven := Mod.ctrl (State.mod_ s) && negb (Mod.shift (State.mod_ s)) in
  let speedF := if finesse then FINESSE_SPEED_F
                else if driven then DRIVEN_SPEED_F else 1.0 in
  let baseAngle := atan2 dy dx in
  let spray := (random (State.rng s) - 0.5) * SHOT_SPRAY in
  let a := baseAngle + spray in
  let spd := (300 + pwr * 500) * speedF in
  let b := Ball.set_vy (sin a * spd) (Ball.set_vx (cos a * spd) b) in
  let b := Ball.set_spin
             (if finesse then (if Qltb 0 dx then FINESSE_SPIN else - FINESSE_SPIN)
              else 0) b in
  let s := State.set_rng (S (State.rng s)) (State.set_ball b s) in
  let s := State.set_protect 120 s in
  let s := State.set_receiverIndex (-1) s in
  let s := State.set_trapLock 250 s in
  let s := State.set_trapOwner (-1) s in
  State.set_ai (AI.set_ptCarrier (-1) (State.ai s)) s.

(** [passToIndex(idx)]. *)
Definition passToIndex (idx : Z) (s : State.t) : State.t :=
  let b := State.ball s in
  match nthZ (State.mates s) idx with
  | None => s
  | Some m =>
      let dx := Player.x m - Ball.x b in
      let dy := Player.y m - Ball.y b in
      let d := orElse (hypot dx dy) 1 in
      let speed := Qmin PASS_MAX (Qmax PASS_MIN (5 * d)) in
      let b := Ball.set_spin 0
                 (Ball.set_vy ((dy / d) * speed)
                    (Ball.set_vx ((dx / d) * speed) b)) in
      let s := State.set_ball b s in
      let s := State.set_protect
                 (optField (State.cfg s) Level.passGrace 700) s in
      let s := State.set_receiverIndex idx s in
      let s := State.set_trapLock 250 s in
      let s := State.set_trapOwner (-1) s in
      State.set_ai (AI.set_ptCarrier (-1) (State.ai s)) s
  end.

Definition passToSelected (s : State.t) : State.t :=
  passToIndex (State.selectedIdx s) s.

(** [mouseup(e)] for the left button: a pending charge is released as a
    shot. *)
Definition mouseup (now : Q) (s : State.t) : State.t :=
  if State.charging s then shoot now (State.set_charging false s) else s.

(** ** The update step *)

Definition pad : Q := 24.
Definition awayY : Q := 36.
Definition homeY : Q := H - 36.

(** The three countdowns at the head of [update]. *)
Definition tickTimers (dt : Q) (s : State.t) : State.t :=
  let s := State.set_tackleCd (Qmax 0 (State.tackleCd s - dt * 1000)) s in
  let s := State.set_protect (Qmax 0 (State.protect s - dt * 1000)) s in
  State.set_trapLock (Qmax 0 (State.trapLock s - dt * 1000)) s.

(** Integrate ball (with simple spin curve). *)
Definition integrate (dt : Q) (b : Ball.t) : Ball.t :=
  let vx1 := Ball.vx b + orElse (Ball.spin b) 0 * dt in
  let x1 := Ball.x b + vx1 * dt in
  let y1 := Ball.y b + Ball.vy b * dt in
  Ball.mk x1 y1 (vx1 * (1 - 0.08 * dt)) (Ball.vy b * (1 - 0.08 * dt))
    (Ball.r b) (Ball.spin b).

(** Walls, one definition per [if] of the source, in its order. *)
Definition wallLeft (b : Ball.t) : Ball.t :=
  if Qltb (Ball.x b) (pad + Ball.r b) then
    let b := Ball.set_x (pad + Ball.r b) b in
    if Qltb (Ball.vx b) 0 then Ball.set_vx (- Ball.vx b * RESTITUTION) b else b
  else b.

Definition wallRight (b : Ball.t) : Ball.t :=
  if Qltb (W - pad - Ball.r b) (Ball.x b) then
    let b := Ball.set_x (W - pad - Ball.r b) b in
    if Qltb 0 (Ball.vx b) then Ball.set_vx (- Ball.vx b * RESTITUTION) b else b
  else b.

Definition wallTop (b : Ball.t) : Ball.t :=
  if Qltb (Ball.y b) (pad + Ball.r b) then
    let b := Ball.set_y (pad + Ball.r b) b in
    if Qltb (Ball.vy b) 0 then Ball.set_vy (- Ball.vy b * RESTITUTION) b else b
  else b.

Definition wallBottom (b : Ball.t) : Ball.t :=
  if Qltb (H - pad - Ball.r b) (Ball.y b) then
    let b := Ball.set_y (H - pad - Ball.r b) b in
    if Qltb 0 (Ball.vy b) then Ball.set_vy (- Ball.vy b * RESTITUTION) b else b
  else b.

Definition walls (b : Ball.t) : Ball.t :=
  wallBottom (wallTop (wallRight (wallLeft b))).

(** [resetBall()]. *)
Definition resetBall (s : State.t) : State.t :=
  let b := State.ball s in
  let b := Ball.set_spin 0 (Ball.set_vy 0 (Ball.set_vx 0
             (Ball.set_y (H / 2) (Ball.set_x (W / 2) b)))) in
  let s := State.set_ball b s in
  let s := State.set_ai (AI.set_carrier None (State.ai s)) s in
  let s := State.set_ai (AI.set_ptCarrier (-1) (State.ai s)) s in
  let s := State.set_protect 0 s in
  let s := State.set_receiverIndex (-1) s in
  let s := State.set_gkFR (Keeper.set_reactT 0 (State.gkFR s)) s in
  State.set_gkPT (Keeper.set_reactT 0 (State.gkPT s)) s.

(** [Math.abs(b.x - W/2) < GOAL_W/2]. *)
Definition inGoalMouth (b : Ball.t) : bool :=
  Qltb (Qabs (Ball.x b - W / 2)) (GOAL_W / 2).

(** The test of the away (top) goal and the one of the home goal. *)
Definition crossesAway (b : Ball.t) : bool :=
  Qltb (Ball.y b - Ball.r b) awayY && inGoalMouth b.
Definition crossesHome (b : Ball.t) : bool :=
  Qltb homeY (Ball.y b + Ball.r b) && inGoalMouth b.

(** The body of the away-goal branch. *)
Definition awayGoal (s : State.t) : State.t :=
  let s := State.set_score (State.score s + 1) s in
  let s := State.set_levelProgress (State.levelProgress s + 1) s in
  let s := if (State.goalsToAdvance s <=? State.levelProgress s)%Z
           then advanceLevel (State.set_levelProgress 0 s) else s in
  resetBall s.

(** The body of the home-goal branch. *)
Definition homeGoal (s : State.t) : State.t :=
  resetBall (State.set_against (State.against s + 1) s).

(** Goals: away (top), home (bottom). *)
Definition goals (s : State.t) : State.t :=
  let s := if crossesAway (State.ball s) then awayGoal s else s in
  if crossesHome (State.ball s) then homeGoal s else s.

(** The assignments of a successful trap by mate [i]. *)
Definition trapBy (i : nat) (m : Player.t) (s : State.t) : State.t :=
  let b := State.ball s in
  let b := Ball.set_spin 0 (Ball.set_vy 0 (Ball.set_vx 0
             (Ball.set_y (Player.y m - 12) (Ball.set_x (Player.x m) b)))) in
  let s := State.set_ball b s in
  let s := State.set_protect 500 s in
  let s := State.set_receiverIndex (Z.of_nat i) s in
  let s := State.set_trapLock 300 s in
  let s := State.set_trapOwner (Z.of_nat i) s in
  State.set_ai (AI.set_ptCarrier (Z.of_nat i) (State.ai s)) s.

(** The test of the trap loop for one mate. *)
Definition canTrap (s : State.t) (m : Player.t) : bool :=
  let b := State.ball s in
  let d := hypot (Ball.x b - Player.x m) (Ball.y b - Player.y m) in
  Qle_bool (State.trapLock s) 0 && Qltb d (Player.r m + Ball.r b - 1).

(** Teammate trap: the loop from index [i] on, leaving at the first trap. *)
Fixpoint trapFrom (i : nat) (ms : list Player.t) (s : State.t) : State.t :=
  match ms with
  | [] => s
  | m :: rest => if canTrap s m then trapBy i m s else trapFrom (S i) rest s
  end.

Definition trap (s : State.t) : State.t := trapFrom 0 (State.mates s) s.

(** [(pos ? 1 : 0) + (neg ? -1 : 0)]. *)
Definition keyAxis (pos neg : bool) : Q :=
  (if pos then 1 else 0) + (if neg then -1 else 0).

(** Portugal movement, the loop body for mate [i]. *)
Definition moveMate (dt : Q) (s : State.t) (i : nat) (m : Player.t) : Player.t :=
  let m := Player.set_phase (Player.phase m + dt) m in
  let k := State.keys s in
  if (Z.of_nat i =? State.selectedIdx s)%Z then
    let vx := keyAxis (Keys.d k || Keys.ArrowRight k) (Keys.a k || Keys.ArrowLeft k) in
    let vy := keyAxis (Keys.s k || Keys.ArrowDown k) (Keys.w k || Keys.ArrowUp k) in
    let mag := orElse (hypot vx vy) 1 in
    let step := TEAMMATE_SPEED * dt in
    let x1 := Player.x m + (vx / mag) * step in
    let y1 := Player.y m + (vy / mag) * step in
    Player.set_y (Qmax 24 (Qmin (H - 24) y1))
      (Player.set_x (Qmax 24 (Qmin (W - 24) x1)) m)
  else
    let targetY := Qmin (Player.homeY m) (Ball.y (State.ball s) + 140) in
    let targetX := Player.homeX m + sin (Player.phase m * 1.1) * 20 in
    let dx := targetX - Player.x m in
    let dy := targetY - Player.y m in
    let dL := orElse (hypot dx dy) 1 in
    let step := Qmin (TEAMMATE_SPEED * 0.8 * dt) dL in
    Player.set_y (Player.y m + (dy / dL) * step)
      (Player.set_x (Player.x m + (dx / dL) * step) m).

Fixpoint mapFrom {A B : Type} (f : nat -> A -> B) (i : nat) (l : list A) : list B :=
  match l with
  | [] => []
  | a :: rest => f i a :: mapFrom f (S i) rest
  end.

Definition moveMates (dt : Q) (s : State.t) : State.t :=
  State.set_mates (mapFrom (moveMate dt s) 0 (State.mates s)) s.

(** "If selected is carrier, attach ball to feet", and its [else if].
    [None] is the TypeError of reading a coordinate of [undefined]. *)
Definition carryMate (dt : Q) (s : State.t) : option State.t :=
  let b := State.ball s in
  let pc := AI.ptCarrier (State.ai s) in
  if (pc =? State.selectedIdx s)%Z then
    match nthZ (State.mates s) (State.selectedIdx s) with
    | None => None
    | Some m =>
        Some (State.set_ball
                (Ball.set_spin 0 (Ball.set_vy 0 (Ball.set_vx 0
                   (Ball.set_y (Player.y m - 12) (Ball.set_x (Player.x m) b))))) s)
    end
  else if (0 <=? pc)%Z then
    match nthZ (State.mates s) pc with
    | None => None
    | Some m =>
        let stepM := TEAMMATE_SPEED * dt in
        let dy := Qmax (awayY + 24) (Player.y m - stepM) - Player.y m in
        let m := Player.set_y (Player.y m + dy) m in
        let s := State.set_mates (list_set (Z.to_nat pc) m (State.mates s)) s in
        Some (State.set_ball
                (Ball.set_vy 0 (Ball.set_vx 0
                   (Ball.set_y (Player.y m - 12) (Ball.set_x (Player.x m) b)))) s)
    end
  else Some s.

(** [gkUpdate(gk, b, topGoal, dt)].  The spin term of [projX] is a product
    with 0 and so is 0 here; over binary64 it is 0 as long as the products
    before it are finite ([FloatKeeper.projX], [flightInRange]). *)
Definition gkUpdate (gk : Keeper.t) (b : Ball.t) (topGoal : bool) (dt : Q)
    : Keeper.t :=
  let goalY := if topGoal then 36 else H - 36 in
  let vyToward := if topGoal then Qltb (Ball.vy b) 0 else Qltb 0 (Ball.vy b) in
  if negb vyToward then
    Keeper.set_reactT (Qmax 0 (Keeper.reactT gk - dt * 1000)) gk
  else
    let t := Qabs ((goalY - Ball.y b) / orElse (Ball.vy b) 1e-6) in
    if Qltb 0 (Keeper.reactT gk) then
      Keeper.set_reactT (Qmax 0 (Keeper.reactT gk - dt * 1000)) gk
    else
      let projX := Ball.x b + Ball.vx b * t
                   + 0.5 * orElse (Ball.spin b) 0 * t * t * 0 in
      let leftBound := W / 2 - GOAL_W / 2 + 18 in
      let rightBound := W / 2 + GOAL_W / 2 - 18 in
      let targetX := Qmax leftBound (Qmin rightBound projX) in
      let step := Keeper.speed gk * dt in
      let gk := Keeper.set_x
                  (Keeper.x gk + Qmax (- step) (Qmin step (targetX - Keeper.x gk)))
                  gk in
      Keeper.set_reactT (GK_REACT_MS * 0.25) gk.

Definition rotate (vx vy angle : Q) : Point :=
  let c := cos angle in
  let s := sin angle in
  mkPoint (vx * c - vy * s) (vx * s + vy * c).

(** [(Math.random()<0.5? -1:1) * (0.25+Math.random()*0.35)] with the draws
    at positions [n] and [n + 1]. *)
Definition parryAngle (n : nat) : Q :=
  (if Qltb (random n) 0.5 then -1 else 1) * (0.25 + random (S n) * 0.35).

(** [gkSave(gk, b, topGoal)]. *)
Definition gkSave (gk : Keeper.t) (topGoal : bool) (s : State.t) : State.t :=
  let b := State.ball s in
  let withinX := Qltb (Qabs (Ball.x b - Keeper.x gk)) 34 in
  let speed := hypot (Ball.vx b) (Ball.vy b) in
  if topGoal then
    if Qltb (Ball.y b - Ball.r b) (Keeper.y gk + 14) && withinX
       && Qltb (Ball.vy b) 0 then
      if Qltb speed GK_HOLD_SPEED then
        let b := Ball.set_y (Keeper.y gk + 12) (Ball.set_x (Keeper.x gk)
                   (Ball.set_vy 0 (Ball.set_vx 0 b))) in
        State.set_protect 200 (State.set_ball b s)
      else
        let newV := rotate (Ball.vx b) (Ball.vy b) (parryAngle (State.rng s)) in
        let b := Ball.set_y (Keeper.y gk + 12)
                   (Ball.set_vy (Qabs (pt_y newV) * 0.6)
                      (Ball.set_vx (pt_x newV * 0.8) b)) in
        State.set_protect 140
          (State.set_rng (S (S (State.rng s))) (State.set_ball b s))
    else s
  else
    if Qltb (Keeper.y gk - 14) (Ball.y b + Ball.r b) && withinX
       && Qltb 0 (Ball.vy b) then
      if Qltb speed GK_HOLD_SPEED then
        let b := Ball.set_y (Keeper.y gk - 12) (Ball.set_x (Keeper.x gk)
                   (Ball.set_vy 0 (Ball.set_vx 0 b))) in
        State.set_protect 200 (State.set_ball b s)
      else
        let newV := rotate (Ball.vx b) (Ball.vy b) (parryAngle (State.rng s)) in
        let b := Ball.set_y (Keeper.y gk - 12)
                   (Ball.set_vy (- Qabs (pt_y newV) * 0.6)
                      (Ball.set_vx (pt_x newV * 0.8) b)) in
        State.set_protect 140
          (State.set_rng (S (S (State.rng s))) (State.set_ball b s))
    else s.

(** GK prediction & movement, then GK saves. *)
Definition keepers (dt : Q) (s : State.t) : State.t :=
  let s := State.set_gkFR (gkUpdate (State.gkFR s) (State.ball s) true dt) s in
  let s := State.set_gkPT (gkUpdate (State.gkPT s) (State.ball s) false dt) s in
  let s := gkSave (State.gkFR s) true s in
  gkSave (State.gkPT s) false s.

(** *** France defensive logic *)

(** A defender object is identified with its index in [state.defenders];
    an entry of [sorted] is the pair of that index and its distance. *)
Definition distances (b : Ball.t) (ds : list Player.t) : list (nat * Q) :=
  mapFrom (fun i d => (i, hypot (Player.x d - Ball.x b) (Player.y d - Ball.y b)))
    0 ds.

(** [Array.prototype.sort] with [(a,b) => a.dist - b.dist]: a stable sort,
    here by insertion behind the entries that are not larger. *)
Fixpoint insertByDist (e : nat * Q) (l : list (nat * Q)) : list (nat * Q) :=
  match l with
  | [] => [e]
  | e' :: rest =>
      if Qltb (snd e) (snd e') then e :: l else e' :: insertByDist e rest
  end.

Definition sortByDist (l : list (nat * Q)) : list (nat * Q) :=
  fold_left (fun acc e => insertByDist e acc) l [].

(** [MAX_E], [RAD_E] and the other tier values read through [state.cfg?.]. *)
Definition MAX_E (s : State.t) : Q :=
  optField (State.cfg s) Level.maxEngagers MAX_ENGAGERS.
Definition RAD_E (s : State.t) : Q :=
  optField (State.cfg s) Level.engageRadius ENGAGE_RADIUS.
Definition defenderSpeedOf (s : State.t) : Q :=
  optField (State.cfg s) Level.defenderSpeed DEFENDER_SPEED.
Definition captureSpeedMaxOf (s : State.t) : Q :=
  optField (State.cfg s) Level.captureSpeedMax CAPTURE_SPEED_MAX.

(** [engaged.size] as a number. *)
Definition sizeQ (e : set nat) : Q := inject_Z (Z.of_nat (List.length e)).

(** The loop filling the [engaged] set from [sorted]. *)
Fixpoint engageLoop (maxE radE : Q) (sorted : list (nat * Q)) (engaged : set nat)
    : set nat :=
  match sorted with
  | [] => engaged
  | e :: rest =>
      if Qle_bool maxE (sizeQ engaged) then engaged
      else engageLoop maxE radE rest
             (if Qltb (snd e) radE then set_add Nat.eq_dec (fst e) engaged
              else engaged)
  end.

Definition engagedSet (s : State.t) : set nat :=
  engageLoop (MAX_E s) (RAD_E s)
    (sortByDist (distances (State.ball s) (State.defenders s))) [].

(** [engaged.has(p)] for the defender of index [i]. *)
Definition has (engaged : set nat) (i : nat) : bool :=
  set_mem Nat.eq_dec i engaged.

(** [state.ai.carrier === p] for the defender of index [i]. *)
Definition isCarrier (s : State.t) (i : nat) : bool :=
  match AI.carrier (State.ai s) with
  | Some j => Nat.eqb j i
  | None => false
  end.

(** Engagement flags, lag and movement of defender [p]: the loop body up to
    "Move with speed". *)
Definition moveDefender (dt : Q) (isEngaging : bool) (s : State.t)
    (p : Player.t) : Player.t :=
  let b := State.ball s in
  let p := if isEngaging && negb (Player.engaged p)
           then Player.set_engaged true
                  (Player.set_lag (Player.react p / 1000) p)
           else p in
  let p := if negb isEngaging && Player.engaged p
           then Player.set_lag 0 (Player.set_engaged false p)
           else p in
  let chase := isEngaging && negb (Qltb 0 (Player.lag p)) in
  let tx := if chase then Ball.x b + Ball.vx b * 0.35 else Player.homeX p in
  let ty := if chase then Ball.y b + Ball.vy b * 0.35 else Player.homeY p in
  let p := if isEngaging && Qltb 0 (Player.lag p)
           then Player.set_lag (Player.lag p - dt) p else p in
  let dx := tx - Player.x p in
  let dy := ty - Player.y p in
  let dist := orElse (hypot dx dy) 1 in
  let step := Qmin (defenderSpeedOf s * dt * (if isEngaging then 1 else 0.7))
                dist in
  Player.set_phase (Player.phase p + dt)
    (Player.set_y (Player.y p + (dy / dist) * step)
       (Player.set_x (Player.x p + (dx / dist) * step) p)).

(** The test of "Tackle/capture when close & ball slow enough". *)
Definition canCapture (i : nat) (p : Player.t) (s : State.t) : bool :=
  let b := State.ball s in
  let bd := hypot (Ball.x b - Player.x p) (Ball.y b - Player.y p) in
  let bs := hypot (Ball.vx b) (Ball.vy b) in
  negb (isCarrier s i)
  && Qle_bool (State.protect s) 0
  && Qle_bool (State.tackleCd s) 0
  && Qltb bd (Player.r p + Ball.r b)
  && Qle_bool bs (captureSpeedMaxOf s).

(** The capture statement of defender [i], already moved to [p]. *)
Definition capture (i : nat) (p : Player.t) (s : State.t) : State.t :=
  if canCapture i p s then
    let s := State.set_ai (AI.set_carrier (Some i) (State.ai s)) s in
    let s := State.set_tackleCd 120 s in
    let s := State.set_protect 250 s in
    let s := State.set_ai (AI.set_ptCarrier (-1) (State.ai s)) s in
    State.set_ball (Ball.set_spin 0 (State.ball s)) s
  else s.

(** "If carrying, dribble & shoot at home goal". *)
Definition carry (i : nat) (p : Player.t) (s : State.t) : State.t :=
  if isCarrier s i then
    let b := State.ball s in
    let distToHome := (H - 36) - Player.y p in
    if Qltb distToHome 60
       && Qltb (Qabs (Player.x p - W / 2)) (GOAL_W / 2 - 20) then
      let speed := 520 + random (State.rng s) * 160 in
      let dxs := W / 2 - Player.x p in
      let dys := (H - 36) - Player.y p - 6 in
      let Ls := orElse (hypot dxs dys) 1 in
      let b := Ball.set_vy ((dys / Ls) * speed) (Ball.set_vx ((dxs / Ls) * speed)
                 (Ball.set_y (Player.y p - 6) (Ball.set_x (Player.x p) b))) in
      let s := State.set_rng (S (State.rng s)) (State.set_ball b s) in
      let s := State.set_ai (AI.set_carrier None (State.ai s)) s in
      State.set_protect 40 s
    else
      State.set_ball
        (Ball.set_vy 0 (Ball.set_vx 0
           (Ball.set_y (Player.y p - 12) (Ball.set_x (Player.x p) b)))) s
  else s.

(** The body of [for (const p of state.defenders)] for the defender of
    index [i]: the defender after the pass and the rest of the state. *)
Definition defenderStep (dt : Q) (engaged : set nat) (i : nat) (p : Player.t)
    (s : State.t) : Player.t * State.t :=
  let p := moveDefender dt (has engaged i) s p in
  (p, carry i p (capture i p s)).

Fixpoint defendLoop (dt : Q) (engaged : set nat) (i : nat) (ps : list Player.t)
    (s : State.t) : list Player.t * State.t :=
  match ps with
  | [] => ([], s)
  | p :: rest =>
      let (p', s') := defenderStep dt engaged i p s in
      let (ps', s'') := defendLoop dt engaged (S i) rest s' in
      (p' :: ps', s'')
  end.

Definition defend (dt : Q) (s : State.t) : State.t :=
  let (ps, s') := defendLoop dt (engagedSet s) 0 (State.defenders s) s in
  State.set_defenders ps s'.

(** [update(dt)]; [None] when the step throws. *)
Definition update (dt : Q) (s : State.t) : option State.t :=
  let s := tickTimers dt s in
  let s := State.set_ball (walls (integrate dt (State.ball s))) s in
  let s := goals s in
  let s := trap s in
  let s := moveMates dt s in
  match carryMate dt s with
  | None => None
  | Some s => Some (defend dt (keepers dt s))
  end.

(** The simulation part of [step(t)]: the clamped [dt] and [update]. *)
Definition step (t : Q) (s : State.t) : option State.t :=
  let dt := Qmin 0.033 ((t - State.time s) / 1000) in
  update dt (State.set_time t s).

(** ** Field geometry of [drawField]

    The numbers [drawField] computes before it draws: the corners of the
    border trapezoid and the corners of the grass stripes. *)

Definition stripes : Q := 14.

(** [lt], [rt], [lb], [rb]. *)
Definition borderLT : Q := W / 2 - (W / 2) * PERS.sFar.
Definition borderRT : Q := W / 2 + (W / 2) * PERS.sFar.
Definition borderLB : Q := W / 2 - (W / 2) * PERS.sNear.
Definition borderRB : Q := W / 2 + (W / 2) * PERS.sNear.

(** The top edge of stripe [i]: [y0], [l0], [r0] (the bottom edge, [y1],
    [l1], [r1], is the top edge of stripe [i + 1]). *)
Definition stripeY (i : nat) : Q :=
  PERS.top + (PERS.bottom - PERS.top) * (inject_Z (Z.of_nat i) / stripes).
Definition stripeS (i : nat) : Q :=
  PERS.sFar + (PERS.sNear - PERS.sFar) * (inject_Z (Z.of_nat i) / stripes).
Definition stripeL (i : nat) : Q := W / 2 - (W / 2) * stripeS i.
Definition stripeR (i : nat) : Q := W / 2 + (W / 2) * stripeS i.

(** ** Event handlers

    The listeners registered on [window] and the frame callback are the
    only code that touches [state] after its creation. *)

Inductive Event : Type :=
| Frame (t : Q)
| MouseDown (button : Z) (rawX rawY : Q) (shiftKey ctrlKey : bool) (now : Q)
| MouseMove (rawX rawY : Q)
| MouseUp (button : Z) (now : Q)
| KeyDown (key : string) (shiftKey : bool)
| KeyUp (key : string).

(** [if (k in state.keys) state.keys[k] = v]. *)
Definition setKey (k : string) (v : bool) (ks : Keys.t) : Keys.t :=
  let 'Keys.mk w a s d l r u dn := ks in
  if String.eqb k "w" then Keys.mk v a s d l r u dn
  else if String.eqb k "a" then Keys.mk w v s d l r u dn
  else if String.eqb k "s" then Keys.mk w a v d l r u dn
  else if String.eqb k "d" then Keys.mk w a s v l r u dn
  else if String.eqb k "ArrowLeft" then Keys.mk w a s d v r u dn
  else if String.eqb k "ArrowRight" then Keys.mk w a s d l v u dn
  else if String.eqb k "ArrowUp" then Keys.mk w a s d l r v dn
  else if String.eqb k "ArrowDown" then Keys.mk w a s d l r u v
  else ks.

(** [mousedown(e)]; [rawX], [rawY] are the canvas coordinates that
    [toWorld] hands to [unproject]. *)
Definition mousedown (button : Z) (rawX rawY : Q) (shiftKey ctrlKey : bool)
    (now : Q) (s : State.t) : State.t :=
  if (button =? 2)%Z then passToSelected s
  else if negb (button =? 0)%Z then s
  else
    let s := State.set_t0 now (State.set_charging true s) in
    let p := unproject rawX rawY in
    let s := State.set_aim (mkPoint (pt_x p) (pt_y p)) s in
    State.set_mod_ (Mod.mk shiftKey ctrlKey) s.

Definition mousemove (rawX rawY : Q) (s : State.t) : State.t :=
  if negb (State.charging s) then s
  else State.set_aim (unproject rawX rawY) s.

Definition keydown (key : string) (shiftKey : bool) (s : State.t) : State.t :=
  let s := State.set_keys (setKey key true (State.keys s)) s in
  if String.eqb key "Tab" then cycleSelected (if shiftKey then -1 else 1) s
  else s.

Definition keyup (key : string) (s : State.t) : State.t :=
  State.set_keys (setKey key false (State.keys s)) s.

Definition handle (e : Event) (s : State.t) : option State.t :=
  match e with
  | Frame t => step t s
  | MouseDown button rawX rawY shiftKey ctrlKey now =>
      Some (mousedown button rawX rawY shiftKey ctrlKey now s)
  | MouseMove rawX rawY => Some (mousemove rawX rawY s)
  | MouseUp button now =>
      Some (if (button =? 0)%Z then mouseup now s else s)
  | KeyDown key shiftKey => Some (keydown key shiftKey s)
  | KeyUp key => Some (keyup key s)
  end.

(** The events of a session, in order. *)
Fixpoint play (es : list Event) (s : State.t) : option State.t :=
  match es with
  | [] => Some s
  | e :: rest =>
      match handle e s with
      | None => None
      | Some s' => play rest s'
      end
  end.

(** A run of [update] steps, one [dt] per frame. *)
Fixpoint run (dts : list Q) (s : State.t) : option State.t :=
  match dts with
  | [] => Some s
  | dt :: rest =>
      match update dt s with
      | None => None
      | Some s' => run rest s'
      end
  end.

End Simulation.

(** ** A concrete library, to run the embedding

    Rational stand-ins for the [Math] functions: a square root rounded down
    to a multiple of 2^-20, the first terms of the sine and cosine series, a
    rational arctangent, and a linear congruential sequence in [0, 1).  They
    serve to evaluate the definitions on concrete states; no general
    statement below depends on them. *)

Definition sqrtQ (q : Q) : Q :=
  let q := Qred q in
  Qmake (Z.sqrt (Qnum q * Zpos (Qden q) * 2 ^ 40)) (Qden q * 2 ^ 20).

Definition atanQ (z : Q) : Q := z / (1 + 0.28 * z * z).

Definition refMath : MathLib := {|
  hypot := fun x y => Qred (sqrtQ (x * x + y * y));
  sin := fun a => Qred (a - a * a * a / 6 + a * a * a * a * a / 120);
  cos := fun a => Qred (1 - a * a / 2 + a * a * a * a / 24);
  atan2 := fun y x =>
    if Qeq_bool x 0 then (if Qltb y 0 then - (11 / 7) else 11 / 7)
    else if Qltb 0 x then Qred (atanQ (y / x))
    else Qred (atanQ (y / x) + (if Qltb y 0 then - (22 / 7) else 22 / 7));
  random := fun n =>
    Qmake ((1103515245 * Z.of_nat n + 12345) mod 2147483648) 2147483648
|}.

(** ** The service worker ([docs/sw.js]) *)

Module SW.

Definition VERSION : string := "kickcraft-v3".

Definition CORE_ASSETS : list string :=
  [ "/kickcraft/";
    "/kickcraft/index.html";
    "/kickcraft/manifest.webmanifest";
    "/kickcraft/sw.js";
    "/kickcraft/icons/icon-192.png";
    "/kickcraft/icons/icon-512.png";
    "/kickcraft/web/vendor/three.r128.min.js";
    "/kickcraft/web/vendor/react.18.prod.min.js";
    "/kickcraft/web/vendor/react-dom.18.prod.min.js";
    "/kickcraft/web/vendor/babel.min.js";
    "/kickcraft/web/fc-street/index.html";
    "/kickcraft/web/kickcraft-11v11/index.html" ].

(** A request, with the parts of [new URL(req.url)] the handler reads. *)
Record Request : Type := mkRequest {
  origin : string;
  pathname : string;
  search : string;
  method : string
}.

Record Response : Type := mkResponse { status : Z; body : string }.

(** A cache is the list of its entries in insertion order; the cache
    storage is the list of the named caches in creation order. *)
Definition Cache : Type := list (Request * Response).
Definition CacheStorage : Type := list (string * Cache).

(** Two requests address the same entry when their URLs agree. *)
Definition sameUrl (a b : Request) : bool :=
  String.eqb (origin a) (origin b)
  && String.eqb (pathname a) (pathname b)
  && String.eqb (search a) (search b).

(** [cache.match(req)]: only a GET request matches. *)
Fixpoint cache_match (c : Cache) (req : Request) : option Response :=
  match c with
  | [] => None
  | (k, v) :: rest =>
      if String.eqb (method req) "GET" && sameUrl k req then Some v
      else cache_match rest req
  end.

(** [caches.match(req)]: the first match, caches taken in creation order. *)
Fixpoint caches_match (cs : CacheStorage) (req : Request) : option Response :=
  match cs with
  | [] => None
  | (_, c) :: rest =>
      match cache_match c req with
      | Some v => Some v
      | None => caches_match rest req
      end
  end.

(** [cache.put(req, res)]: the entries of the same URL give way to the new
    one. *)
Definition cache_put (c : Cache) (req : Request) (res : Response) : Cache :=
  (filter (fun e => negb (sameUrl (fst e) req)) c ++ [(req, res)])%list.

(** [caches.open(name).then(cache => cache.put(req, res))]; the cache is
    created when it does not exist. *)
Fixpoint open_put (name : string) (req : Request) (res : Response)
    (cs : CacheStorage) : CacheStorage :=
  match cs with
  | [] => [(name, cache_put [] req res)]
  | (n, c) :: rest =>
      if String.eqb n name then (n, cache_put c req res) :: rest
      else (n, c) :: open_put name req res rest
  end.

(** [caches.open(name)]: the cache is created when it does not exist. *)
Fixpoint open_cache (name : string) (cs : CacheStorage) : CacheStorage :=
  match cs with
  | [] => [(name, [])]
  | (n, c) :: rest =>
      if String.eqb n name then (n, c) :: rest
      else (n, c) :: open_cache name rest
  end.

(** What [cache.put] and [cache.addAll] accept: they reject a partial
    response (status 206).  Responses are taken without a [Vary] header. *)
Definition storable (res : Response) : bool := negb (status res =? 206)%Z.

(** What the worker can touch: the cache storage; the network, seen through
    the list of the requests sent to it; and the backfills that the fetch
    listener has started and that have not settled yet.  The listener does
    not wait for them: they settle later, in any order. *)
Record World : Type := mkWorld {
  caches : CacheStorage;
  fetched : list Request;
  pending : list (Request * Response)
}.

(** A settled promise. *)
Inductive Settled (A : Type) : Type :=
| Fulfilled (a : A)
| Rejected.
Arguments Fulfilled {A} a.
Arguments Rejected {A}.

(** Computations of the worker: a state monad over [World]. *)
Definition Job (A : Type) : Type := World -> A * World.

Definition ret {A : Type} (a : A) : Job A := fun w => (a, w).
Definition bind {A B : Type} (m : Job A) (k : A -> Job B) : Job B :=
  fun w => let (a, w') := m w in k a w'.

Notation "x <- m ;; k" := (bind m (fun x => k))
  (at level 61, m at next level, right associativity).

(** [p.then(f)] and [p.catch(h)]. *)
Definition then_ {A B : Type} (p : Settled A) (f : A -> Job (Settled B))
    : Job (Settled B) :=
  match p with
  | Fulfilled a => f a
  | Rejected => ret Rejected
  end.

Definition catch_ {A : Type} (p : Settled A) (h : Job (Settled A))
    : Job (Settled A) :=
  match p with
  | Fulfilled a => ret (Fulfilled a)
  | Rejected => h
  end.

Section Worker.
(** The network: the response to a request, or [None] when [fetch]
    rejects. *)
Variable network : Request -> option Response.
(** [self.location.origin]. *)
Variable selfOrigin : string.

Definition matchAll (req : Request) : Job (option Response) :=
  fun w => (caches_match (caches w) req, w).

Definition fetch (req : Request) : Job (Settled Response) :=
  fun w =>
    (match network req with Some res => Fulfilled res | None => Rejected end,
     mkWorld (caches w) (fetched w ++ [req])%list (pending w)).

(** [caches.open(VERSION).then((cache) => cache.put(req, copy))] as the
    listener runs it: the chain is started and left alone. *)
Definition put (req : Request) (res : Response) : Job unit :=
  fun w =>
    (tt, mkWorld (caches w) (fetched w) (pending w ++ [(req, res)])%list).

(** [if (cached)]. *)
Definition truthy {A : Type} (o : option A) : bool :=
  match o with Some _ => true | None => false end.

(** The promise handed to [event.respondWith]; [None] stands for
    [undefined]. *)
Definition cacheFirst (req : Request) : Job (Settled (option Response)) :=
  cached <- matchAll req ;;
  if truthy cached then ret (Fulfilled cached)
  else
    p <- fetch req ;;
    q <- then_ p (fun res => _ <- put req res ;; ret (Fulfilled (Some res))) ;;
    catch_ q (ret (Fulfilled cached)).

(** What the fetch listener does with the event. *)
Inductive Handled : Type :=
| NotHandled
| RespondWith (p : Settled (option Response)).

Definition onFetch (req : Request) : Job Handled :=
  if negb (String.eqb (origin req) selfOrigin) then ret NotHandled
  else if negb (String.prefix "/kickcraft/" (pathname req)) then ret NotHandled
  else if String.eqb (method req) "GET" then
    p <- cacheFirst req ;; ret (RespondWith p)
  else ret NotHandled.

(** What the page that issued the request gets.  [respondWith] delivers a
    fulfilled [Response]; a promise that rejects, or that fulfils with a
    value that is no [Response], ends the request with a network error.  An
    event left alone goes to the network. *)
Inductive Delivered : Type :=
| Served (res : Response)
| NetworkError.

Definition delivered (req : Request) (h : Handled) : Delivered :=
  match h with
  | NotHandled =>
      match network req with Some res => Served res | None => NetworkError end
  | RespondWith (Fulfilled (Some res)) => Served res
  | RespondWith (Fulfilled None) => NetworkError
  | RespondWith Rejected => NetworkError
  end.

(** The requests the listener answers itself. *)
Definition inScope (req : Request) : Prop :=
  origin req = selfOrigin /\
  String.prefix "/kickcraft/" (pathname req) = true /\
  method req = "GET".

(** The backfill at position [n] of the pending ones settles: the cache of
    the version is opened, and the response is put into it unless
    [cache.put] rejects, which it does for a request that is no GET and for
    a partial response; nobody handles that rejection. *)
Fixpoint remove_nth {A : Type} (n : nat) (l : list A) : list A :=
  match l, n with
  | [], _ => []
  | _ :: rest, O => rest
  | a :: rest, S k => a :: remove_nth k rest
  end.

Definition settle (n : nat) (w : World) : World :=
  match nth_error (pending w) n with
  | None => w
  | Some (req, res) =>
      mkWorld
        (if String.eqb (method req) "GET" && storable res
         then open_put VERSION req res (caches w)
         else open_cache VERSION (caches w))
        (fetched w) (remove_nth n (pending w))
  end.

(** What happens to the worker between installation steps: a fetch event,
    or a pending backfill that settles. *)
Inductive Activity : Type :=
| Fetch (req : Request)
| Settle (n : nat).

Definition act (a : Activity) (w : World) : World :=
  match a with
  | Fetch req => snd (onFetch req w)
  | Settle n => settle n w
  end.

(** A run of activities, one after the other. *)
Fixpoint browse (acts : list Activity) (w : World) : World :=
  match acts with
  | [] => w
  | a :: rest => browse rest (act a w)
  end.

(** *** The install and activate listeners *)

(** The request that [addAll] makes for a URL of the list: a GET of that
    path on the origin of the worker. *)
Definition assetRequest (url : string) : Request :=
  mkRequest selfOrigin url EmptyString "GET".

(** [res.ok]. *)
Definition ok (res : Response) : bool :=
  ((200 <=? status res) && (status res <=? 299))%Z.

Definition open_ (name : string) : Job unit :=
  fun w => (tt, mkWorld (open_cache name (caches w)) (fetched w) (pending w)).

(** The entries of a batch, when every fetch of it is answered and every
    answer is ok and no partial response. *)
Fixpoint fetchAll (urls : list string) : option (list (Request * Response)) :=
  match urls with
  | [] => Some []
  | u :: rest =>
      match network (assetRequest u) with
      | Some res =>
          if ok res && storable res then
            match fetchAll rest with
            | Some es => Some ((assetRequest u, res) :: es)
            | None => None
            end
          else None
      | None => None
      end
  end.

Fixpoint distinct (urls : list string) : bool :=
  match urls with
  | [] => true
  | u :: rest => negb (existsb (String.eqb u) rest) && distinct rest
  end.

Definition putAll (name : string) (es : list (Request * Response))
    (cs : CacheStorage) : CacheStorage :=
  fold_left (fun cs e => open_put name (fst e) (snd e) cs) es cs.

(** [cache.addAll(urls)] on the cache [name]: every URL is requested; the
    entries are stored together when every answer is ok, none is a partial
    response and no URL comes twice, otherwise the promise rejects and
    nothing is stored. *)
Definition addAll (name : string) (urls : list string) : Job (Settled unit) :=
  fun w =>
    let sent := (fetched w ++ map assetRequest urls)%list in
    match fetchAll urls with
    | Some es =>
        if distinct urls
        then (Fulfilled tt,
              mkWorld (putAll name es (caches w)) sent (pending w))
        else (Rejected, mkWorld (caches w) sent (pending w))
    | None => (Rejected, mkWorld (caches w) sent (pending w))
    end.

(** The promise handed to [event.waitUntil] by the install listener; the
    last step is [self.skipWaiting()]. *)
Definition install : Job (Settled unit) :=
  _ <- open_ VERSION ;;
  p <- addAll VERSION CORE_ASSETS ;;
  then_ p (fun _ => ret (Fulfilled tt)).

(** [caches.keys()] and [caches.delete(k)]. *)
Definition caches_keys : Job (list string) :=
  fun w => (map fst (caches w), w).

Definition caches_delete (k : string) : Job bool :=
  fun w =>
    (existsb (fun e => String.eqb (fst e) k) (caches w),
     mkWorld (filter (fun e => negb (String.eqb (fst e) k)) (caches w))
       (fetched w) (pending w)).

(** [Promise.all(l.map(f))]. *)
Fixpoint all {A B : Type} (f : A -> Job B) (l : list A) : Job (list B) :=
  match l with
  | [] => ret []
  | a :: rest => b <- f a ;; bs <- all f rest ;; ret (b :: bs)
  end.

(** The promise handed to [event.waitUntil] by the activate listener; the
    last step is [self.clients.claim()]. *)
Definition activate : Job (Settled unit) :=
  ks <- caches_keys ;;
  _ <- all caches_delete (filter (fun k => negb (String.eqb k VERSION)) ks) ;;
  ret (Fulfilled tt).

End Worker.

(** Concrete instances: the request for the index page, a cache storage
    that holds it under the current version, and a network that is down. *)
Definition indexRequest : Request :=
  mkRequest "https://richducat.github.io" "/kickcraft/index.html" EmptyString
    "GET".
Definition indexPage : Response := mkResponse 200 "<!doctype html>".
Definition installed : World :=
  mkWorld [(VERSION, [(indexRequest, indexPage)])] [] [].
Definition offline : Request -> option Response := fun _ => None.

(** A network that answers every request with the index page, one that
    answers with an error page, and the request of a page of the site that
    is no core asset. *)
Definition online : Request -> option Response := fun _ => Some indexPage.
Definition notFound : Response := mkResponse 404 "Not Found".
Definition broken : Request -> option Response := fun _ => Some notFound.
Definition creditsRequest : Request :=
  mkRequest "https://richducat.github.io" "/kickcraft/credits.html"
    EmptyString "GET".
Definition empty : World := mkWorld [] [] [].
(** A storage left by the previous version of the worker. *)
Definition upgraded : World :=
  mkWorld [("kickcraft-v2", [(indexRequest, notFound)]);
           (VERSION, [(indexRequest, indexPage)])] [] [].
(** A network that answers every request with a partial response. *)
Definition partialContent : Response := mkResponse 206 "<!doc".
Definition ranged : Request -> option Response :=
  fun _ => Some partialContent.

End SW.

(** ** Predicates of the statements *)

(** The ball fits between the two long sides of the field (it does: its
    radius is [BALL_R] from the initial state on and is never assigned). *)
Definition fitsField (b : Ball.t) : Prop := 2 * (pad + Ball.r b) <= H.

(** The score board and the tier are the same in two states. *)
Definition sameProgress (s s' : State.t) : Prop :=
  State.score s' = State.score s /\
  State.against s' = State.against s /\
  State.levelIdx s' = State.levelIdx s /\
  State.levelProgress s' = State.levelProgress s /\
  State.goalsToAdvance s' = State.goalsToAdvance s /\
  State.cfg s' = State.cfg s.

(** The active tier is one of [LEVELS], as [applyLevel] leaves it. *)
Definition tierOk (s : State.t) : Prop :=
  (0 <= State.levelIdx s <= LAST_LEVEL)%Z /\
  State.cfg s = nthZ LEVELS (State.levelIdx s).

(** The indices into [state.mates] that [update] dereferences are those of
    actual players: [selectedIdx] always, [ptCarrier] unless it is [-1]. *)
Definition matesOk (s : State.t) : Prop :=
  let n := Z.of_nat (List.length (State.mates s)) in
  (0 <= State.selectedIdx s < n)%Z /\
  (-1 <= AI.ptCarrier (State.ai s) < n)%Z.

(** The number of defenders whose [engaged] flag is set. *)
Definition engagedCount (ps : list Player.t) : nat :=
  List.length (filter Player.engaged ps).

(** The state of a tick when the goals are tested: timers counted down,
    ball integrated and walls resolved. *)
Definition beforeGoals (dt : Q) (s : State.t) : State.t :=
  State.set_ball
    (walls (integrate dt (State.ball (tickTimers dt s)))) (tickTimers dt s).

(** [n] away goals in a row. *)
Definition awayGoals (n : nat) (s : State.t) : State.t :=
  Nat.iter n awayGoal s.

(** The overlap test of the trap: the distance from the ball to the mate is
    below the sum of the radii minus 1. *)
Definition overlaps {M : MathLib} (s : State.t) (m : Player.t) : Prop :=
  hypot (Ball.x (State.ball s) - Player.x m) (Ball.y (State.ball s) - Player.y m)
  < Player.r m + Ball.r (State.ball s) - 1.

(** Mate [i], [m], is the first of the roster to overlap the ball. *)
Definition firstOverlap {M : MathLib} (s : State.t) (i : nat) (m : Player.t)
    : Prop :=
  nth_error (State.mates s) i = Some m /\
  overlaps s m /\
  forall j m', (j < i)%nat -> nth_error (State.mates s) j = Some m' ->
               ~ overlaps s m'.

(** How many sides hold the ball: a defender carrier counts for one, an
    attacker carrier index other than [-1] for one. *)
Definition owners (s : State.t) : nat :=
  (match AI.carrier (State.ai s) with Some _ => 1 | None => 0 end
   + (if (0 <=? AI.ptCarrier (State.ai s))%Z then 1 else 0))%nat.

(** The capture gate is closed by a timer: a protection grace or the team
    tackle cooldown is running. *)
Definition timerGate (s : State.t) : Prop :=
  0 < State.protect s \/ 0 < State.tackleCd s.

(** The ball is faster than the capture-speed ceiling of the active tier. *)
Definition tooFast {M : MathLib} (s : State.t) : Prop :=
  captureSpeedMaxOf s
  < hypot (Ball.vx (State.ball s)) (Ball.vy (State.ball s)).

(** No defender has become the carrier between [s] and [s']: the carrier of
    [s'] is the one of [s], or nobody. *)
Definition noNewCarrier (s s' : State.t) : Prop :=
  AI.carrier (State.ai s') = AI.carrier (State.ai s) \/
  AI.carrier (State.ai s') = None.

(** Between two states the tackle cooldown is kept and no defender has
    become the carrier. *)
Definition sameTackle (s s' : State.t) : Prop :=
  State.tackleCd s' = State.tackleCd s /\ noNewCarrier s s'.

(** Between two states the roster of mates has kept its size, the selection
    is the same, and the attacking carrier index is the same or [-1]. *)
Definition sameRoster (s s' : State.t) : Prop :=
  List.length (State.mates s') = List.length (State.mates s) /\
  State.selectedIdx s' = State.selectedIdx s /\
  (AI.ptCarrier (State.ai s') = AI.ptCarrier (State.ai s) \/
   AI.ptCarrier (State.ai s') = (-1)%Z).

(** The engagement cap: the defenders flagged engaged are at most the
    maximum of the active tier. *)
Definition capped (s : State.t) : Prop :=
  inject_Z (Z.of_nat (engagedCount (State.defenders s))) <= MAX_E s.

(** The states a session can be in: those that some sequence of events
    leads to from the initial state. *)
Definition reachable {M : MathLib} (s : State.t) : Prop :=
  exists now es, play es (initState now) = Some s.

(** What holds of every reachable state: the tier is one of [LEVELS], the
    mate indices are valid, the ball has its radius, and the engagement cap
    is respected. *)
Definition wellFormed (s : State.t) : Prop :=
  tierOk s /\ matesOk s /\ Ball.r (State.ball s) = BALL_R /\ capped s.

(** Between two states the ball has kept its radius. *)
Definition sameRadius (s s' : State.t) : Prop :=
  Ball.r (State.ball s') = Ball.r (State.ball s).

(** What an input handler leaves alone: the defenders, the tier, the
    roster of mates and the ball's radius. *)
Definition sameField (s s' : State.t) : Prop :=
  State.defenders s' = State.defenders s /\
  State.cfg s' = State.cfg s /\
  State.levelIdx s' = State.levelIdx s /\
  State.mates s' = State.mates s /\
  Ball.r (State.ball s') = Ball.r (State.ball s).

(** The ball moves toward the goal a keeper guards: up for the top goal,
    down for the bottom goal. *)
Definition towardGoal (top : bool) (b : Ball.t) : Prop :=
  if top then Ball.vy b < 0 else 0 < Ball.vy b.

(** The contact test of [gkSave]: the ball's leading edge is within 14 units
    of the keeper's line, the ball is within 34 units of him sideways, and it
    moves toward his goal. *)
Definition reaches (gk : Keeper.t) (top : bool) (b : Ball.t) : Prop :=
  (if top then Ball.y b - Ball.r b < Keeper.y gk + 14
   else Keeper.y gk - 14 < Ball.y b + Ball.r b) /\
  Qabs (Ball.x b - Keeper.x gk) < 34 /\
  towardGoal top b.

(** The span a keeper covers: the goal mouth less 18 units on each side. *)
Definition leftBound : Q := W / 2 - GOAL_W / 2 + 18.
Definition rightBound : Q := W / 2 + GOAL_W / 2 - 18.

(** Two entries of [sorted] in ascending order of distance. *)
Definition byDist (a b : nat * Q) : Prop := snd a <= snd b.

(** The distance from the ball to defender [i] of a state, as [sorted]
    records it. *)
Definition distanceTo {M : MathLib} (s : State.t) (i : nat) (d : Q) : Prop :=
  In (i, d) (distances (State.ball s) (State.defenders s)).

(** The zone in front of the home goal from which a carrying defender
    shoots. *)
Definition inShootingZone (p : Player.t) : Prop :=
  (H - 36) - Player.y p < 60 /\
  Qabs (Player.x p - W / 2) < GOAL_W / 2 - 20.

(** The three countdown timers are not negative. *)
Definition timersOk (s : State.t) : Prop :=
  0 <= State.protect s /\ 0 <= State.tackleCd s /\ 0 <= State.trapLock s.

(** The score board of a session: the tier and its counter are those that
    the attacking score commands. *)
Definition boardOk (s : State.t) : Prop :=
  State.goalsToAdvance s = 2%Z /\
  (0 <= State.score s)%Z /\ (0 <= State.against s)%Z /\
  State.levelProgress s = (State.score s mod 2)%Z /\
  State.levelIdx s = Z.min (State.score s / 2) LAST_LEVEL /\
  State.cfg s = nthZ LEVELS (State.levelIdx s).

(** Between two states the list of defenders is the same. *)
Definition sameDefenders (s s' : State.t) : Prop :=
  State.defenders s' = State.defenders s.

(** What the caches of the current version answer. *)
Definition versionMatch (cs : SW.CacheStorage) (q : SW.Request)
    : option SW.Response :=
  SW.caches_match (filter (fun e => String.eqb (fst e) SW.VERSION) cs) q.

(** The caches answer a request with [r] for good: they answer it with [r]
    and no pending backfill is for its URL. *)
Definition quiet (q : SW.Request) (r : SW.Response) (w : SW.World) : Prop :=
  SW.caches_match (SW.caches w) q = Some r /\
  (forall e, In e (SW.pending w) -> SW.sameUrl (fst e) q = false).

(** The time to the goal line that [gkUpdate] computes, and the range of it
    and of the spin in which the binary64 products of [projX] are finite, so
    that the spin term, a product with 0, is 0 there as it is here. *)
Definition flightTime (top : bool) (b : Ball.t) : Q :=
  Qabs (((if top then 36 else H - 36) - Ball.y b) / orElse (Ball.vy b) 1e-6).

Definition flightInRange (top : bool) (b : Ball.t) : Prop :=
  flightTime top b <= 10 ^ 100 /\ Qabs (Ball.spin b) <= 10 ^ 100.

(** ** Concrete states *)

(** The state at start, with the concrete library and clock 0. *)
Definition kickoff : State.t := @initState refMath 0.

(** A ball struck from close range, about to cross the far goal line at the
    middle of the goal mouth; the trap lock of the kick is still running,
    an earlier trap and an earlier tackle have left their marks. *)
Definition goalState : State.t :=
  State.set_tackleCd 60
    (State.set_trapOwner 4
       (State.set_trapLock 200
          (State.set_ball (Ball.mk (W / 2) 40 0 (-300) BALL_R 0) kickoff))).

(** Thirteen away goals after the start: the last tier is active and one more
    goal completes the count. *)
Definition lastTierState : State.t := awayGoals 13 kickoff.

(** The French holding midfielder (defender 4) has just won the ball at his
    home position: he is the carrier, the ball sits at his feet, protect and
    tackle cooldown are those of the capture.  The Portuguese striker
    (mate 8) stands 12.4 units away, 0.4 from the ball. *)
Definition dribbleState : State.t :=
  State.set_tackleCd 120
    (State.set_protect 250
       (State.set_ai (AI.mk (Some 4%nat) (-1))
          (State.set_ball (Ball.mk (W / 2) 248.4 0 0 BALL_R 0) kickoff))).

(** The Portuguese striker (mate 8) at his home position, and the start
    state with the ball moved onto him. *)
Definition striker : Player.t :=
  nth 8 (State.mates kickoff)
    (Player.mk EmptyString 0 0 0 0 0 false 0 0 0 0).

Definition kickoff_ball_at_striker : State.t :=
  State.set_ball (Ball.mk (W / 2) 250 0 0 BALL_R 0) kickoff.

(** The French striker (defender 8) has won the ball in front of the home
    goal, 24 units from the goal line and level with its middle: he is the
    carrier, the ball is at his feet, protect and tackle cooldown are those
    of the capture. *)
Definition breakawayState : State.t :=
  let p := nth 8 (State.defenders kickoff)
             (Player.mk EmptyString 0 0 0 0 0 false 0 0 0 0) in
  State.set_tackleCd 120
    (State.set_protect 250
       (State.set_ai (AI.mk (Some 8%nat) (-1))
          (State.set_defenders
             (list_set 8 (Player.set_y 560 (Player.set_x (W / 2) p))
                (State.defenders kickoff))
             (State.set_ball (Ball.mk (W / 2) 548 0 0 BALL_R 0) kickoff)))).

(** The start state with the ball dropped among the French lines: six
    defenders stand within the engagement radius of the first tier. *)
Definition crowdState : State.t :=
  State.set_ball (Ball.mk (W / 2) 200 0 0 BALL_R 0) kickoff.

(** The defenders of a state that are within the engagement radius of the
    ball. *)
Definition withinRadius (s : State.t) : list (nat * Q) :=
  filter (fun e => Qltb (snd e) (RAD_E s))
    (@distances refMath (State.ball s) (State.defenders s)).

(** The French left back (defender 3) and the Portuguese right centre back
    (mate 2) at their home positions. *)
Definition leftBack : Player.t :=
  nth 3 (State.defenders kickoff)
    (Player.mk EmptyString 0 0 0 0 0 false 0 0 0 0).
Definition centreBack : Player.t :=
  nth 2 (State.mates kickoff)
    (Player.mk EmptyString 0 0 0 0 0 false 0 0 0 0).

(** A slow ball rolling over the near goal line at the middle of the goal
    mouth. *)
Definition ownHalfState : State.t :=
  State.set_ball (Ball.mk (W / 2) 580 0 40 BALL_R 0) kickoff.

(** The striker (mate 8) has trapped the ball close to the far goal, at
    y = 61; the selected player is mate 0. *)
Definition strikerRunState : State.t :=
  State.set_ai (AI.mk None 8)
    (State.set_mates
       (list_set 8 (Player.set_y 61 striker) (State.mates kickoff))
       (State.set_ball (Ball.mk (W / 2) 49 0 0 BALL_R 0) kickoff)).

(** The start state with the last mate of the roster selected. *)
Definition lastSelectedState : State.t := State.set_selectedIdx 9 kickoff.

(** The French holding midfielder (defender 4) at his home position. *)
Definition holdingMidfielder : Player.t :=
  nth 4 (State.defenders kickoff)
    (Player.mk EmptyString 0 0 0 0 0 false 0 0 0 0).

(** A short session from the start: the key D goes down, a frame is drawn
    16 ms later, and the right button asks for a pass. *)
Definition openingEvents : list Event :=
  [KeyDown "d" false; Frame 16; MouseDown 2 0 0 false false 20].

Definition opening : State.t :=
  match @play refMath openingEvents kickoff with
  | Some s => s
  | None => kickoff
  end.

(** The French striker of [breakawayState], in front of the home goal. *)
Definition breakawayStriker : Player.t :=
  nth 8 (State.defenders breakawayState)
    (Player.mk EmptyString 0 0 0 0 0 false 0 0 0 0).

(** The start state with the ball 30 units to the left of the right centre
    back (mate 2) and 40 units up the field from him. *)
Definition passState : State.t :=
  State.set_ball
    (Ball.mk (Player.x centreBack - 30) (Player.y centreBack - 40) 0 0
       BALL_R 0)
    kickoff.

(* ====================================================================== *)
(** * Properties *)

(** Reduction of the record projections over the record updates. *)
Ltac fields :=
  cbn [
    Ball.x Ball.y Ball.vx Ball.vy Ball.r Ball.spin Ball.set_x Ball.set_y
    Ball.set_vx Ball.set_vy Ball.set_r Ball.set_spin Player.role
    Player.num Player.x Player.y Player.r Player.phase Player.engaged
    Player.react Player.lag Player.homeX Player.homeY Player.set_x
    Player.set_y Player.set_phase Player.set_engaged Player.set_lag
    Keeper.x Keeper.y Keeper.speed Keeper.react Keeper.reactT Keeper.set_x
    Keeper.set_reactT Keys.w Keys.a Keys.s Keys.d Keys.ArrowLeft
    Keys.ArrowRight Keys.ArrowUp Keys.ArrowDown Mod.shift Mod.ctrl
    AI.carrier AI.ptCarrier AI.set_carrier AI.set_ptCarrier State.time
    State.ball State.charging State.t0 State.aim State.defenders
    State.mates State.tackleCd State.protect State.ai State.score
    State.against State.gkFR State.gkPT State.trapLock State.trapOwner
    State.receiverIndex State.selectedIdx State.keys State.mod_
    State.levelIdx State.goalsToAdvance State.levelProgress State.cfg
    State.rng State.set_time State.set_ball State.set_charging
    State.set_t0 State.set_aim State.set_defenders State.set_mates
    State.set_tackleCd State.set_protect State.set_ai State.set_score
    State.set_against State.set_gkFR State.set_gkPT State.set_trapLock
    State.set_trapOwner State.set_receiverIndex State.set_selectedIdx
    State.set_keys State.set_mod_ State.set_levelIdx
    State.set_goalsToAdvance State.set_levelProgress State.set_cfg
    State.set_rng
    fst snd pt_x pt_y].

(** ** Projection *)

Lemma scaleAtY_inside (y : Q) :
  0 <= y <= H -> scaleAtY y == PERS.sFar + (PERS.sNear - PERS.sFar) * (y / H).
Proof.
  intros [Hlo Hhi]. unfold scaleAtY.
  assert (Hq : 0 <= y / H <= 1).
  { unfold H in *. split.
    - apply Qle_shift_div_l; [reflexivity | lra].
    - apply Qle_shift_div_r; [reflexivity | lra]. }
  destruct Hq as [Hq0 Hq1].
  rewrite (Q.min_r 1 (y / H)) by exact Hq1.
  rewrite (Q.max_r 0 (y / H)) by exact Hq0.
  reflexivity.
Qed.

Lemma scaleAtY_bounds (y : Q) : PERS.sFar <= scaleAtY y <= PERS.sNear.
Proof.
  unfold scaleAtY.
  assert (H0 : 0 <= Qmax 0 (Qmin 1 (y / H))) by apply Q.le_max_l.
  assert (H1 : Qmax 0 (Qmin 1 (y / H)) <= 1).
  { apply Q.max_lub; [lra | apply Q.le_min_l]. }
  unfold PERS.sFar, PERS.sNear. split; lra.
Qed.

Lemma scaleAtY_pos (y : Q) : 0 < scaleAtY y.
Proof. pose proof (scaleAtY_bounds y) as [Hlo _]. unfold PERS.sFar in Hlo. lra. Qed.

Lemma orElse_scale (y : Q) : orElse (scaleAtY y) 1 = scaleAtY y.
Proof.
  unfold orElse. destruct (Qeq_bool (scaleAtY y) 0) eqn:E; [|reflexivity].
  apply Qeq_bool_eq in E. pose proof (scaleAtY_pos y). lra.
Qed.

#[local] Instance scaleAtY_proper : Proper (Qeq ==> Qeq) scaleAtY.
Proof. intros a b E. unfold scaleAtY. rewrite E. reflexivity. Qed.

Lemma unproject_y_inside (y : Q) :
  0 <= y <= H ->
  Qmax 0 (Qmin H
    ((PERS.top + (PERS.bottom - PERS.top) * (y / H) - PERS.top)
       / (PERS.bottom - PERS.top) * H)) == y.
Proof.
  intros [Hlo Hhi].
  assert (E : (PERS.top + (PERS.bottom - PERS.top) * (y / H) - PERS.top)
                / (PERS.bottom - PERS.top) * H == y).
  { unfold PERS.top, PERS.bottom, H. field. }
  rewrite E.
  rewrite (Q.min_r H y) by exact Hhi.
  rewrite (Q.max_r 0 y) by exact Hlo.
  reflexivity.
Qed.

(** C1: for every world point (x, y) with 0 <= y <= H, [unproject] applied
    to the screen point computed by [project] gives back (x, y); in exact
    arithmetic the round trip is an identity, so the binary64 result differs
    from the original point by rounding only. *)
Theorem project_unproject_roundtrip (x y : Q) :
  0 <= y <= H ->
  pt_x (unproject (pr_x (project x y)) (pr_y (project x y))) == x /\
  pt_y (unproject (pr_x (project x y)) (pr_y (project x y))) == y.
Proof.
  intros Hy. pose proof (unproject_y_inside y Hy) as Ey.
  unfold unproject, project; cbn [pr_x pr_y pt_x pt_y].
  split; [|exact Ey].
  rewrite orElse_scale. rewrite Ey.
  pose proof (scaleAtY_pos y) as Hs.
  unfold W. field. lra.
Qed.

Lemma project_unproject_roundtrip_witness :
  pt_x (unproject (pr_x (project 137 455)) (pr_y (project 137 455))) == 137 /\
  pt_y (unproject (pr_x (project 137 455)) (pr_y (project 137 455))) == 455.
Proof. apply (project_unproject_roundtrip 137 455). unfold H. split; lra. Defined.

Lemma unproject_y_range (px py : Q) : 0 <= pt_y (unproject px py) <= H.
Proof.
  unfold unproject; cbn [pt_y]. split.
  - apply Q.le_max_l.
  - apply Q.max_lub; [unfold H; lra | apply Q.le_min_l].
Qed.


(** ** Binary64: rounding

    What [binary_round_aux] returns, read off the specification of the
    primitive floats: the sign, and the size up to one binade. *)

Section Float64Rounding.
Local Open Scope Z_scope.

Lemma digits2_size (p : positive) : digits2_pos p = Pos.size p.
Proof. induction p as [p IH | p IH |]; cbn; rewrite ?IH; reflexivity. Qed.

Lemma digits_bounds (p : positive) :
  2 ^ (Zpos (digits2_pos p) - 1) <= Zpos p < 2 ^ Zpos (digits2_pos p).
Proof.
  rewrite digits2_size. split.
  - pose proof (Pos.size_le p) as Hle.
    assert (E : Zpos (2 ^ Pos.size p) = 2 ^ Zpos (Pos.size p))
      by (rewrite Pos2Z.inj_pow; reflexivity).
    assert (H2 : 2 ^ Zpos (Pos.size p) = 2 * 2 ^ (Zpos (Pos.size p) - 1)).
    { rewrite <- Z.pow_succ_r by lia. f_equal. lia. }
    apply Pos2Z.pos_le_pos in Hle. rewrite E, H2 in Hle. lia.
  - pose proof (Pos.size_gt p) as Hgt.
    apply Pos2Z.pos_lt_pos in Hgt. rewrite Pos2Z.inj_pow in Hgt. exact Hgt.
Qed.

Lemma Zdigits2_nonneg (m : Z) : 0 <= Zdigits2 m.
Proof. destruct m; cbn; lia. Qed.

Lemma Zdigits2_le (m k : Z) : 0 <= m -> 0 <= k -> m < 2 ^ k -> Zdigits2 m <= k.
Proof.
  intros Hm Hk Hlt. destruct m as [|p|p]; cbn; [lia | | lia].
  destruct (digits_bounds p) as (Hlo & _).
  destruct (Z_le_gt_dec (Zpos (digits2_pos p)) k) as [Hle | Hgt]; [exact Hle|].
  exfalso.
  assert (2 ^ k <= 2 ^ (Zpos (digits2_pos p) - 1))
    by (apply Z.pow_le_mono_r; lia).
  lia.
Qed.

Lemma Zdigits2_gt (m k : Z) : 0 <= k -> 2 ^ k <= m -> k < Zdigits2 m.
Proof.
  intros Hk Hle. assert (0 < 2 ^ k) by (apply Z.pow_pos_nonneg; lia).
  destruct m as [|p|p]; [lia | | lia]. cbn.
  destruct (digits_bounds p) as (_ & Hhi).
  destruct (Z_lt_le_dec k (Zpos (digits2_pos p))) as [Hlt | Hge]; [exact Hlt|].
  exfalso.
  assert (2 ^ Zpos (digits2_pos p) <= 2 ^ k) by (apply Z.pow_le_mono_r; lia).
  lia.
Qed.

Lemma shr_1_m (r : shr_record) :
  0 <= shr_m r -> shr_m (shr_1 r) = shr_m r / 2.
Proof.
  destruct r as [m rb sb]. cbn [shr_m]. intros Hm.
  destruct m as [|[p|p|]|p]; cbn [shr_1 shr_m]; try lia; try reflexivity.
  - apply Z.div_unique with (r := 1); lia.
  - apply Z.div_unique with (r := 0); lia.
Qed.

Lemma iter_shr_m (p : positive) :
  forall r, 0 <= shr_m r ->
    shr_m (iter_pos shr_1 p r) = shr_m r / 2 ^ Zpos p.
Proof.
  assert (Hdd : forall a b c, 0 < b -> 0 < c -> a / b / c = a / (b * c)).
  { intros a b c Hb Hc. apply Z.div_div; lia. }
  induction p as [p IH | p IH |]; intros r Hr; cbn [iter_pos].
  - assert (H1 : 0 <= shr_m (shr_1 r))
      by (rewrite shr_1_m by exact Hr; apply Z.div_pos; lia).
    assert (H2 : 0 <= shr_m (iter_pos shr_1 p (shr_1 r))).
    { rewrite IH by exact H1. apply Z.div_pos; [lia|].
      apply Z.pow_pos_nonneg; lia. }
    rewrite IH by exact H2. rewrite IH by exact H1. rewrite shr_1_m by exact Hr.
    assert (Hp : 0 < 2 ^ Zpos p) by (apply Z.pow_pos_nonneg; lia).
    rewrite !Hdd by lia. f_equal.
    assert (E : Zpos p~1 = 1 + Zpos p + Zpos p) by lia.
    rewrite E, !Z.pow_add_r by lia. lia.
  - assert (H2 : 0 <= shr_m (iter_pos shr_1 p r)).
    { rewrite IH by exact Hr. apply Z.div_pos; [lia|].
      apply Z.pow_pos_nonneg; lia. }
    rewrite IH by exact H2. rewrite IH by exact Hr.
    assert (Hp : 0 < 2 ^ Zpos p) by (apply Z.pow_pos_nonneg; lia).
    rewrite Hdd by lia. f_equal.
    assert (E : Zpos p~0 = Zpos p + Zpos p) by lia.
    rewrite E, Z.pow_add_r by lia. reflexivity.
  - rewrite shr_1_m by exact Hr. reflexivity.
Qed.

Lemma shr_record_of_loc_m (m : Z) (l : location) :
  shr_m (shr_record_of_loc m l) = m.
Proof. destruct l as [|[]]; reflexivity. Qed.


Lemma shr_fexp_spec (m e : Z) (l : location) :
  0 <= m ->
  shr_m (fst (shr_fexp prec emax m e l)) = shifted_m m e /\
  snd (shr_fexp prec emax m e l) = shifted_e m e.
Proof.
  intros Hm. unfold shr_fexp, shifted_m, shifted_e, shr. cbv zeta.
  destruct (fexp prec emax (Zdigits2 m + e) - e) as [|n|n] eqn:En;
    cbn [fst snd Z.ltb Z.compare].
  - split; [apply shr_record_of_loc_m | reflexivity].
  - split; [|reflexivity].
    rewrite iter_shr_m by (rewrite shr_record_of_loc_m; exact Hm).
    rewrite shr_record_of_loc_m. reflexivity.
  - split; [apply shr_record_of_loc_m | reflexivity].
Qed.

Lemma round_nearest_even_bounds (m : Z) (l : location) :
  m <= round_nearest_even m l <= m + 1.
Proof.
  destruct l as [|[]]; cbn [round_nearest_even]; try lia.
  destruct (Z.even m); lia.
Qed.

(** The result of [binary_round_aux] on a mantissa that is not negative. *)
Lemma binary_round_aux_shape (s : bool) (m e : Z) (l : location) :
  0 <= m ->
  exists r,
    shifted_m m e <= r <= shifted_m m e + 1 /\
    (l = loc_Exact -> fexp prec emax (Zdigits2 m + e) <= e -> r = m) /\
    binary_round_aux prec emax s m e l
    = match shifted_m r (shifted_e m e) with
      | Z0 => S754_zero s
      | Zpos p =>
          if shifted_e r (shifted_e m e) <=? emax - prec
          then S754_finite s p (shifted_e r (shifted_e m e))
          else S754_infinity s
      | Zneg _ => S754_nan
      end.
Proof.
  intros Hm. unfold binary_round_aux.
  destruct (shr_fexp_spec m e l Hm) as (E1 & E2).
  destruct (shr_fexp prec emax m e l) as [mrs' e'] eqn:Es. cbn [fst snd] in *.
  set (r := round_nearest_even (shr_m mrs') (loc_of_shr_record mrs')).
  exists r.
  assert (Hr : shifted_m m e <= r <= shifted_m m e + 1)
    by (rewrite <- E1; apply round_nearest_even_bounds).
  assert (Hs0 : 0 <= shifted_m m e).
  { unfold shifted_m. cbv zeta.
    destruct (Z.ltb_spec 0 (fexp prec emax (Zdigits2 m + e) - e));
      [|exact Hm].
    apply Z.div_pos; [exact Hm|]. apply Z.pow_pos_nonneg; lia. }
  split; [exact Hr|]. split.
  { intros -> Hle. subst r.
    unfold shr_fexp, shr in Es.
    destruct (fexp prec emax (Zdigits2 m + e) - e) as [|n|n] eqn:En; try lia;
      injection Es as <- <-; reflexivity. }
  destruct (shr_fexp_spec r e' loc_Exact ltac:(lia)) as (E3 & E4).
  destruct (shr_fexp prec emax r e' loc_Exact) as [mrs'' e'']. cbn [fst snd] in *.
  rewrite E3, E4, E2. reflexivity.
Qed.

Lemma fexp64 (e : Z) : fexp prec emax e = Z.max (e - 53) (-1074).
Proof. reflexivity. Qed.

Lemma shifted_e_spec (m e : Z) :
  shifted_e m e = Z.max e (fexp prec emax (Zdigits2 m + e)).
Proof.
  unfold shifted_e. cbv zeta.
  destruct (Z.ltb_spec 0 (fexp prec emax (Zdigits2 m + e) - e)); lia.
Qed.

Lemma pow2_pos (k : Z) : 0 <= k -> 0 < 2 ^ k.
Proof. intros Hk. apply Z.pow_pos_nonneg; lia. Qed.

(** Dividing by [2 ^ n] a number below [2 ^ k]. *)
Lemma div_pow2_lt (m k n : Z) :
  0 <= n -> n <= k -> m < 2 ^ k -> m / 2 ^ n < 2 ^ (k - n).
Proof.
  intros Hn Hk Hm. apply Z.div_lt_upper_bound; [apply pow2_pos; exact Hn|].
  rewrite <- Z.pow_add_r by lia. replace (n + (k - n)) with k by lia. exact Hm.
Qed.

Lemma div_pow2_le (m k n : Z) :
  0 <= n -> 0 <= k -> 2 ^ (k + n) <= m -> 2 ^ k <= m / 2 ^ n.
Proof.
  intros Hn Hk Hm. apply Z.div_le_lower_bound; [apply pow2_pos; exact Hn|].
  rewrite <- Z.pow_add_r by lia. replace (n + k) with (k + n) by lia. exact Hm.
Qed.

Lemma shifted_m_nonneg (m e : Z) : 0 <= m -> 0 <= shifted_m m e.
Proof.
  intros Hm. unfold shifted_m. cbv zeta.
  destruct (Z.ltb_spec 0 (fexp prec emax (Zdigits2 m + e) - e)); [|exact Hm].
  apply Z.div_pos; [exact Hm | apply pow2_pos; lia].
Qed.

(** A mantissa below [2 ^ (K - e)] stays below it, at the new exponent,
    through [shr_fexp]. *)
Lemma shifted_m_lt (m e K : Z) :
  0 <= m -> m < 2 ^ (K - e) -> e <= K ->
  shifted_e m e <= K ->
  shifted_m m e < 2 ^ (K - shifted_e m e).
Proof.
  intros Hm Hlt He. unfold shifted_m, shifted_e. cbv zeta.
  destruct (Z.ltb_spec 0 (fexp prec emax (Zdigits2 m + e) - e)) as [Hn | Hn];
    [|intros _; exact Hlt].
  intros He1.
  replace (K - (e + (fexp prec emax (Zdigits2 m + e) - e)))
    with (K - e - (fexp prec emax (Zdigits2 m + e) - e)) by lia.
  apply div_pow2_lt; [lia | lia | exact Hlt].
Qed.


Lemma below_mono (K K' : Z) (x : spec_float) :
  K <= K' -> below K x -> below K' x.
Proof.
  intros HK. destruct x as [s|s| |s m e]; cbn [below]; try tauto.
  intros (Hm & He). split; [|lia].
  assert (0 <= K - e) by lia.
  assert (2 ^ (K - e) <= 2 ^ (K' - e)) by (apply Z.pow_le_mono_r; lia). lia.
Qed.

(** Rounding keeps the size, up to one binade, and never overflows below
    [2 ^ 1023]. *)
Lemma binary_round_aux_below (s : bool) (m e K : Z) (l : location) :
  0 <= m -> m < 2 ^ (K - e) -> e <= K - 52 -> -1021 <= K <= 1023 ->
  below (K + 1) (binary_round_aux prec emax s m e l).
Proof.
  intros Hm Hlt He HK.
  destruct (binary_round_aux_shape s m e l Hm) as (r & Hr & _ & ->).
  pose proof (shifted_m_nonneg m e Hm) as H0.
  assert (Hd : Zdigits2 m + e <= K).
  { pose proof (Zdigits2_le m (K - e) Hm ltac:(lia) Hlt). lia. }
  assert (He1 : shifted_e m e <= K - 52).
  { rewrite shifted_e_spec, fexp64. lia. }
  pose proof (shifted_m_lt m e K Hm Hlt ltac:(lia) ltac:(lia)) as Hm1.
  set (e1 := shifted_e m e) in *. set (m1 := shifted_m m e) in *.
  assert (Hr0 : 0 <= r) by lia.
  assert (Hrlt : r < 2 ^ (K + 1 - e1)).
  { replace (K + 1 - e1) with (1 + (K - e1)) by lia.
    rewrite Z.pow_add_r by lia. pose proof (pow2_pos (K - e1) ltac:(lia)).
    change (2 ^ 1) with 2. lia. }
  assert (Hdr : Zdigits2 r + e1 <= K + 1).
  { pose proof (Zdigits2_le r (K + 1 - e1) Hr0 ltac:(lia) Hrlt). lia. }
  assert (He2 : shifted_e r e1 <= K - 52).
  { rewrite shifted_e_spec, fexp64. lia. }
  pose proof (shifted_m_lt r e1 (K + 1) Hr0 Hrlt ltac:(lia) ltac:(lia)) as Hm2.
  pose proof (shifted_m_nonneg r e1 Hr0) as H2.
  destruct (shifted_m r e1) as [|p|p]; [exact I | | lia].
  assert (E : (shifted_e r e1 <=? emax - prec) = true).
  { apply Z.leb_le. change (emax - prec) with 971. lia. }
  rewrite E. cbn [below]. split; [exact Hm2 | lia].
Qed.


Lemma binary_round_aux_signed (s : bool) (m e : Z) (l : location) :
  0 <= m -> signed s (binary_round_aux prec emax s m e l).
Proof.
  intros Hm.
  destruct (binary_round_aux_shape s m e l Hm) as (r & Hr & _ & ->).
  pose proof (shifted_m_nonneg m e Hm) as H0.
  pose proof (shifted_m_nonneg r (shifted_e m e) ltac:(lia)) as H2.
  destruct (shifted_m r (shifted_e m e)) as [|p|p]; [reflexivity | | lia].
  destruct (_ <=? _); reflexivity.
Qed.

Lemma shl_align_spec (m : positive) (e e' : Z) :
  Zpos (fst (shl_align m e e')) = Zpos m * 2 ^ (e - snd (shl_align m e e')) /\
  snd (shl_align m e e') = Z.min e e'.
Proof.
  unfold shl_align. destruct (e' - e) as [|d|d] eqn:Ed; cbn [fst snd].
  - split; [|lia]. replace (e - e) with 0 by lia. cbn. lia.
  - split; [|lia]. replace (e - e) with 0 by lia. cbn. lia.
  - split; [|lia].
    change (Pos.iter xO m d) with (Zpower.shift_pos d m).
    rewrite Zpower.shift_pos_correct, Zpower.Zpower_pos_nat,
      Zpower.Zpower_nat_Z, positive_nat_Z.
    replace (e - e') with (Zpos d) by lia. lia.
Qed.

Lemma binary_round_below (s : bool) (m : positive) (e K : Z) :
  Zpos m < 2 ^ (K - e) -> e <= K -> -1021 <= K <= 1023 ->
  below (K + 1) (binary_round prec emax s m e).
Proof.
  intros Hlt He HK. unfold binary_round.
  destruct (shl_align_spec m e (fexp prec emax (Zpos (digits2_pos m) + e)))
    as (Em & Ee).
  destruct (shl_align m e _) as [mz ez]. cbn [fst snd] in *.
  assert (Hd : Zpos (digits2_pos m) + e <= K).
  { pose proof (Zdigits2_le (Zpos m) (K - e) ltac:(lia) ltac:(lia) Hlt) as Hd.
    cbn [Zdigits2] in Hd. lia. }
  rewrite fexp64 in Ee.
  apply binary_round_aux_below; try lia.
  rewrite Em.
  replace (K - ez) with ((K - e) + (e - ez)) by lia.
  rewrite Z.pow_add_r by lia.
  pose proof (pow2_pos (e - ez) ltac:(lia)). nia.
Qed.

Lemma binary_round_signed (s : bool) (m : positive) (e : Z) :
  signed s (binary_round prec emax s m e).
Proof.
  unfold binary_round. destruct (shl_align m e _) as [mz ez].
  apply binary_round_aux_signed. lia.
Qed.


Lemma signed_number (s : bool) (x : spec_float) : signed s x -> number x.
Proof. destruct x; cbn; unfold number; congruence. Qed.

Lemma binary_normalize_number (m e : Z) (sz : bool) :
  number (binary_normalize prec emax m e sz).
Proof.
  destruct m as [|p|p]; cbn [binary_normalize].
  - discriminate.
  - apply (signed_number false), binary_round_signed.
  - apply (signed_number true), binary_round_signed.
Qed.

Lemma binary_normalize_below (m e K : Z) (sz : bool) :
  Z.abs m < 2 ^ (K - e) -> e <= K -> -1021 <= K <= 1023 ->
  below (K + 1) (binary_normalize prec emax m e sz).
Proof.
  intros Hm He HK. destruct m as [|p|p]; cbn [binary_normalize].
  - exact I.
  - apply binary_round_below; assumption.
  - apply binary_round_below; assumption.
Qed.

(** *** The operations *)

Lemma SFsub_number (x : spec_float) (sy : bool) (my : positive) (ey : Z) :
  number x -> number (SFsub prec emax x (S754_finite sy my ey)).
Proof.
  destruct x as [sx|sx| |sx mx ex]; cbn [SFsub]; intros Hx;
    try discriminate; try exact Hx.
  apply binary_normalize_number.
Qed.

Lemma SFadd_number (x : spec_float) (sy : bool) (my : positive) (ey : Z) :
  number x -> number (SFadd prec emax x (S754_finite sy my ey)).
Proof.
  destruct x as [sx|sx| |sx mx ex]; cbn [SFadd]; intros Hx;
    try discriminate; try exact Hx.
  apply binary_normalize_number.
Qed.

Lemma SFmul_number (x : spec_float) (sy : bool) (my : positive) (ey : Z) :
  number x -> number (SFmul prec emax x (S754_finite sy my ey)).
Proof.
  destruct x as [sx|sx| |sx mx ex]; cbn [SFmul]; intros Hx;
    try discriminate; try exact Hx.
  apply (signed_number (xorb sx sy)), binary_round_aux_signed. lia.
Qed.

Lemma SFmul_signed (mx my : positive) (ex ey : Z) :
  signed false
    (SFmul prec emax (S754_finite false mx ex) (S754_finite false my ey)).
Proof. cbn [SFmul xorb]. apply binary_round_aux_signed. lia. Qed.

Lemma SFdiv_core_nonneg (m1 m2 : positive) (e1 e2 : Z) :
  0 <= fst (fst (SFdiv_core_binary prec emax (Zpos m1) e1 (Zpos m2) e2)).
Proof.
  unfold SFdiv_core_binary. cbv zeta.
  set (s := e1 - e2 - _).
  set (m' := match s with Z.pos _ => Z.shiftl (Zpos m1) s | 0 => Zpos m1
             | Z.neg _ => 0 end).
  assert (Hm' : 0 <= m').
  { subst m'. destruct s; try lia. apply Z.shiftl_nonneg. lia. }
  pose proof (Z.div_pos m' (Zpos m2) Hm' ltac:(lia)) as Hq.
  unfold Z.div in Hq. destruct (Z.div_eucl m' (Zpos m2)) as [q r].
  exact Hq.
Qed.

Lemma SFdiv_number (x : spec_float) (sy : bool) (my : positive) (ey : Z) :
  number x -> number (SFdiv prec emax x (S754_finite sy my ey)).
Proof.
  destruct x as [sx|sx| |sx mx ex]; cbn [SFdiv]; intros Hx;
    try discriminate; try exact Hx.
  pose proof (SFdiv_core_nonneg mx my ex ey) as Hq.
  destruct (SFdiv_core_binary prec emax (Zpos mx) ex (Zpos my) ey)
    as [[q e'] l]. cbn [fst] in Hq.
  apply (signed_number (xorb sx sy)), binary_round_aux_signed. exact Hq.
Qed.

Lemma aligned_lt (m : positive) (e ez K : Z) :
  Zpos m < 2 ^ (K - e) -> e <= K -> ez <= e ->
  Zpos (fst (shl_align m e ez)) < 2 ^ (K - ez).
Proof.
  intros Hm He Hz. destruct (shl_align_spec m e ez) as (Em & Ee).
  rewrite Em, Ee. replace (Z.min e ez) with ez by lia.
  replace (K - ez) with ((K - e) + (e - ez)) by lia.
  rewrite Z.pow_add_r by lia.
  pose proof (pow2_pos (e - ez) ltac:(lia)). nia.
Qed.

Lemma sum_below (a b ez Kx Ky : Z) (sx sy : bool) :
  0 < a < 2 ^ (Kx - ez) -> 0 < b < 2 ^ (Ky - ez) -> ez <= Kx -> ez <= Ky ->
  Z.abs (cond_Zopp sx a + cond_Zopp sy b) < 2 ^ (Z.max Kx Ky + 1 - ez) /\
  Z.abs (cond_Zopp sx a - cond_Zopp sy b) < 2 ^ (Z.max Kx Ky + 1 - ez).
Proof.
  intros Ha Hb Hx Hy.
  assert (H1 : 2 ^ (Kx - ez) <= 2 ^ (Z.max Kx Ky - ez))
    by (apply Z.pow_le_mono_r; lia).
  assert (H2 : 2 ^ (Ky - ez) <= 2 ^ (Z.max Kx Ky - ez))
    by (apply Z.pow_le_mono_r; lia).
  replace (Z.max Kx Ky + 1 - ez) with (1 + (Z.max Kx Ky - ez)) by lia.
  rewrite Z.pow_add_r by lia. change (2 ^ 1) with 2.
  destruct sx, sy; cbn [cond_Zopp]; lia.
Qed.

(** Sums and differences: two binades above the larger operand at most. *)
Lemma SFadd_SFsub_below (x y : spec_float) (Kx Ky : Z) :
  below Kx x -> below Ky y -> -1021 <= Z.max Kx Ky + 1 <= 1023 ->
  below (Z.max Kx Ky + 2) (SFadd prec emax x y) /\
  below (Z.max Kx Ky + 2) (SFsub prec emax x y).
Proof.
  intros Hx Hy HK.
  destruct x as [sx|sx| |sx mx ex], y as [sy|sy| |sy my ey];
    cbn [below] in Hx, Hy; try contradiction; cbn [SFadd SFsub].
  - split; destruct sx, sy; exact I.
  - split; apply (below_mono Ky); try lia; exact Hy.
  - split; apply (below_mono Kx); try lia; exact Hx.
  - destruct Hx as (Hmx & Hex), Hy as (Hmy & Hey).
    set (ez := Z.min ex ey).
    pose proof (aligned_lt mx ex ez Kx Hmx ltac:(lia) ltac:(lia)) as Ha.
    pose proof (aligned_lt my ey ez Ky Hmy ltac:(lia) ltac:(lia)) as Hb.
    destruct (sum_below (Zpos (fst (shl_align mx ex ez)))
                (Zpos (fst (shl_align my ey ez))) ez Kx Ky sx sy
                ltac:(lia) ltac:(lia) ltac:(lia) ltac:(lia)) as (Hs & Hd).
    replace (Z.max Kx Ky + 2) with (Z.max Kx Ky + 1 + 1) by lia.
    split; apply binary_normalize_below; try assumption; lia.
Qed.

(** A quotient by a normal number of exponent [-53] or more, that is, by
    a number of 1/2 or more: two binades above the dividend at most. *)
Lemma SFdiv_below (x : spec_float) (ms : positive) (es Kx : Z) (ss : bool) :
  below Kx x -> 2 ^ 52 <= Zpos ms -> -53 <= es -> -1022 <= Kx <= 1022 ->
  below (Kx + 2) (SFdiv prec emax x (S754_finite ss ms es)).
Proof.
  intros Hx Hms Hes HK.
  destruct x as [sx|sx| |sx mx ex]; cbn [below] in Hx; try contradiction;
    cbn [SFdiv]; [exact I|].
  destruct Hx as (Hmx & Hex).
  unfold SFdiv_core_binary. cbv zeta.
  set (D := Zdigits2 (Zpos mx) + ex - (Zdigits2 (Zpos ms) + es)).
  set (e' := Z.min (fexp prec emax D) (ex - es)).
  set (s := ex - es - e').
  set (m' := match s with Z.pos _ => Z.shiftl (Zpos mx) s | 0 => Zpos mx
             | Z.neg _ => 0 end).
  assert (Hs : 0 <= s) by (subst s e'; lia).
  assert (Em : m' = Zpos mx * 2 ^ s).
  { subst m'. destruct s as [|p|p] eqn:Es; try lia.
    rewrite Z.shiftl_mul_pow2 by lia. reflexivity. }
  assert (Hq : 0 <= m' / Zpos ms < 2 ^ (Kx + 1 - e')).
  { assert (Hm0 : 0 <= m') by (rewrite Em; pose proof (pow2_pos s Hs); nia).
    split; [apply Z.div_pos; lia|].
    assert (Hle : m' / Zpos ms <= m' / 2 ^ 52)
      by (apply Z.div_le_compat_l; [exact Hm0 | lia]).
    assert (Hlt : m' < 2 ^ (Kx - ex + s)).
    { rewrite Em, Z.pow_add_r by lia. pose proof (pow2_pos s Hs). nia. }
    pose proof (div_pow2_lt m' (Kx - ex + s) 52 ltac:(lia) ltac:(lia) Hlt)
      as Hdiv.
    assert (Hmono : 2 ^ (Kx - ex + s - 52) <= 2 ^ (Kx + 1 - e'))
      by (apply Z.pow_le_mono_r; subst s; lia).
    lia. }
  assert (He' : e' <= Kx + 1 - 52).
  { pose proof (Zdigits2_le (Zpos mx) (Kx - ex) ltac:(lia) ltac:(lia) Hmx).
    pose proof (Zdigits2_gt (Zpos ms) 52 ltac:(lia) Hms).
    subst e'. rewrite fexp64. subst D. lia. }
  unfold Z.div in Hq. destruct (Z.div_eucl m' (Zpos ms)) as [q r].
  cbn [fst] in Hq.
  replace (Kx + 2) with (Kx + 1 + 1) by lia.
  apply binary_round_aux_below; lia.
Qed.

(** Adding a positive number to a positive normal number does not give
    less. *)
Lemma SFadd_ge (m0 mz : positive) (e0 ez : Z) :
  2 ^ 52 <= Zpos m0 -> -1074 <= e0 ->
  SFleb (S754_finite false m0 e0)
    (SFadd prec emax (S754_finite false m0 e0) (S754_finite false mz ez))
  = true.
Proof.
  intros Hm0 He0. cbn [SFadd cond_Zopp].
  set (emin := Z.min e0 ez).
  destruct (shl_align_spec m0 e0 emin) as (Ea & Eae).
  destruct (shl_align_spec mz ez emin) as (Eb & Ebe).
  set (a := fst (shl_align m0 e0 emin)) in *.
  set (b := fst (shl_align mz ez emin)) in *.
  replace (snd (shl_align m0 e0 emin)) with emin in Ea by (subst emin; lia).
  change (Zpos a + Zpos b) with (Zpos (a + b)). cbn [binary_normalize].
  assert (HM : Zpos m0 * 2 ^ (e0 - emin) <= Zpos (a + b)) by lia.
  assert (Hpow : 2 ^ (52 + (e0 - emin)) <= Zpos (a + b)).
  { rewrite Z.pow_add_r by (subst emin; lia).
    pose proof (pow2_pos (e0 - emin) ltac:(subst emin; lia)). nia. }
  pose proof (Zdigits2_gt (Zpos (a + b)) (52 + (e0 - emin))
                ltac:(subst emin; lia) Hpow) as Hd.
  cbn [Zdigits2] in Hd.
  unfold binary_round.
  destruct (shl_align_spec (a + b) emin
              (fexp prec emax (Zpos (digits2_pos (a + b)) + emin)))
    as (Em & Ee).
  destruct (shl_align (a + b) emin _) as [mz' ez']. cbn [fst snd] in Em, Ee.
  rewrite fexp64 in Ee.
  assert (Eez : ez' = emin) by (subst emin; lia). clear Ee. subst ez'.
  replace (emin - emin) with 0 in Em by lia.
  rewrite Z.pow_0_r, Z.mul_1_r in Em.
  injection Em as ->.
  destruct (binary_round_aux_shape false (Zpos (a + b)) emin loc_Exact
              ltac:(lia)) as (r & Hr & _ & ->).
  assert (E1 : shifted_e (Zpos (a + b)) emin
               = Zpos (digits2_pos (a + b)) + emin - 53).
  { rewrite shifted_e_spec, fexp64. cbn [Zdigits2]. subst emin. lia. }
  assert (Hm1 : 2 ^ 52 <= shifted_m (Zpos (a + b)) emin).
  { unfold shifted_m. cbv zeta. rewrite fexp64. cbn [Zdigits2].
    destruct (Z.ltb_spec 0 (Z.max (Zpos (digits2_pos (a + b)) + emin - 53)
                              (-1074) - emin)) as [Hn | Hn].
    - apply div_pow2_le; [lia | lia|].
      destruct (digits_bounds (a + b)) as (Hlo & _).
      replace (52 + (Z.max (Zpos (digits2_pos (a + b)) + emin - 53) (-1074)
                     - emin))
        with (Zpos (digits2_pos (a + b)) - 1) by (subst emin; lia).
      exact Hlo.
    - destruct (digits_bounds (a + b)) as (Hlo & _).
      assert (2 ^ 52 <= 2 ^ (Zpos (digits2_pos (a + b)) - 1))
        by (apply Z.pow_le_mono_r; subst emin; lia).
      lia. }
  set (e1 := shifted_e (Zpos (a + b)) emin) in *.
  set (m1 := shifted_m (Zpos (a + b)) emin) in *.
  assert (Hr52 : 2 ^ 52 <= r) by lia.
  pose proof (Zdigits2_gt r 52 ltac:(lia) Hr52) as Hdr.
  assert (He2 : e1 <= shifted_e r e1) by (rewrite shifted_e_spec; lia).
  assert (Hm2 : 0 < shifted_m r e1 /\
                (shifted_e r e1 = e1 -> shifted_m r e1 = r)).
  { unfold shifted_m, shifted_e. cbv zeta. rewrite fexp64.
    destruct (Z.ltb_spec 0 (Z.max (Zdigits2 r + e1 - 53) (-1074) - e1))
      as [Hn | Hn]; [|split; [lia | reflexivity]].
    split; [|lia].
    pose proof (Zdigits2_le r (Zdigits2 r) ltac:(lia)
                  (Zdigits2_nonneg r)) as _.
    assert (Hk : 2 ^ (Zdigits2 r - 1) <= r).
    { destruct r as [|p|p]; try lia. cbn [Zdigits2].
      exact (proj1 (digits_bounds p)). }
    assert (Hn' : Z.max (Zdigits2 r + e1 - 53) (-1074) - e1 <= Zdigits2 r - 53)
      by lia.
    assert (2 ^ 1 <= r / 2 ^ (Z.max (Zdigits2 r + e1 - 53) (-1074) - e1)).
    { apply div_pow2_le; [lia | lia|].
      assert (2 ^ (1 + (Z.max (Zdigits2 r + e1 - 53) (-1074) - e1))
              <= 2 ^ (Zdigits2 r - 1)) by (apply Z.pow_le_mono_r; lia).
      lia. }
    change (2 ^ 1) with 2 in *. lia. }
  destruct Hm2 as (Hpos & Hsame).
  destruct (shifted_m r e1) as [|p|p] eqn:Ep; try lia.
  destruct (shifted_e r e1 <=? emax - prec); [|reflexivity].
  unfold SFleb, SFcompare.
  destruct (Z.compare_spec e0 (shifted_e r e1)) as [Heq | Hlt | Hgt];
    [|reflexivity|].
  - assert (Ee1 : shifted_e r e1 = e1) by (subst emin; lia).
    specialize (Hsame Ee1).
    assert (Hle : Zpos m0 <= Zpos p).
    { rewrite Hsame.
      assert (Zpos m0 <= m1); [|lia].
      subst m1. unfold shifted_m. cbv zeta. rewrite fexp64. cbn [Zdigits2].
      assert (En : Z.max (Zpos (digits2_pos (a + b)) + emin - 53) (-1074)
                   - emin = e0 - emin) by (subst emin; lia).
      rewrite En.
      destruct (Z.ltb_spec 0 (e0 - emin)) as [Hn | Hn].
      - apply Z.div_le_lower_bound; [apply pow2_pos; lia | lia].
      - replace (e0 - emin) with 0 in HM by (subst emin; lia).
        rewrite Z.pow_0_r, Z.mul_1_r in HM. exact HM. }
    change (Pos.compare_cont Eq m0 p) with (Pos.compare m0 p).
    destruct (Pos.compare_spec m0 p) as [E | L | G]; try reflexivity. lia.
  - exfalso. subst emin. lia.
Qed.

End Float64Rounding.

(** ** Projection over binary64 *)

Section Float64Order.
Local Open Scope float_scope.

Lemma SFcompare_antisym (a b : spec_float) :
    SFcompare b a = option_map CompOpp (SFcompare a b).
Proof.
    destruct a as [sa| sa | |sa ma ea], b as [sb|sb| |sb mb eb]; cbn;
      try reflexivity; try (destruct sa; reflexivity);
      try (destruct sb; reflexivity);
      try (destruct sa, sb; reflexivity).
    destruct sa, sb; try reflexivity;
      rewrite (Z.compare_antisym ea eb);
      destruct (ea ?= eb)%Z; cbn; try reflexivity;
      change (PosDef.Pos.compare_cont Eq) with Pos.compare;
      rewrite (Pos.compare_antisym ma mb); destruct (ma ?= mb)%positive;
      reflexivity.
Qed.

Lemma f64_nan_compare (a b : float) :
    PrimFloat.is_nan a = false -> PrimFloat.is_nan b = false ->
    exists c, SFcompare (Prim2SF a) (Prim2SF b) = Some c.
Proof.
    unfold PrimFloat.is_nan. rewrite !eqb_spec. unfold SFeqb.
    destruct (Prim2SF a) as [sa|sa| |sa ma ea], (Prim2SF b) as [sb|sb| |sb mb eb];
      cbn; intros Ha Hb; try discriminate; eexists; reflexivity.
Qed.

Lemma f64_ltb_leb (a b : float) : (a <? b) = true -> (a <=? b) = true.
Proof.
    rewrite ltb_spec, leb_spec. unfold SFltb, SFleb.
    destruct (SFcompare _ _) as [[]|]; congruence.
Qed.

Lemma f64_tie_leb (a b : float) :
    PrimFloat.is_nan a = false -> PrimFloat.is_nan b = false ->
    (a <? b) = false -> (b <? a) = false ->
    (a <=? b) = true /\ (b <=? a) = true.
Proof.
    intros Ha Hb. destruct (f64_nan_compare a b Ha Hb) as [c Hc].
    rewrite !ltb_spec, !leb_spec. unfold SFltb, SFleb.
    rewrite (SFcompare_antisym (Prim2SF a) (Prim2SF b)), Hc. cbn.
    destruct c; cbn; intros; split; congruence.
Qed.

Lemma f64_leb_refl (a : float) :
    PrimFloat.is_nan a = false -> (a <=? a) = true.
Proof.
    unfold PrimFloat.is_nan. rewrite eqb_spec, leb_spec. unfold SFeqb, SFleb.
    destruct (SFcompare _ _) as [[]|]; cbn; congruence.
Qed.

  (** What [Math.min(hi, v)] can be when neither argument is NaN. *)
Lemma Math_min_cases (hi v : float) :
    PrimFloat.is_nan hi = false -> PrimFloat.is_nan v = false ->
    (FloatProjection.Math_min hi v = hi \/
     FloatProjection.Math_min hi v = v /\ (v <=? hi) = true).
Proof.
    intros Hh Hv. unfold FloatProjection.Math_min. rewrite Hh, Hv. cbn [orb].
    destruct (hi <? v) eqn:E1; [now left|].
    destruct (v <? hi) eqn:E2; [right; split; [reflexivity | now apply f64_ltb_leb]|].
    destruct (PrimFloat.get_sign hi); [now left|].
    right. split; [reflexivity|].
    apply (f64_tie_leb hi v); assumption.
Qed.

Lemma Math_max_cases (lo m : float) :
    PrimFloat.is_nan lo = false -> PrimFloat.is_nan m = false ->
    (FloatProjection.Math_max lo m = lo \/
     FloatProjection.Math_max lo m = m /\ (lo <=? m) = true).
Proof.
    intros Hl Hm. unfold FloatProjection.Math_max. rewrite Hl, Hm. cbn [orb].
    destruct (lo <? m) eqn:E1; [right; split; [reflexivity | now apply f64_ltb_leb]|].
    destruct (m <? lo) eqn:E2; [now left|].
    destruct (PrimFloat.get_sign lo); [|now left].
    right. split; [reflexivity|].
    apply (f64_tie_leb lo m); assumption.
Qed.

  (** [Math.max(0, Math.min(H, v))] is NaN (when [v] is) or lies in [0, H]. *)
Lemma f64_clamp_field (v : float) :
    let y := FloatProjection.Math_max 0 (FloatProjection.Math_min FloatProjection.H v) in
    PrimFloat.is_nan y = true \/
    ((0 <=? y) = true /\ (y <=? FloatProjection.H) = true).
Proof.
    cbv zeta.
    destruct (PrimFloat.is_nan v) eqn:Hv.
    - left. unfold FloatProjection.Math_max, FloatProjection.Math_min.
      rewrite Hv. rewrite orb_true_r. reflexivity.
    - right.
      assert (HH : PrimFloat.is_nan FloatProjection.H = false) by reflexivity.
      assert (H0 : PrimFloat.is_nan 0 = false) by reflexivity.
      destruct (Math_min_cases FloatProjection.H v HH Hv) as [Em | [Em Hle]];
        rewrite Em.
      + destruct (Math_max_cases 0 FloatProjection.H H0 HH) as [E | [E Hl]];
          rewrite E; split; reflexivity.
      + destruct (Math_max_cases 0 v H0 Hv) as [E | [E Hl]]; rewrite E.
        * split; reflexivity.
        * split; assumption.
Qed.

Lemma f64_orElse_nonzero (s : float) :
    (FloatProjection.orElse s 1 =? 0) = false.
Proof.
    unfold FloatProjection.orElse.
    destruct (PrimFloat.is_nan s); cbn [orb]; [reflexivity|].
    destruct (s =? 0) eqn:E; [reflexivity | exact E].
Qed.
End Float64Order.


(** ** Binary64: the projection *)

Section Float64Projection.
Local Open Scope float_scope.

Lemma SFcompare_refl (x : spec_float) :
  number x -> SFcompare x x = Some Eq.
Proof.
  destruct x as [s|s| |s m e]; cbn; intros Hx;
    try (destruct s; reflexivity); [exfalso; apply Hx; reflexivity|].
  rewrite Z.compare_refl.
  change (PosDef.Pos.compare_cont Eq m m) with (Pos.compare m m).
  rewrite Pos.compare_refl. destruct s; reflexivity.
Qed.

Lemma is_nan_spec (f : float) :
  PrimFloat.is_nan f = false <-> number (Prim2SF f).
Proof.
  unfold PrimFloat.is_nan. rewrite eqb_spec. unfold SFeqb. split.
  - intros Hn Hx. rewrite Hx in Hn. discriminate Hn.
  - intros Hx. rewrite (SFcompare_refl _ Hx). reflexivity.
Qed.

Lemma leb_number (a b : float) :
  (a <=? b) = true ->
  PrimFloat.is_nan a = false /\ PrimFloat.is_nan b = false.
Proof.
  rewrite leb_spec, !is_nan_spec. unfold SFleb, number.
  destruct (Prim2SF a), (Prim2SF b); cbn; intros Hc; try discriminate;
    split; discriminate.
Qed.

(** Subtracting, dividing by or multiplying with a finite constant keeps a
    number a number. *)
Lemma sub_const_number (x c : float) (s : bool) (m : positive) (e : Z) :
  Prim2SF c = S754_finite s m e ->
  PrimFloat.is_nan x = false -> PrimFloat.is_nan (x - c) = false.
Proof.
  intros Hc. rewrite !is_nan_spec, sub_spec, Hc. apply SFsub_number.
Qed.

Lemma div_const_number (x c : float) (s : bool) (m : positive) (e : Z) :
  Prim2SF c = S754_finite s m e ->
  PrimFloat.is_nan x = false -> PrimFloat.is_nan (x / c) = false.
Proof.
  intros Hc. rewrite !is_nan_spec, div_spec, Hc. apply SFdiv_number.
Qed.

Lemma mul_const_number (x c : float) (s : bool) (m : positive) (e : Z) :
  Prim2SF c = S754_finite s m e ->
  PrimFloat.is_nan x = false -> PrimFloat.is_nan (x * c) = false.
Proof.
  intros Hc. rewrite !is_nan_spec, mul_spec, Hc. apply SFmul_number.
Qed.

(** [Math.max(lo, Math.min(hi, v))] of a number lies in [lo, hi]. *)
Lemma f64_clamp (lo hi v : float) :
  (lo <=? hi) = true -> PrimFloat.is_nan v = false ->
  (lo <=? FloatProjection.Math_max lo (FloatProjection.Math_min hi v)) = true
  /\ (FloatProjection.Math_max lo (FloatProjection.Math_min hi v) <=? hi)
     = true.
Proof.
  intros Hlh Hv. destruct (leb_number lo hi Hlh) as (Hl & Hh).
  destruct (Math_min_cases hi v Hh Hv) as [Em | [Em Hle]]; rewrite Em.
  - destruct (Math_max_cases lo hi Hl Hh) as [E | [E Hl']]; rewrite E.
    + split; [apply f64_leb_refl; exact Hl | exact Hlh].
    + split; [exact Hlh | apply f64_leb_refl; exact Hh].
  - destruct (Math_max_cases lo v Hl Hv) as [E | [E Hl']]; rewrite E.
    + split; [apply f64_leb_refl; exact Hl | exact Hlh].
    + split; assumption.
Qed.

(** [Math.max(0, Math.min(1, v))] of a number is [+0], or positive and at
    most 1. *)
Lemma f64_unit (v : float) :
  PrimFloat.is_nan v = false ->
  let t := FloatProjection.Math_max 0 (FloatProjection.Math_min 1 v) in
  t = 0 \/ ((0 <? t) = true /\ (t <=? 1) = true).
Proof.
  intros Hv. cbv zeta.
  assert (H1 : PrimFloat.is_nan 1 = false) by reflexivity.
  assert (Hm : PrimFloat.is_nan (FloatProjection.Math_min 1 v) = false
               /\ (FloatProjection.Math_min 1 v <=? 1) = true).
  { destruct (Math_min_cases 1 v H1 Hv) as [Em | [Em Hle]]; rewrite Em.
    - split; reflexivity.
    - split; assumption. }
  destruct Hm as (Hn & Hle).
  set (m := FloatProjection.Math_min 1 v) in *.
  unfold FloatProjection.Math_max. rewrite Hn.
  change (PrimFloat.is_nan 0) with false. cbn [orb].
  destruct (0 <? m) eqn:E1; [right; split; assumption|].
  destruct (m <? 0); [left; reflexivity|].
  change (PrimFloat.get_sign 0) with false. left. reflexivity.
Qed.

Lemma positive_finite (t : float) :
  (0 <? t) = true -> (t <=? 1) = true ->
  exists m e, Prim2SF t = S754_finite false m e.
Proof.
  rewrite ltb_spec, leb_spec.
  change (Prim2SF 0) with (S754_zero false).
  assert (E1 : exists m e, Prim2SF 1 = S754_finite false m e)
    by (eexists; eexists; reflexivity).
  destruct E1 as (m1 & e1 & ->).
  unfold SFltb, SFleb.
  destruct (Prim2SF t) as [s|s| |s m e]; cbn; try discriminate.
  - destruct s; discriminate.
  - destruct s; [discriminate|]. intros _ _. eauto.
Qed.

(** What lies at or above the far scale: a positive number that is finite,
    normal and of exponent [-53] or more, or infinite. *)
Lemma above_sFar (s : float) :
  (FloatProjection.sFar <=? s) = true ->
  Prim2SF s = S754_infinity false \/
  exists m e, Prim2SF s = S754_finite false m e
              /\ (2 ^ 52 <= Zpos m)%Z /\ (-53 <= e)%Z.
Proof.
  intros Hle. pose proof (Prim2SF_valid s) as Hv. revert Hle Hv.
  rewrite leb_spec.
  assert (Es : exists m0, Prim2SF FloatProjection.sFar
                          = S754_finite false m0 (-53))
    by (eexists; reflexivity).
  destruct Es as (m0 & ->). unfold SFleb.
  destruct (Prim2SF s) as [ss|ss| |ss m e]; cbn -[Z.compare];
    try discriminate.
  - destruct ss; [discriminate | intros _ _; left; reflexivity].
  - destruct ss; [discriminate|].
    intros Hc Hb.
    assert (He : (-53 <= e)%Z).
    { revert Hc. destruct (Z.compare_spec (-53) e) as [He | He | He];
        intros Hc; try lia; discriminate Hc. }
    right. exists m, e. split; [reflexivity|]. split; [|exact He].
    unfold bounded, canonical_mantissa in Hb.
    apply andb_true_iff in Hb. destruct Hb as (Hcan & _).
    apply Z.eqb_eq in Hcan. rewrite fexp64 in Hcan.
    assert (Hd : Zpos (digits2_pos m) = 53%Z) by lia.
    pose proof (digits_bounds m) as (Hlo & _). rewrite Hd in Hlo.
    exact Hlo.
Qed.

(** The scale at a depth that is a number is the far scale or more. *)
Lemma f64_scaleAtY_ge (y : float) :
  PrimFloat.is_nan y = false ->
  (FloatProjection.sFar <=? FloatProjection.scaleAtY y) = true.
Proof.
  intros Hy. unfold FloatProjection.scaleAtY. cbv zeta.
  assert (Hq : PrimFloat.is_nan (y / FloatProjection.H) = false).
  { eapply div_const_number; [|exact Hy]. reflexivity. }
  destruct (f64_unit (y / FloatProjection.H) Hq) as [-> | (Hpos & Hle)];
    [reflexivity|].
  set (t := FloatProjection.Math_max 0
              (FloatProjection.Math_min 1 (y / FloatProjection.H))) in *.
  destruct (positive_finite t Hpos Hle) as (mt & et & Et).
  rewrite leb_spec, add_spec, mul_spec, Et.
  assert (Ec : exists mc ec,
             Prim2SF (FloatProjection.sNear - FloatProjection.sFar)
             = S754_finite false mc ec) by (eexists; eexists; reflexivity).
  destruct Ec as (mc & ec & ->).
  assert (Es : Prim2SF FloatProjection.sFar
               = S754_finite false 4953959590107546 (-53)) by reflexivity.
  rewrite Es.
  pose proof (SFmul_signed mc mt ec et) as Hz.
  unfold SF64add, SF64mul.
  destruct (SFmul prec emax (S754_finite false mc ec)
              (S754_finite false mt et)) as [sz|sz| |sz mz ez];
    cbn [signed] in Hz; try contradiction; subst sz.
  - reflexivity.
  - reflexivity.
  - apply SFadd_ge; [apply Z.leb_le; reflexivity | lia].
Qed.

Lemma f64_orElse_scale (s : float) :
  (FloatProjection.sFar <=? s) = true -> FloatProjection.orElse s 1 = s.
Proof.
  intros Hle. unfold FloatProjection.orElse.
  destruct (leb_number _ _ Hle) as (_ & Hn). rewrite Hn. cbn [orb].
  assert (E : (s =? 0) = false).
  { rewrite eqb_spec. change (Prim2SF 0) with (S754_zero false).
    destruct (above_sFar s Hle) as [-> | (m & e & -> & _)]; reflexivity. }
  rewrite E. reflexivity.
Qed.

Lemma valid_finite (x : float) (s : bool) (m : positive) (e : Z) :
  Prim2SF x = S754_finite s m e ->
  (Zpos m < 2 ^ 53 /\ e <= 971)%Z.
Proof.
  intros Ex. pose proof (Prim2SF_valid x) as Hv. rewrite Ex in Hv.
  cbn in Hv. unfold bounded, canonical_mantissa in Hv.
  apply andb_true_iff in Hv. destruct Hv as (Hc & He).
  apply Z.eqb_eq in Hc. apply Z.leb_le in He. rewrite fexp64 in Hc.
  change (emax - prec)%Z with 971%Z in He. split; [|exact He].
  pose proof (digits_bounds m) as (_ & Hhi).
  assert (2 ^ Zpos (digits2_pos m) <= 2 ^ 53)%Z
    by (apply Z.pow_le_mono_r; lia).
  lia.
Qed.

(** A number between [-2^1000] and [2^1000] is below [2^1001]. *)
Lemma within_farOut (x : float) :
  (- FloatProjection.farOut <=? x) = true ->
  (x <=? FloatProjection.farOut) = true ->
  below 1001 (Prim2SF x).
Proof.
  intros Hlo Hhi.
  destruct (Prim2SF x) as [s|s| |s m e] eqn:Ex.
  - exact I.
  - exfalso. revert Hlo Hhi. rewrite !leb_spec, Ex.
    destruct s; vm_compute; intros; discriminate.
  - exfalso. revert Hhi. rewrite leb_spec, Ex. vm_compute. discriminate.
  - destruct (valid_finite x s m e Ex) as (Hm & _).
    assert (He : (e <= 948)%Z).
    { revert Hlo Hhi. rewrite !leb_spec, Ex.
      assert (Ef : Prim2SF FloatProjection.farOut
                   = S754_finite false 4503599627370496 948) by reflexivity.
      assert (En : Prim2SF (- FloatProjection.farOut)
                   = S754_finite true 4503599627370496 948) by reflexivity.
      rewrite Ef, En. unfold SFleb, SFcompare.
      destruct s.
      - destruct (Z.compare_spec 948 e); intros; try lia; discriminate.
      - intros _. destruct (Z.compare_spec e 948); intros; try lia;
          discriminate. }
    cbn [below]. split; [|lia].
    assert (2 ^ 53 <= 2 ^ (1001 - e))%Z by (apply Z.pow_le_mono_r; lia).
    lia.
Qed.

Lemma below_is_finite (x : float) (K : Z) :
  below K (Prim2SF x) -> PrimFloat.is_finite x = true.
Proof.
  unfold PrimFloat.is_finite, PrimFloat.is_nan, PrimFloat.is_infinity.
  rewrite !eqb_spec, abs_spec.
  change (Prim2SF infinity) with (S754_infinity false).
  destruct (Prim2SF x) as [s|s| |s m e] eqn:Ex; cbn [below]; try contradiction.
  - intros _. destruct s; reflexivity.
  - intros _. unfold SFeqb.
    rewrite (SFcompare_refl (S754_finite s m e)) by discriminate.
    reflexivity.
Qed.

(** The recovered x of a pointer position within [-2^1000, 2^1000] is
    finite, the divisor being the far scale or more. *)
Lemma f64_x_finite (px s : float) :
  (- FloatProjection.farOut <=? px) = true ->
  (px <=? FloatProjection.farOut) = true ->
  (FloatProjection.sFar <=? s) = true ->
  PrimFloat.is_finite
    ((px - FloatProjection.W / 2) / s + FloatProjection.W / 2) = true.
Proof.
  intros Hlo Hhi Hs. apply (below_is_finite _ 1007).
  rewrite add_spec, div_spec, sub_spec.
  pose proof (within_farOut px Hlo Hhi) as Hpx.
  assert (Hw : exists mw ew,
             Prim2SF (FloatProjection.W / 2) = S754_finite false mw ew
             /\ below 10 (S754_finite false mw ew)).
  { eexists. eexists. split; [reflexivity|]. cbn [below].
    split; [apply Z.ltb_lt | apply Z.leb_le]; reflexivity. }
  destruct Hw as (mw & ew & -> & Hw).
  destruct (SFadd_SFsub_below (Prim2SF px) (S754_finite false mw ew) 1001 10
              Hpx Hw ltac:(lia)) as (_ & Ha).
  change (Z.max 1001 10 + 2)%Z with 1003%Z in Ha.
  unfold SF64add, SF64div, SF64sub.
  set (a := SFsub prec emax (Prim2SF px) (S754_finite false mw ew)) in *.
  assert (Hq : below 1005 (SFdiv prec emax a (Prim2SF s))).
  { destruct (above_sFar s Hs) as [-> | (ms & es & -> & Hms & Hes)].
    - destruct a as [sa|sa| |sa ma ea]; cbn [below] in Ha; try contradiction;
        exact I.
    - exact (SFdiv_below a ms es 1003 false Ha Hms Hes ltac:(lia)). }
  destruct (SFadd_SFsub_below _ (S754_finite false mw ew) 1005 10 Hq Hw
              ltac:(lia)) as (Hx & _).
  exact Hx.
Qed.

End Float64Projection.

Lemma unproject_x_bound (px py : Q) :
  Qabs (pt_x (unproject px py) - W / 2) <= Qabs (px - W / 2) / PERS.sFar.
Proof.
  unfold unproject; cbn [pt_x]. rewrite orElse_scale.
  set (s := scaleAtY _).
  assert (Hs : PERS.sFar <= s) by (apply scaleAtY_bounds).
  assert (Hpos : 0 < s) by apply scaleAtY_pos.
  assert (E : (px - W / 2) / s + W / 2 - W / 2 == (px - W / 2) / s)
    by ring.
  rewrite E. clearbody s. set (a := px - W / 2). clearbody a.
  unfold Qdiv. rewrite Qabs_Qmult.
  assert (Hi : 0 < / s) by (apply Qinv_lt_0_compat; exact Hpos).
  assert (Ei : Qabs (/ s) == / s) by (apply Qabs_pos; lra).
  rewrite Ei.
  assert (Eis : / s * s == 1) by (field; lra).
  pose proof (Qabs_nonneg a) as HA.
  set (A := Qabs a) in *. clearbody A. set (i := / s) in *. clearbody i.
  unfold PERS.sFar in *.
  assert (E55 : / 0.55 == 20 # 11) by reflexivity.
  rewrite E55.
  assert (H1 : 0 <= i * (s - 0.55)) by (apply Qmult_le_0_compat; lra).
  assert (H2 : i <= 20 # 11) by lra.
  assert (H3 : 0 <= A * ((20 # 11) - i)) by (apply Qmult_le_0_compat; lra).
  lra.
Qed.

(** C10: [unproject] is total and safe on every screen point.  In exact
    arithmetic its world y lies in [0, H], the scale it divides by lies
    between [sFar] = 0.55 and 1, so the [|| 1] guard never fires and the
    divisor is never zero, and the recovered x is no further from the
    middle than the pointer is, over 0.55.  Over binary64, for every pointer
    y that is a number the world y is a number in [0, H], the divisor is the
    scale itself and is the far scale or more, and for every pointer x
    within [-2^1000, 2^1000], far beyond any screen, the recovered x is
    finite. *)
Theorem unproject_total_clamped :
  (forall px py : Q,
      0 <= pt_y (unproject px py) <= H /\
      PERS.sFar <= unproject_divisor py <= PERS.sNear /\
      unproject_divisor py = scaleAtY (pt_y (unproject px py)) /\
      Qabs (pt_x (unproject px py) - W / 2)
      <= Qabs (px - W / 2) / PERS.sFar) /\
  (forall px py : float,
      PrimFloat.is_nan py = false ->
      PrimFloat.leb 0 (snd (FloatProjection.unproject px py)) = true /\
      PrimFloat.leb (snd (FloatProjection.unproject px py))
        FloatProjection.H = true /\
      FloatProjection.unproject_divisor py
      = FloatProjection.scaleAtY (snd (FloatProjection.unproject px py)) /\
      PrimFloat.leb FloatProjection.sFar
        (FloatProjection.unproject_divisor py) = true /\
      (PrimFloat.leb (PrimFloat.opp FloatProjection.farOut) px = true ->
       PrimFloat.leb px FloatProjection.farOut = true ->
       PrimFloat.is_finite (fst (FloatProjection.unproject px py)) = true)).
Proof.
  split.
  - intros px py. split; [apply unproject_y_range|]. split.
    + unfold unproject_divisor. rewrite orElse_scale. apply scaleAtY_bounds.
    + split; [|apply unproject_x_bound].
      unfold unproject_divisor, unproject; cbn [pt_y]. apply orElse_scale.
  - intros px py Hpy.
    unfold FloatProjection.unproject, FloatProjection.unproject_divisor.
    cbv zeta. cbn [fst snd].
    set (v := ((py - FloatProjection.top)
               / (FloatProjection.bottom - FloatProjection.top)
               * FloatProjection.H)%float).
    assert (Hv : PrimFloat.is_nan v = false).
    { subst v.
      eapply mul_const_number; [reflexivity|].
      eapply div_const_number; [reflexivity|].
      eapply sub_const_number; [reflexivity | exact Hpy]. }
    destruct (f64_clamp 0 FloatProjection.H v eq_refl Hv) as (Hlo & Hhi).
    set (y := FloatProjection.Math_max 0
                (FloatProjection.Math_min FloatProjection.H v)) in *.
    destruct (leb_number _ _ Hhi) as (Hy & _).
    pose proof (f64_scaleAtY_ge y Hy) as Hs.
    pose proof (f64_orElse_scale _ Hs) as Eo.
    split; [exact Hlo|]. split; [exact Hhi|]. split; [exact Eo|].
    rewrite Eo. split; [exact Hs|].
    intros Hpl Hph. apply f64_x_finite; assumption.
Qed.

Lemma unproject_total_clamped_witness :
  PrimFloat.is_nan 700 = false /\
  PrimFloat.leb (snd (FloatProjection.unproject 1800 700)) FloatProjection.H
  = true /\
  PrimFloat.is_finite (fst (FloatProjection.unproject 1800 700)) = true.
Proof.
  split; [reflexivity|].
  destruct (proj2 unproject_total_clamped 1800%float 700%float eq_refl)
    as (_ & Hhi & _ & _ & Hfin).
  split; [exact Hhi|]. apply Hfin; reflexivity.
Defined.

(** Beyond that bound the quotient can leave the binary64 range: at the
    pointer x 1.7e308 the far scale sends the recovered x to infinity. *)
Lemma unproject_beyond_farOut :
  PrimFloat.is_finite
    (fst (FloatProjection.unproject 0x1.e42d130773b76p+1023 24)) = false.
Proof. vm_compute. reflexivity. Qed.

(** ** Comparisons *)

Lemma Qltb_true (a b : Q) : Qltb a b = true <-> a < b.
Proof.
  unfold Qltb. rewrite negb_true_iff. split.
  - intros E. apply Qnot_le_lt. intros Hle.
    apply Qle_bool_iff in Hle. congruence.
  - intros Hlt. destruct (Qle_bool b a) eqn:E; [|reflexivity].
    apply Qle_bool_iff in E. lra.
Qed.

Lemma Qltb_false (a b : Q) : Qltb a b = false <-> b <= a.
Proof.
  unfold Qltb. rewrite negb_false_iff. apply Qle_bool_iff.
Qed.

Lemma Qle_bool_false (a b : Q) : Qle_bool a b = false <-> b < a.
Proof.
  split.
  - intros E. apply Qnot_le_lt. intros Hle.
    apply Qle_bool_iff in Hle. congruence.
  - intros Hlt. destruct (Qle_bool a b) eqn:E; [|reflexivity].
    apply Qle_bool_iff in E. lra.
Qed.

(** Case analysis on every comparison of the goal. *)
Ltac qcases :=
  repeat match goal with
    | |- context [Qltb ?a ?b] =>
        let E := fresh "E" in
        destruct (Qltb a b) eqn:E;
        [apply Qltb_true in E | apply Qltb_false in E]
    end.

Ltac ball_fields :=
  cbn [Ball.x Ball.y Ball.vx Ball.vy Ball.r Ball.spin
       Ball.set_x Ball.set_y Ball.set_vx Ball.set_vy Ball.set_spin] in *.

(** ** Walls *)

Lemma walls_horizontal (b : Ball.t) :
  2 * (pad + Ball.r b) <= W ->
  let b' := wallRight (wallLeft b) in
  let lo := pad + Ball.r b in
  let hi := W - pad - Ball.r b in
  (Ball.y b' = Ball.y b /\ Ball.vy b' = Ball.vy b /\ Ball.r b' = Ball.r b) /\
  lo <= Ball.x b' <= hi /\
  (Ball.x b < lo ->
     Ball.x b' == lo /\
     (Ball.vx b < 0 -> Ball.vx b' == - Ball.vx b * RESTITUTION /\ 0 < Ball.vx b') /\
     (0 <= Ball.vx b -> Ball.vx b' == Ball.vx b)) /\
  (hi < Ball.x b ->
     Ball.x b' == hi /\
     (0 < Ball.vx b -> Ball.vx b' == - Ball.vx b * RESTITUTION /\ Ball.vx b' < 0) /\
     (Ball.vx b <= 0 -> Ball.vx b' == Ball.vx b)) /\
  (lo <= Ball.x b <= hi -> Ball.x b' == Ball.x b /\ Ball.vx b' == Ball.vx b).
Proof.
  destruct b as [x y vx vy r spin]. ball_fields.
  intros Hfit. cbv zeta.
  unfold wallRight, wallLeft. unfold pad, W, RESTITUTION in *.
  qcases; ball_fields; repeat split; intros; try reflexivity; try lra.
Qed.

Lemma walls_vertical (b : Ball.t) :
  2 * (pad + Ball.r b) <= H ->
  let b' := wallBottom (wallTop b) in
  let lo := pad + Ball.r b in
  let hi := H - pad - Ball.r b in
  (Ball.x b' = Ball.x b /\ Ball.vx b' = Ball.vx b /\ Ball.r b' = Ball.r b) /\
  lo <= Ball.y b' <= hi /\
  (Ball.y b < lo ->
     Ball.y b' == lo /\
     (Ball.vy b < 0 -> Ball.vy b' == - Ball.vy b * RESTITUTION /\ 0 < Ball.vy b') /\
     (0 <= Ball.vy b -> Ball.vy b' == Ball.vy b)) /\
  (hi < Ball.y b ->
     Ball.y b' == hi /\
     (0 < Ball.vy b -> Ball.vy b' == - Ball.vy b * RESTITUTION /\ Ball.vy b' < 0) /\
     (Ball.vy b <= 0 -> Ball.vy b' == Ball.vy b)) /\
  (lo <= Ball.y b <= hi -> Ball.y b' == Ball.y b /\ Ball.vy b' == Ball.vy b).
Proof.
  destruct b as [x y vx vy r spin]. ball_fields.
  intros Hfit. cbv zeta.
  unfold wallBottom, wallTop. unfold pad, H, RESTITUTION in *.
  qcases; ball_fields; repeat split; intros; try reflexivity; try lra.
Qed.

(** C8: wall resolution.  On penetration of an edge the position is clamped
    to that edge inset by the radius; a velocity component that points into
    the wall is reversed and scaled by [RESTITUTION], one that points away
    (or is zero) is kept; a coordinate inside the field is left alone with
    its velocity; and after the step the ball is inside all four edges. *)
Theorem walls_rebound (b : Ball.t) :
  fitsField b ->
  let b' := walls b in
  let lo := pad + Ball.r b in
  let hiX := W - pad - Ball.r b in
  let hiY := H - pad - Ball.r b in
  (lo <= Ball.x b' <= hiX /\ lo <= Ball.y b' <= hiY) /\
  (Ball.x b < lo ->
     Ball.x b' == lo /\
     (Ball.vx b < 0 -> Ball.vx b' == - Ball.vx b * RESTITUTION /\ 0 < Ball.vx b') /\
     (0 <= Ball.vx b -> Ball.vx b' == Ball.vx b)) /\
  (hiX < Ball.x b ->
     Ball.x b' == hiX /\
     (0 < Ball.vx b -> Ball.vx b' == - Ball.vx b * RESTITUTION /\ Ball.vx b' < 0) /\
     (Ball.vx b <= 0 -> Ball.vx b' == Ball.vx b)) /\
  (Ball.y b < lo ->
     Ball.y b' == lo /\
     (Ball.vy b < 0 -> Ball.vy b' == - Ball.vy b * RESTITUTION /\ 0 < Ball.vy b') /\
     (0 <= Ball.vy b -> Ball.vy b' == Ball.vy b)) /\
  (hiY < Ball.y b ->
     Ball.y b' == hiY /\
     (0 < Ball.vy b -> Ball.vy b' == - Ball.vy b * RESTITUTION /\ Ball.vy b' < 0) /\
     (Ball.vy b <= 0 -> Ball.vy b' == Ball.vy b)) /\
  (lo <= Ball.x b <= hiX -> Ball.x b' == Ball.x b /\ Ball.vx b' == Ball.vx b) /\
  (lo <= Ball.y b <= hiY -> Ball.y b' == Ball.y b /\ Ball.vy b' == Ball.vy b).
Proof.
  unfold fitsField. intros Hfit. cbv zeta. unfold walls.
  assert (HfitW : 2 * (pad + Ball.r b) <= W) by (unfold W, H in *; lra).
  pose proof (walls_horizontal b HfitW) as Hx. cbv zeta in Hx.
  set (b1 := wallRight (wallLeft b)) in *.
  destruct Hx as ((Ey & Evy & Er) & Hxr & Hxl & Hxh & Hxin).
  assert (Hfit1 : 2 * (pad + Ball.r b1) <= H) by (rewrite Er; exact Hfit).
  pose proof (walls_vertical b1 Hfit1) as Hy. cbv zeta in Hy.
  set (b2 := wallBottom (wallTop b1)) in *.
  destruct Hy as ((Ex & Evx & Er2) & Hyr & Hyl & Hyh & Hyin).
  rewrite Er, Ey, Evy in *. rewrite Ex, Evx.
  repeat split; try tauto; intros; try apply Hxl; try apply Hxh;
    try apply Hxin; try apply Hyl; try apply Hyh; try apply Hyin; tauto.
Qed.

Lemma walls_rebound_witness :
  Ball.x (walls (Ball.mk 30 300 (-100) 0 BALL_R 0)) == pad + BALL_R /\
  Ball.vx (walls (Ball.mk 30 300 (-100) 0 BALL_R 0)) == 58.
Proof.
  assert (Hfit : fitsField (Ball.mk 30 300 (-100) 0 BALL_R 0)).
  { unfold fitsField, pad, H, BALL_R. cbn [Ball.r]. lra. }
  pose proof (walls_rebound (Ball.mk 30 300 (-100) 0 BALL_R 0) Hfit) as P.
  cbv zeta in P. destruct P as (_ & Hleft & _).
  cbn [Ball.x Ball.vx Ball.r] in Hleft.
  assert (Hpen : 30 < pad + BALL_R) by (unfold pad, BALL_R; lra).
  destruct (Hleft Hpen) as (Hx & Hrev & _).
  split; [exact Hx|].
  destruct (Hrev ltac:(lra)) as [Hv _]. rewrite Hv. unfold RESTITUTION. lra.
Defined.

(** ** Frame lemmas: what the phases of [update] leave alone *)

Section Frames.
Context {M : MathLib}.

Lemma sameProgress_refl (s : State.t) : sameProgress s s.
Proof. unfold sameProgress. repeat split. Qed.

Lemma sameProgress_trans (s1 s2 s3 : State.t) :
  sameProgress s1 s2 -> sameProgress s2 s3 -> sameProgress s1 s3.
Proof.
  unfold sameProgress.
  intros (a1 & a2 & a3 & a4 & a5 & a6) (b1 & b2 & b3 & b4 & b5 & b6).
  repeat split; congruence.
Qed.

Ltac frame := unfold sameProgress; fields; repeat split; reflexivity.

Lemma trapFrom_progress (ms : list Player.t) :
  forall i s, sameProgress s (trapFrom i ms s).
Proof.
  induction ms as [|m ms IH]; intros i s; cbn [trapFrom].
  - apply sameProgress_refl.
  - destruct (canTrap s m); [unfold trapBy; frame | apply IH].
Qed.

Lemma moveMates_progress (dt : Q) (s : State.t) :
  sameProgress s (moveMates dt s).
Proof. unfold moveMates. frame. Qed.

Lemma carryMate_progress (dt : Q) (s s' : State.t) :
  carryMate dt s = Some s' -> sameProgress s s'.
Proof.
  unfold carryMate.
  destruct (_ =? _)%Z.
  - destruct (nthZ _ _); [|discriminate]. intros [= <-]. frame.
  - destruct (0 <=? _)%Z.
    + destruct (nthZ _ _); [|discriminate]. intros [= <-]. frame.
    + intros [= <-]. apply sameProgress_refl.
Qed.

Lemma gkSave_progress (gk : Keeper.t) (top : bool) (s : State.t) :
  sameProgress s (gkSave gk top s).
Proof.
  unfold gkSave.
  destruct top;
    repeat match goal with
      | |- context [if ?c then _ else _] => destruct c
      end; frame.
Qed.

Lemma keepers_progress (dt : Q) (s : State.t) :
  sameProgress s (keepers dt s).
Proof.
  unfold keepers. cbv zeta.
  set (s1 := State.set_gkFR _ s).
  set (s2 := State.set_gkPT _ s1).
  apply (sameProgress_trans s s2); [subst s2 s1; frame|].
  apply (sameProgress_trans s2 (gkSave (State.gkFR s2) true s2));
    apply gkSave_progress.
Qed.

Lemma capture_progress (i : nat) (p : Player.t) (s : State.t) :
  sameProgress s (capture i p s).
Proof. unfold capture. destruct (canCapture i p s); frame. Qed.

Lemma carry_progress (i : nat) (p : Player.t) (s : State.t) :
  sameProgress s (carry i p s).
Proof.
  unfold carry. destruct (isCarrier s i); [|frame].
  destruct (_ && _); frame.
Qed.

Lemma defendLoop_progress (dt : Q) (eng : set nat) (ps : list Player.t) :
  forall i s, sameProgress s (snd (defendLoop dt eng i ps s)).
Proof.
  induction ps as [|p ps IH]; intros i s; cbn [defendLoop].
  - apply sameProgress_refl.
  - unfold defenderStep.
    specialize (IH (S i) (carry i (moveDefender dt (has eng i) s p)
                            (capture i (moveDefender dt (has eng i) s p) s))).
    destruct (defendLoop dt eng (S i) ps _) as [ps' s''] eqn:E. cbn [snd] in *.
    set (p1 := moveDefender dt (has eng i) s p) in *.
    apply (sameProgress_trans s (capture i p1 s)); [apply capture_progress|].
    apply (sameProgress_trans _ (carry i p1 (capture i p1 s)));
      [apply carry_progress | exact IH].
Qed.

Lemma defend_progress (dt : Q) (s : State.t) : sameProgress s (defend dt s).
Proof.
  unfold defend.
  pose proof (defendLoop_progress dt (engagedSet s) (State.defenders s) 0 s) as P.
  destruct (defendLoop _ _ _ _ _) as [ps s']. cbn [snd] in P.
  apply (sameProgress_trans s s'); [exact P|]. frame.
Qed.

Lemma beforeGoals_progress (dt : Q) (s : State.t) :
  sameProgress s (beforeGoals dt s).
Proof. unfold beforeGoals, tickTimers. frame. Qed.

(** Past the goal tests nothing of a tick touches the score board or the
    tier. *)
Lemma update_progress (dt : Q) (s s' : State.t) :
  update dt s = Some s' -> sameProgress (goals (beforeGoals dt s)) s'.
Proof.
  unfold update. cbv zeta. fold (beforeGoals dt s).
  set (g := goals (beforeGoals dt s)).
  destruct (carryMate dt (moveMates dt (trap g))) as [c|] eqn:E; [|discriminate].
  intros [= <-].
  apply (sameProgress_trans g (trap g));
    [exact (trapFrom_progress (State.mates g) 0 g)|].
  apply (sameProgress_trans _ (moveMates dt (trap g)));
    [exact (moveMates_progress dt (trap g))|].
  apply (sameProgress_trans _ c); [exact (carryMate_progress _ _ _ E)|].
  apply (sameProgress_trans _ (keepers dt c)); [exact (keepers_progress dt c)|].
  exact (defend_progress dt (keepers dt c)).
Qed.

End Frames.

(** ** Goal detection and level progression *)

Lemma resetBall_fields (s : State.t) :
  Ball.x (State.ball (resetBall s)) = W / 2 /\
  Ball.y (State.ball (resetBall s)) = H / 2 /\
  Ball.vx (State.ball (resetBall s)) = 0 /\
  Ball.vy (State.ball (resetBall s)) = 0 /\
  Ball.spin (State.ball (resetBall s)) = 0 /\
  AI.carrier (State.ai (resetBall s)) = None /\
  AI.ptCarrier (State.ai (resetBall s)) = (-1)%Z /\
  State.receiverIndex (resetBall s) = (-1)%Z /\
  State.protect (resetBall s) = 0 /\
  Keeper.reactT (State.gkFR (resetBall s)) = 0 /\
  Keeper.reactT (State.gkPT (resetBall s)) = 0.
Proof. unfold resetBall. fields. repeat split. Qed.

Lemma resetBall_keeps (s : State.t) :
  State.trapOwner (resetBall s) = State.trapOwner s /\
  State.trapLock (resetBall s) = State.trapLock s /\
  State.tackleCd (resetBall s) = State.tackleCd s /\
  sameProgress s (resetBall s).
Proof. unfold resetBall, sameProgress. fields. repeat split. Qed.

Lemma applyLevel_keeps (i : Z) (s : State.t) :
  State.trapOwner (applyLevel i s) = State.trapOwner s /\
  State.trapLock (applyLevel i s) = State.trapLock s /\
  State.tackleCd (applyLevel i s) = State.tackleCd s /\
  State.score (applyLevel i s) = State.score s /\
  State.against (applyLevel i s) = State.against s.
Proof. unfold applyLevel. fields. repeat split. Qed.

Lemma awayGoal_keeps (s : State.t) :
  State.trapOwner (awayGoal s) = State.trapOwner s /\
  State.trapLock (awayGoal s) = State.trapLock s /\
  State.tackleCd (awayGoal s) = State.tackleCd s /\
  State.score (awayGoal s) = (State.score s + 1)%Z /\
  State.against (awayGoal s) = State.against s.
Proof.
  unfold awayGoal. cbv zeta. fields.
  destruct (_ <=? _)%Z; unfold advanceLevel, applyLevel, resetBall; fields;
    repeat split.
Qed.

Lemma homeGoal_keeps (s : State.t) :
  State.trapOwner (homeGoal s) = State.trapOwner s /\
  State.trapLock (homeGoal s) = State.trapLock s /\
  State.tackleCd (homeGoal s) = State.tackleCd s /\
  State.score (homeGoal s) = State.score s.
Proof. unfold homeGoal, resetBall. fields. repeat split. Qed.

Lemma goals_away_unfold (s : State.t) :
  crossesAway (State.ball s) = true ->
  goals s = if crossesHome (State.ball (awayGoal s))
            then homeGoal (awayGoal s) else awayGoal s.
Proof. intros Hc. unfold goals. rewrite Hc. reflexivity. Qed.

Lemma awayGoal_shape (s : State.t) :
  exists u, awayGoal s = resetBall u /\
    State.trapOwner u = State.trapOwner s /\
    State.trapLock u = State.trapLock s /\
    State.tackleCd u = State.tackleCd s /\
    State.score u = (State.score s + 1)%Z.
Proof.
  pose (v := State.set_levelProgress (State.levelProgress s + 1)
               (State.set_score (State.score s + 1) s)).
  exists (if (State.goalsToAdvance v <=? State.levelProgress v)%Z
          then advanceLevel (State.set_levelProgress 0 v) else v).
  split; [reflexivity|].
  destruct (State.goalsToAdvance v <=? State.levelProgress v)%Z.
  - destruct (applyLevel_keeps
                (State.levelIdx (State.set_levelProgress 0 v) + 1)
                (State.set_levelProgress 0 v)) as (b1 & b2 & b3 & b4 & _).
    unfold advanceLevel. rewrite b1, b2, b3, b4.
    subst v. repeat split.
  - subst v. repeat split.
Qed.

Lemma homeGoal_shape (a : State.t) :
  exists u, homeGoal a = resetBall u /\
    State.trapOwner u = State.trapOwner a /\
    State.trapLock u = State.trapLock a /\
    State.tackleCd u = State.tackleCd a /\
    State.score u = State.score a.
Proof.
  exists (State.set_against (State.against a + 1) a).
  split; [reflexivity|]. repeat split.
Qed.

(** Under the away test, [goals] ends with a [resetBall]. *)
Lemma goals_away_shape (s : State.t) :
  crossesAway (State.ball s) = true ->
  exists u, goals s = resetBall u /\
    State.trapOwner u = State.trapOwner s /\
    State.trapLock u = State.trapLock s /\
    State.tackleCd u = State.tackleCd s /\
    State.score u = (State.score s + 1)%Z.
Proof.
  intros Hc. rewrite (goals_away_unfold s Hc).
  destruct (crossesHome (State.ball (awayGoal s))).
  - destruct (awayGoal_keeps s) as (a1 & a2 & a3 & a4 & _).
    destruct (homeGoal_shape (awayGoal s)) as (u & Eu & h1 & h2 & h3 & h4).
    exists u. rewrite Eu, h1, h2, h3, h4. auto.
  - apply awayGoal_shape.
Qed.

Section GoalDetection.
Context {M : MathLib}.

(** C2 (as amended): when the ball's leading edge is over the far goal line
    inside the goal mouth at the goal test of a tick, the attacking score of
    the tick's result is the old one plus 1, and the goal test leaves the
    ball at field center with zero velocity and spin, no defender carrier,
    attacker carrier index and receiver index at -1, the protect timer and
    both keepers' reaction timers at 0.  The trap owner, the trap lock and
    the tackle cooldown are not reset: the goal test leaves them as they
    are. *)
Theorem away_goal_resets (s : State.t) :
  crossesAway (State.ball s) = true ->
  let s' := goals s in
  State.score s' = (State.score s + 1)%Z /\
  (Ball.x (State.ball s') == W / 2 /\ Ball.y (State.ball s') == H / 2 /\
   Ball.vx (State.ball s') == 0 /\ Ball.vy (State.ball s') == 0 /\
   Ball.spin (State.ball s') == 0) /\
  (AI.carrier (State.ai s') = None /\
   AI.ptCarrier (State.ai s') = (-1)%Z /\
   State.receiverIndex s' = (-1)%Z /\
   State.protect s' == 0 /\
   Keeper.reactT (State.gkFR s') == 0 /\
   Keeper.reactT (State.gkPT s') == 0) /\
  (State.trapOwner s' = State.trapOwner s /\
   State.trapLock s' = State.trapLock s /\
   State.tackleCd s' = State.tackleCd s) /\
  (forall dt s0 s1,
      s = beforeGoals dt s0 -> update dt s0 = Some s1 ->
      State.score s1 = (State.score s0 + 1)%Z).
Proof.
  intros Hc. cbv zeta.
  destruct (goals_away_shape s Hc) as (u & Eu & Ho & Hl & Ht & Hs).
  assert (Hscore : State.score (goals s) = (State.score s + 1)%Z).
  { rewrite Eu. destruct (resetBall_keeps u) as (_ & _ & _ & P & _).
    rewrite P. exact Hs. }
  rewrite Eu.
  destruct (resetBall_fields u)
    as (f1 & f2 & f3 & f4 & f5 & f6 & f7 & f8 & f9 & f10 & f11).
  destruct (resetBall_keeps u) as (k1 & k2 & k3 & k4 & _).
  split; [rewrite k4; exact Hs|].
  split; [rewrite f1, f2, f3, f4, f5; repeat split; reflexivity|].
  split; [rewrite f6, f7, f8, f9, f10, f11; repeat split; reflexivity|].
  split; [rewrite k1, k2, k3; repeat split; assumption|].
  intros dt s0 s1 E Hu. rewrite <- Eu in *.
  destruct (update_progress dt s0 s1 Hu) as (Hs1 & _).
  rewrite Hs1. rewrite <- E. rewrite Hscore. rewrite E.
  destruct (beforeGoals_progress dt s0) as (Hb & _). rewrite Hb. reflexivity.
Qed.

End GoalDetection.

(** ** Level progression *)

Lemma LAST_LEVEL_value : LAST_LEVEL = 6%Z.
Proof. reflexivity. Qed.

Lemma awayGoal_level (s : State.t) :
  (State.levelIdx s <= LAST_LEVEL)%Z ->
  (State.levelIdx s <= State.levelIdx (awayGoal s) <= LAST_LEVEL)%Z /\
  ((State.goalsToAdvance s <= State.levelProgress s + 1)%Z ->
     State.levelIdx (awayGoal s)
       = Z.max 0 (Z.min LAST_LEVEL (State.levelIdx s + 1)) /\
     State.levelProgress (awayGoal s) = 0%Z /\
     State.cfg (awayGoal s) = nthZ LEVELS (State.levelIdx (awayGoal s))) /\
  ((State.levelProgress s + 1 < State.goalsToAdvance s)%Z ->
     State.levelIdx (awayGoal s) = State.levelIdx s /\
     State.levelProgress (awayGoal s) = (State.levelProgress s + 1)%Z /\
     State.cfg (awayGoal s) = State.cfg s) /\
  State.goalsToAdvance (awayGoal s) = State.goalsToAdvance s.
Proof.
  intros Hle. rewrite LAST_LEVEL_value in *.
  unfold awayGoal. cbv zeta. fields.
  destruct (State.goalsToAdvance s <=? State.levelProgress s + 1)%Z eqn:E;
    [apply Z.leb_le in E | apply Z.leb_gt in E];
    unfold advanceLevel, applyLevel, resetBall; fields;
    rewrite ?LAST_LEVEL_value; repeat split; try reflexivity; try lia.
Qed.

Lemma goals_level (s : State.t) :
  (State.levelIdx s <= LAST_LEVEL)%Z ->
  (State.levelIdx s <= State.levelIdx (goals s) <= LAST_LEVEL)%Z.
Proof.
  intros Hle. unfold goals. cbv zeta.
  assert (Hhome : forall u, State.levelIdx (homeGoal u) = State.levelIdx u).
  { intros u. unfold homeGoal, resetBall. fields. reflexivity. }
  destruct (crossesAway _).
  - destruct (awayGoal_level s Hle) as (Hm & _).
    destruct (crossesHome _); [rewrite Hhome|]; exact Hm.
  - destruct (crossesHome _); [rewrite Hhome|]; lia.
Qed.

Lemma awayGoals_closed (s : State.t) :
  (0 <= State.levelIdx s <= LAST_LEVEL)%Z ->
  State.goalsToAdvance s = 2%Z ->
  State.levelProgress s = 0%Z ->
  forall n : nat,
    State.levelIdx (awayGoals n s)
      = Z.min (State.levelIdx s + Z.of_nat n / 2) LAST_LEVEL /\
    State.levelProgress (awayGoals n s) = (Z.of_nat n mod 2)%Z /\
    State.goalsToAdvance (awayGoals n s) = 2%Z.
Proof.
  intros Hl Hg Hp n. rewrite LAST_LEVEL_value in *.
  induction n as [|n (IHl & IHp & IHg)].
  - change (awayGoals 0 s) with s. rewrite Hp, Hg.
    change (Z.of_nat 0) with 0%Z. change (0 / 2)%Z with 0%Z.
    change (0 mod 2)%Z with 0%Z. repeat split; lia.
  - change (awayGoals (S n) s) with (awayGoal (awayGoals n s)).
    set (u := awayGoals n s) in *.
    assert (Hu : (State.levelIdx u <= LAST_LEVEL)%Z)
      by (rewrite LAST_LEVEL_value; lia).
    destruct (awayGoal_level u Hu) as (_ & Hadv & Hstay & Hgta).
    rewrite LAST_LEVEL_value in *.
    rewrite Hgta, IHg. rewrite IHg, IHp in Hadv, Hstay.
    rewrite Nat2Z.inj_succ. unfold Z.succ.
    pose proof (Z.mod_pos_bound (Z.of_nat n) 2 ltac:(lia)) as Hm.
    pose proof (Z.div_mod (Z.of_nat n) 2 ltac:(lia)) as Hd.
    pose proof (Z.div_mod (Z.of_nat n + 1) 2 ltac:(lia)) as Hd'.
    pose proof (Z.mod_pos_bound (Z.of_nat n + 1) 2 ltac:(lia)) as Hm'.
    destruct (Z.eq_dec (Z.of_nat n mod 2) 1) as [E1 | E0].
    + destruct (Hadv ltac:(lia)) as (A1 & A2 & _). rewrite A1, A2, IHl.
      repeat split; lia.
    + destruct (Hstay ltac:(lia)) as (A1 & A2 & _). rewrite A1, A2, IHl.
      repeat split; lia.
Qed.

Section LevelProgression.
Context {M : MathLib}.

Lemma update_level (dt : Q) (s s' : State.t) :
  (State.levelIdx s <= LAST_LEVEL)%Z ->
  update dt s = Some s' ->
  (State.levelIdx s <= State.levelIdx s' <= LAST_LEVEL)%Z.
Proof.
  intros Hle Hu.
  destruct (update_progress dt s s' Hu) as (_ & _ & Hl & _).
  destruct (beforeGoals_progress dt s) as (_ & _ & Hb & _).
  rewrite Hl. rewrite <- Hb in Hle |- * at 1.
  pose proof (goals_level (beforeGoals dt s) Hle). lia.
Qed.

Lemma run_level (dts : list Q) :
  forall s s', (State.levelIdx s <= LAST_LEVEL)%Z ->
    run dts s = Some s' ->
    (State.levelIdx s <= State.levelIdx s' <= LAST_LEVEL)%Z.
Proof.
  induction dts as [|dt dts IH]; intros s s' Hle; cbn [run].
  - intros [= <-]. lia.
  - destruct (update dt s) as [u|] eqn:E; [|discriminate].
    intros Hr. pose proof (update_level dt s u Hle E) as Hu.
    pose proof (IH u s' ltac:(lia) Hr). lia.
Qed.

(** C5 (as amended): from a state whose tier index is between 0 and the
    last tier, an away goal never lowers the index and never takes it past
    the last tier; when the goal brings the intra-tier counter to the
    threshold the counter is reset to zero and the index becomes the
    smaller of index + 1 and the last index -- it advances by exactly one,
    except on the last tier, where it stays; otherwise the index is kept and
    the counter grows by one.  Over any run of ticks the index is
    non-decreasing and bounded by the last tier, and after [n] goals with
    threshold 2 it is min(index + n / 2, last). *)
Theorem tier_progression (s : State.t) :
  (0 <= State.levelIdx s <= LAST_LEVEL)%Z ->
  (State.levelIdx s <= State.levelIdx (awayGoal s) <= LAST_LEVEL)%Z /\
  ((State.goalsToAdvance s <= State.levelProgress s + 1)%Z ->
     State.levelIdx (awayGoal s) = Z.min (State.levelIdx s + 1) LAST_LEVEL /\
     State.levelProgress (awayGoal s) = 0%Z) /\
  ((State.levelProgress s + 1 < State.goalsToAdvance s)%Z ->
     State.levelIdx (awayGoal s) = State.levelIdx s /\
     State.levelProgress (awayGoal s) = (State.levelProgress s + 1)%Z) /\
  (forall dts s', run dts s = Some s' ->
     (State.levelIdx s <= State.levelIdx s' <= LAST_LEVEL)%Z) /\
  (State.goalsToAdvance s = 2%Z -> State.levelProgress s = 0%Z ->
   forall n : nat,
     State.levelIdx (awayGoals n s)
       = Z.min (State.levelIdx s + Z.of_nat n / 2) LAST_LEVEL /\
     State.levelProgress (awayGoals n s) = (Z.of_nat n mod 2)%Z).
Proof.
  intros Hl.
  destruct (awayGoal_level s (proj2 Hl)) as (Hm & Hadv & Hstay & _).
  split; [exact Hm|]. split; [|split; [|split]].
  - intros Hr. destruct (Hadv Hr) as (A1 & A2 & _). split; [|exact A2].
    rewrite A1. lia.
  - intros Hr. destruct (Hstay Hr) as (A1 & A2 & _). auto.
  - intros dts s' Hr. exact (run_level dts s s' (proj2 Hl) Hr).
  - intros Hg Hp n. destruct (awayGoals_closed s Hl Hg Hp n) as (A1 & A2 & _).
    auto.
Qed.

End LevelProgression.

Lemma tier_progression_witness :
  State.levelIdx (awayGoals 5 kickoff) = 2%Z /\
  State.levelProgress (awayGoals 5 kickoff) = 1%Z.
Proof.
  assert (Hl : (0 <= State.levelIdx kickoff <= LAST_LEVEL)%Z)
    by (vm_compute; split; discriminate).
  destruct (tier_progression (M := refMath) kickoff Hl) as (_ & _ & _ & _ & Hn).
  exact (Hn eq_refl eq_refl 5%nat).
Defined.

(** C5 fails as stated: on the last tier a goal that brings the counter to
    the threshold does not advance the tier index by one. *)
Lemma last_tier_does_not_advance :
  State.levelIdx lastTierState = LAST_LEVEL /\
  (State.goalsToAdvance lastTierState
     <= State.levelProgress lastTierState + 1)%Z /\
  State.levelIdx (awayGoal lastTierState) <> (State.levelIdx lastTierState + 1)%Z /\
  State.levelIdx (awayGoal lastTierState) = State.levelIdx lastTierState.
Proof. vm_compute. repeat split; discriminate. Qed.

(** ** Goal detection on a concrete state *)

Lemma away_goal_resets_witness :
  crossesAway (State.ball goalState) = true /\
  State.score (goals goalState) = (State.score goalState + 1)%Z.
Proof.
  assert (Hc : crossesAway (State.ball goalState) = true)
    by (vm_compute; reflexivity).
  split; [exact Hc|].
  exact (proj1 (away_goal_resets (M := refMath) goalState Hc)).
Defined.

(** C2 fails as stated: the goal test resets neither the trap lock, nor the
    trap owner, nor the tackle cooldown to its initial value (0, -1, 0). *)
Lemma away_goal_keeps_trap_state :
  crossesAway (State.ball goalState) = true /\
  ~ State.trapLock (goals goalState) == 0 /\
  State.trapOwner (goals goalState) <> (-1)%Z /\
  ~ State.tackleCd (goals goalState) == 0.
Proof.
  vm_compute. repeat split; try discriminate; intros E; discriminate E.
Qed.

(** ** Trapping, shooting and passing *)

Section Possession.
Context {M : MathLib}.

Lemma canTrap_true (s : State.t) (m : Player.t) :
  canTrap s m = true <-> State.trapLock s <= 0 /\ overlaps s m.
Proof.
  unfold canTrap, overlaps. rewrite andb_true_iff, Qle_bool_iff, Qltb_true.
  reflexivity.
Qed.

Lemma trapFrom_first (s : State.t) (ms : list Player.t) :
  forall k i m,
    nth_error ms i = Some m ->
    canTrap s m = true ->
    (forall j m', (j < i)%nat -> nth_error ms j = Some m' -> canTrap s m' = false) ->
    trapFrom k ms s = trapBy (k + i) m s.
Proof.
  induction ms as [|a ms IH]; intros k i m Hn Hc Hbefore.
  - destruct i; discriminate.
  - destruct i as [|i]; cbn [nth_error] in Hn.
    + injection Hn as ->. cbn [trapFrom]. rewrite Hc, Nat.add_0_r. reflexivity.
    + cbn [trapFrom].
      rewrite (Hbefore 0%nat a (Nat.lt_0_succ i) eq_refl).
      rewrite (IH (S k) i m Hn Hc).
      * f_equal. lia.
      * intros j m' Hj Hm'. apply (Hbefore (S j) m'); [lia | exact Hm'].
Qed.

Lemma trapBy_fields (i : nat) (m : Player.t) (s : State.t) :
  (Ball.x (State.ball (trapBy i m s)) = Player.x m /\
   Ball.y (State.ball (trapBy i m s)) = Player.y m - 12 /\
   Ball.vx (State.ball (trapBy i m s)) = 0 /\
   Ball.vy (State.ball (trapBy i m s)) = 0 /\
   Ball.spin (State.ball (trapBy i m s)) = 0) /\
  (State.protect (trapBy i m s) = 500 /\
   State.trapLock (trapBy i m s) = 300) /\
  (State.receiverIndex (trapBy i m s) = Z.of_nat i /\
   State.trapOwner (trapBy i m s) = Z.of_nat i /\
   AI.ptCarrier (State.ai (trapBy i m s)) = Z.of_nat i) /\
  AI.carrier (State.ai (trapBy i m s)) = AI.carrier (State.ai s).
Proof. unfold trapBy. fields. repeat split. Qed.

(** C7 (as amended): if no trap lock is active and mate [i] is the first of
    the roster to overlap the ball, the trap step makes him the receiver:
    the ball is put at his x and 12 units above his y with zero velocity and
    spin, protect is set to 500 and the trap lock to 300, and receiver
    index, trap owner and attacking carrier index all become [i].  The
    defender carrier is not cleared: it is left as it was. *)
Theorem trap_first_overlap (s : State.t) (i : nat) (m : Player.t) :
  State.trapLock s <= 0 ->
  firstOverlap s i m ->
  let s' := trap s in
  (Ball.x (State.ball s') == Player.x m /\
   Ball.y (State.ball s') == Player.y m - 12 /\
   Ball.vx (State.ball s') == 0 /\
   Ball.vy (State.ball s') == 0 /\
   Ball.spin (State.ball s') == 0) /\
  (State.protect s' == 500 /\ State.trapLock s' == 300) /\
  (State.receiverIndex s' = Z.of_nat i /\
   State.trapOwner s' = Z.of_nat i /\
   AI.ptCarrier (State.ai s') = Z.of_nat i) /\
  AI.carrier (State.ai s') = AI.carrier (State.ai s).
Proof.
  intros Hlock (Hn & Hov & Hbefore). cbv zeta.
  assert (E : trap s = trapBy i m s).
  { unfold trap. rewrite (trapFrom_first s (State.mates s) 0 i m Hn).
    - reflexivity.
    - apply canTrap_true. split; assumption.
    - intros j m' Hj Hm'. destruct (canTrap s m') eqn:Ec; [|reflexivity].
      apply canTrap_true in Ec. destruct (Hbefore j m' Hj Hm'). apply Ec. }
  rewrite E.
  destruct (trapBy_fields i m s)
    as ((b1 & b2 & b3 & b4 & b5) & (t1 & t2) & (r1 & r2 & r3) & c).
  rewrite b1, b2, b3, b4, b5, t1, t2, r1, r2, r3, c.
  repeat split; reflexivity.
Qed.

Lemma shoot_fields (now : Q) (s : State.t) :
  State.receiverIndex (shoot now s) = (-1)%Z /\
  State.trapOwner (shoot now s) = (-1)%Z /\
  AI.ptCarrier (State.ai (shoot now s)) = (-1)%Z /\
  State.protect (shoot now s) = 120 /\
  State.trapLock (shoot now s) = 250 /\
  AI.carrier (State.ai (shoot now s)) = AI.carrier (State.ai s).
Proof. unfold shoot. fields. repeat split. Qed.

Lemma passToIndex_fields (idx : Z) (m : Player.t) (s : State.t) :
  nthZ (State.mates s) idx = Some m ->
  State.receiverIndex (passToIndex idx s) = idx /\
  State.trapOwner (passToIndex idx s) = (-1)%Z /\
  AI.ptCarrier (State.ai (passToIndex idx s)) = (-1)%Z /\
  State.protect (passToIndex idx s)
    = optField (State.cfg s) Level.passGrace 700 /\
  State.trapLock (passToIndex idx s) = 250 /\
  AI.carrier (State.ai (passToIndex idx s)) = AI.carrier (State.ai s).
Proof.
  intros Hm. unfold passToIndex. rewrite Hm. fields. repeat split.
Qed.

Lemma owners_after_kick (s : State.t) :
  AI.ptCarrier (State.ai s) = (-1)%Z -> (owners s <= 1)%nat.
Proof.
  intros E. unfold owners. rewrite E.
  change (0 <=? -1)%Z with false.
  destruct (AI.carrier (State.ai s)); cbn; lia.
Qed.

(** C6 (as amended): a shot sets receiver index, trap owner and attacking
    carrier index to -1, protect to 120 and the trap lock to 250; a pass to
    an existing mate sets trap owner and attacking carrier index to -1, the
    receiver index to the target of the pass, protect to the tier's pass
    grace and the trap lock to 250; a pass to a missing mate changes
    nothing.  Neither kick touches the defender carrier.  After a kick the
    attacking side holds no carrier, so at most one of {no one, one
    defender, one attacker index} owns the ball. *)
Theorem kick_clears_trackers (s : State.t) :
  (forall now,
     State.receiverIndex (shoot now s) = (-1)%Z /\
     State.trapOwner (shoot now s) = (-1)%Z /\
     AI.ptCarrier (State.ai (shoot now s)) = (-1)%Z /\
     State.protect (shoot now s) == 120 /\
     State.trapLock (shoot now s) == 250 /\
     AI.carrier (State.ai (shoot now s)) = AI.carrier (State.ai s) /\
     (owners (shoot now s) <= 1)%nat) /\
  (forall idx m,
     nthZ (State.mates s) idx = Some m ->
     State.receiverIndex (passToIndex idx s) = idx /\
     State.trapOwner (passToIndex idx s) = (-1)%Z /\
     AI.ptCarrier (State.ai (passToIndex idx s)) = (-1)%Z /\
     State.protect (passToIndex idx s)
       == optField (State.cfg s) Level.passGrace 700 /\
     State.trapLock (passToIndex idx s) == 250 /\
     AI.carrier (State.ai (passToIndex idx s)) = AI.carrier (State.ai s) /\
     (owners (passToIndex idx s) <= 1)%nat) /\
  (forall idx,
     nthZ (State.mates s) idx = None -> passToIndex idx s = s).
Proof.
  split; [|split].
  - intros now.
    destruct (shoot_fields now s) as (a & b & c & d & e & f).
    pose proof (owners_after_kick (shoot now s) c) as Ho.
    rewrite d, e. repeat split; try assumption; reflexivity.
  - intros idx m Hm.
    destruct (passToIndex_fields idx m s Hm) as (a & b & c & d & e & f).
    pose proof (owners_after_kick (passToIndex idx s) c) as Ho.
    rewrite d, e. repeat split; try assumption; reflexivity.
  - intros idx Hn. unfold passToIndex. rewrite Hn. reflexivity.
Qed.

End Possession.

Lemma trap_first_overlap_witness :
  State.receiverIndex (@trap refMath kickoff_ball_at_striker) = 8%Z /\
  State.protect (@trap refMath kickoff_ball_at_striker) == 500.
Proof.
  assert (Hlock : State.trapLock kickoff_ball_at_striker <= 0)
    by (vm_compute; discriminate).
  assert (Hm : nth_error (State.mates kickoff_ball_at_striker) 8
               = Some striker) by reflexivity.
  assert (Hfirst : @firstOverlap refMath kickoff_ball_at_striker 8 striker).
  { split; [exact Hm|]. split; [vm_compute; reflexivity|].
    intros j m' Hj Hm'.
    assert (Hcases : (j = 0 \/ j = 1 \/ j = 2 \/ j = 3 \/ j = 4 \/ j = 5
                      \/ j = 6 \/ j = 7)%nat) by lia.
    destruct Hcases as [-> | [-> | [-> | [-> | [-> | [-> | [-> | ->]]]]]]];
      injection Hm' as <-; vm_compute; discriminate. }
  destruct (trap_first_overlap (M := refMath) kickoff_ball_at_striker 8 striker
              Hlock Hfirst) as (_ & (Hp & _) & (Hr & _) & _).
  split; [exact Hr | exact Hp].
Defined.

(** C7 fails as stated: a trap does not clear the defender carrier.  The
    striker traps the ball that defender 4 carries, and defender 4 is the
    carrier still. *)
Lemma trap_keeps_defender_carrier :
  State.trapLock dribbleState <= 0 /\
  @firstOverlap refMath dribbleState 8 striker /\
  AI.ptCarrier (State.ai (@trap refMath dribbleState)) = 8%Z /\
  AI.carrier (State.ai (@trap refMath dribbleState)) = Some 4%nat /\
  AI.carrier (State.ai (@trap refMath dribbleState)) <> None.
Proof.
  split; [vm_compute; discriminate|]. split.
  - split; [reflexivity|]. split; [vm_compute; reflexivity|].
    intros j m' Hj Hm'.
    assert (Hcases : (j = 0 \/ j = 1 \/ j = 2 \/ j = 3 \/ j = 4 \/ j = 5
                      \/ j = 6 \/ j = 7)%nat) by lia.
    destruct Hcases as [-> | [-> | [-> | [-> | [-> | [-> | [-> | ->]]]]]]];
      injection Hm' as <-; vm_compute; discriminate.
  - vm_compute. repeat split; discriminate.
Qed.

Lemma kick_clears_trackers_witness :
  nthZ (State.mates kickoff) 2 = Some centreBack /\
  State.receiverIndex (@passToIndex refMath 2 kickoff) = 2%Z /\
  AI.ptCarrier (State.ai (@passToIndex refMath 2 kickoff)) = (-1)%Z.
Proof.
  assert (Hm : nthZ (State.mates kickoff) 2 = Some centreBack) by reflexivity.
  split; [exact Hm|].
  destruct (kick_clears_trackers (M := refMath) kickoff) as (_ & Hpass & _).
  destruct (Hpass 2%Z centreBack Hm) as (Hr & _ & Hp & _).
  split; [exact Hr | exact Hp].
Defined.

(** C6 fails as stated: a shot leaves the defender carrier in place, and a
    pass sets the receiver index to its target instead of clearing it. *)
Lemma kick_keeps_defender_carrier :
  AI.carrier (State.ai (@shoot refMath 0 dribbleState)) = Some 4%nat /\
  AI.carrier (State.ai (@passToIndex refMath 2 dribbleState)) = Some 4%nat /\
  State.receiverIndex (@passToIndex refMath 2 dribbleState) = 2%Z /\
  State.receiverIndex (@passToIndex refMath 2 dribbleState) <> (-1)%Z.
Proof. vm_compute. repeat split; discriminate. Qed.

(** ** Capture gating *)

Section Capture.
Context {M : MathLib}.

Lemma canCapture_gated (i : nat) (p : Player.t) (s : State.t) :
  timerGate s \/ tooFast s -> canCapture i p s = false.
Proof.
  unfold timerGate, tooFast, canCapture. cbv zeta.
  intros [[Hp | Ht] | Hf].
  - apply Qle_bool_false in Hp. rewrite Hp.
    rewrite andb_false_r. reflexivity.
  - apply Qle_bool_false in Ht. rewrite Ht.
    rewrite andb_false_r. reflexivity.
  - apply Qle_bool_false in Hf. rewrite Hf.
    rewrite andb_false_r. reflexivity.
Qed.

Lemma capture_gated (i : nat) (p : Player.t) (s : State.t) :
  timerGate s \/ tooFast s -> capture i p s = s.
Proof.
  intros Hg. unfold capture. rewrite (canCapture_gated i p s Hg). reflexivity.
Qed.

Lemma noNewCarrier_refl (s : State.t) : noNewCarrier s s.
Proof. left. reflexivity. Qed.

Lemma noNewCarrier_trans (s1 s2 s3 : State.t) :
  noNewCarrier s1 s2 -> noNewCarrier s2 s3 -> noNewCarrier s1 s3.
Proof.
  unfold noNewCarrier. intros [E1 | E1] [E2 | E2]; rewrite E2; auto.
Qed.

(** The carrier's own step keeps the timer gate closed and hands the ball
    to nobody else. *)
Lemma carry_gate (i : nat) (p : Player.t) (s : State.t) :
  noNewCarrier s (carry i p s) /\
  State.tackleCd (carry i p s) = State.tackleCd s /\
  (State.protect (carry i p s) = State.protect s \/
   State.protect (carry i p s) = 40).
Proof.
  unfold carry, noNewCarrier. destruct (isCarrier s i).
  - destruct (_ && _); fields; repeat split; auto.
  - repeat split; auto.
Qed.

Lemma carry_timerGate (i : nat) (p : Player.t) (s : State.t) :
  timerGate s -> timerGate (carry i p s).
Proof.
  unfold timerGate. destruct (carry_gate i p s) as (_ & Et & [Ep | Ep]);
    rewrite Et, Ep; [tauto|]. intros _. left. reflexivity.
Qed.

Lemma defendLoop_gate (dt : Q) (eng : set nat) (ps : list Player.t) :
  forall i s,
    timerGate s ->
    noNewCarrier s (snd (defendLoop dt eng i ps s)) /\
    timerGate (snd (defendLoop dt eng i ps s)).
Proof.
  induction ps as [|p ps IH]; intros i s Hg; cbn [defendLoop].
  - cbn [snd]. split; [apply noNewCarrier_refl | exact Hg].
  - unfold defenderStep.
    set (p1 := moveDefender dt (has eng i) s p).
    rewrite (capture_gated i p1 s (or_introl Hg)).
    pose proof (carry_timerGate i p1 s Hg) as Hg1.
    destruct (carry_gate i p1 s) as (Hn1 & _).
    specialize (IH (S i) (carry i p1 s) Hg1).
    destruct (defendLoop dt eng (S i) ps (carry i p1 s)) as [ps' s''].
    cbn [snd] in *. destruct IH as (Hn2 & Hg2).
    split; [|exact Hg2].
    exact (noNewCarrier_trans s (carry i p1 s) s'' Hn1 Hn2).
Qed.

Lemma defend_gate (dt : Q) (s : State.t) :
  timerGate s -> noNewCarrier s (defend dt s) /\ timerGate (defend dt s).
Proof.
  intros Hg. unfold defend.
  pose proof (defendLoop_gate dt (engagedSet s) (State.defenders s) 0 s Hg) as P.
  destruct (defendLoop _ _ _ _ _) as [ps s']. cbn [snd] in P.
  unfold noNewCarrier, timerGate in *. fields. exact P.
Qed.

Lemma sameTackle_trans (s1 s2 s3 : State.t) :
  sameTackle s1 s2 -> sameTackle s2 s3 -> sameTackle s1 s3.
Proof.
  intros (E1 & N1) (E2 & N2). split; [congruence|].
  exact (noNewCarrier_trans s1 s2 s3 N1 N2).
Qed.

Lemma resetBall_tackle (s : State.t) : sameTackle s (resetBall s).
Proof. unfold resetBall, sameTackle, noNewCarrier. fields. auto. Qed.

Lemma awayGoal_tackle (s : State.t) : sameTackle s (awayGoal s).
Proof.
  destruct (awayGoal_shape s) as (u & Eu & _ & _ & Ht & _).
  destruct (resetBall_tackle u) as (Et & _).
  split; [rewrite Eu, Et; exact Ht|].
  right. rewrite Eu. unfold resetBall. fields. reflexivity.
Qed.

Lemma homeGoal_tackle (s : State.t) : sameTackle s (homeGoal s).
Proof.
  unfold homeGoal, resetBall, sameTackle, noNewCarrier. fields. auto.
Qed.

Lemma goals_tackle (s : State.t) : sameTackle s (goals s).
Proof.
  unfold goals. cbv zeta.
  destruct (crossesAway (State.ball s)).
  - destruct (crossesHome (State.ball (awayGoal s))).
    + apply (sameTackle_trans s (awayGoal s));
        [apply awayGoal_tackle | apply homeGoal_tackle].
    + apply awayGoal_tackle.
  - destruct (crossesHome (State.ball s)).
    + apply homeGoal_tackle.
    + split; [reflexivity | apply noNewCarrier_refl].
Qed.

Lemma trapFrom_tackle (ms : list Player.t) :
  forall i s, sameTackle s (trapFrom i ms s).
Proof.
  induction ms as [|m ms IH]; intros i s; cbn [trapFrom].
  - split; [reflexivity | apply noNewCarrier_refl].
  - destruct (canTrap s m); [|apply IH].
    unfold trapBy, sameTackle, noNewCarrier. fields. auto.
Qed.

Lemma carryMate_tackle (dt : Q) (s s' : State.t) :
  carryMate dt s = Some s' -> sameTackle s s'.
Proof.
  unfold carryMate, sameTackle, noNewCarrier.
  destruct (_ =? _)%Z.
  - destruct (nthZ _ _); [|discriminate]. intros [= <-]. fields. auto.
  - destruct (0 <=? _)%Z.
    + destruct (nthZ _ _); [|discriminate]. intros [= <-]. fields. auto.
    + intros [= <-]. auto.
Qed.

Lemma gkSave_tackle (gk : Keeper.t) (top : bool) (s : State.t) :
  sameTackle s (gkSave gk top s).
Proof.
  unfold gkSave, sameTackle, noNewCarrier.
  destruct top;
    repeat match goal with
      | |- context [if ?c then _ else _] => destruct c
      end; fields; auto.
Qed.

Lemma keepers_tackle (dt : Q) (s : State.t) : sameTackle s (keepers dt s).
Proof.
  unfold keepers. cbv zeta.
  set (s1 := State.set_gkFR _ s).
  set (s2 := State.set_gkPT _ s1).
  apply (sameTackle_trans s s2).
  { subst s2 s1. unfold sameTackle, noNewCarrier. fields. auto. }
  apply (sameTackle_trans s2 (gkSave (State.gkFR s2) true s2));
    apply gkSave_tackle.
Qed.

Lemma moveMates_tackle (dt : Q) (s : State.t) : sameTackle s (moveMates dt s).
Proof. unfold moveMates, sameTackle, noNewCarrier. fields. auto. Qed.

Lemma beforeGoals_tackle (dt : Q) (s : State.t) :
  State.tackleCd (beforeGoals dt s) = Qmax 0 (State.tackleCd s - dt * 1000) /\
  noNewCarrier s (beforeGoals dt s).
Proof. unfold beforeGoals, tickTimers, noNewCarrier. fields. auto. Qed.

(** The state of a tick when the defenders start to move. *)
Lemma update_tackle (dt : Q) (s s' : State.t) :
  update dt s = Some s' ->
  exists c, s' = defend dt c /\
    State.tackleCd c = Qmax 0 (State.tackleCd s - dt * 1000) /\
    noNewCarrier s c.
Proof.
  unfold update. cbv zeta. fold (beforeGoals dt s).
  set (b := beforeGoals dt s).
  destruct (carryMate dt (moveMates dt (trap (goals b)))) as [c|] eqn:E;
    [|discriminate].
  intros [= <-]. exists (keepers dt c). split; [reflexivity|].
  pose proof (beforeGoals_tackle dt s) as Hb. fold b in Hb.
  assert (Hchain : sameTackle b (keepers dt c)).
  { apply (sameTackle_trans b (goals b)); [apply goals_tackle|].
    apply (sameTackle_trans _ (trap (goals b)));
      [exact (trapFrom_tackle (State.mates (goals b)) 0 (goals b))|].
    apply (sameTackle_trans _ (moveMates dt (trap (goals b))));
      [apply moveMates_tackle|].
    apply (sameTackle_trans _ c); [exact (carryMate_tackle _ _ _ E)|].
    apply keepers_tackle. }
  destruct Hb as (Hb1 & Hb2). destruct Hchain as (Hc1 & Hc2).
  split; [rewrite Hc1; exact Hb1|].
  exact (noNewCarrier_trans s b (keepers dt c) Hb2 Hc2).
Qed.

(** Past the goal tests and up to the defenders' pass, a running
    protection timer keeps running: it is only ever set to a positive
    value. *)
Lemma trapFrom_protect (ms : list Player.t) :
  forall i s, 0 < State.protect s -> 0 < State.protect (trapFrom i ms s).
Proof.
  induction ms as [|m ms IH]; intros i s Hp; cbn [trapFrom]; [exact Hp|].
  destruct (canTrap s m); [|apply IH; exact Hp].
  unfold trapBy. fields. reflexivity.
Qed.

Lemma carryMate_protect (dt : Q) (s s' : State.t) :
  carryMate dt s = Some s' -> State.protect s' = State.protect s.
Proof.
  unfold carryMate.
  destruct (_ =? _)%Z.
  - destruct (nthZ _ _); [|discriminate]. intros [= <-]. fields. reflexivity.
  - destruct (0 <=? _)%Z.
    + destruct (nthZ _ _); [|discriminate]. intros [= <-]. fields. reflexivity.
    + intros [= <-]. reflexivity.
Qed.

Lemma gkSave_protect (gk : Keeper.t) (top : bool) (s : State.t) :
  0 < State.protect s -> 0 < State.protect (gkSave gk top s).
Proof.
  intros Hp. unfold gkSave.
  destruct top;
    repeat match goal with
      | |- context [if ?c then _ else _] => destruct c
      end; fields; first [exact Hp | reflexivity].
Qed.

Lemma keepers_protect (dt : Q) (s : State.t) :
  0 < State.protect s -> 0 < State.protect (keepers dt s).
Proof.
  intros Hp. unfold keepers. cbv zeta.
  set (s1 := State.set_gkFR _ s).
  set (s2 := State.set_gkPT _ s1).
  assert (H2 : 0 < State.protect s2) by (subst s2 s1; fields; exact Hp).
  apply gkSave_protect. apply gkSave_protect. exact H2.
Qed.

Lemma beforeGoals_protect (dt : Q) (s : State.t) :
  dt * 1000 < State.protect s -> 0 < State.protect (beforeGoals dt s).
Proof.
  intros Hp. unfold beforeGoals, tickTimers. fields.
  apply Qlt_le_trans with (State.protect s - dt * 1000);
    [lra | apply Q.le_max_r].
Qed.

Lemma goals_idle (s : State.t) :
  crossesAway (State.ball s) = false ->
  crossesHome (State.ball s) = false ->
  goals s = s.
Proof. intros Ha Hh. unfold goals. rewrite Ha, Hh. reflexivity. Qed.

(** A tick is the pass of the defenders from the state the earlier phases
    have produced. *)
Lemma update_split (dt : Q) (s s' : State.t) :
  update dt s = Some s' ->
  exists c,
    carryMate dt (moveMates dt (trap (goals (beforeGoals dt s)))) = Some c /\
    s' = defend dt (keepers dt c).
Proof.
  unfold update. cbv zeta. fold (beforeGoals dt s).
  destruct (carryMate dt (moveMates dt (trap (goals (beforeGoals dt s)))))
    as [c|]; [|discriminate].
  intros [= <-]. exists c. split; reflexivity.
Qed.

Lemma update_protect (dt : Q) (s c : State.t) :
  dt * 1000 < State.protect s ->
  crossesAway (State.ball (beforeGoals dt s)) = false ->
  crossesHome (State.ball (beforeGoals dt s)) = false ->
  carryMate dt (moveMates dt (trap (goals (beforeGoals dt s)))) = Some c ->
  0 < State.protect (keepers dt c).
Proof.
  intros Hp Ha Hh Ec. rewrite (goals_idle _ Ha Hh) in Ec.
  apply keepers_protect. rewrite (carryMate_protect _ _ _ Ec).
  unfold moveMates. fields.
  apply (trapFrom_protect (State.mates (beforeGoals dt s)) 0).
  exact (beforeGoals_protect dt s Hp).
Qed.

(** C3 (as amended): the capture test of a defender leaves the whole state,
    and so the carrier, unchanged whenever at that test the protection timer
    is above 0, or the tackle cooldown is above 0, or the ball's speed is
    above the capture-speed ceiling of the active tier.  When one of the two
    timers is above 0 as the defenders start to move, no defender becomes
    the carrier during their pass: afterwards the carrier is the same or
    nobody (a carrier can still release the ball by his own shot), and a
    timer is still running.  When the tackle cooldown exceeds the length of
    the tick, no defender becomes the carrier in that tick; the same holds
    when the protection timer exceeds the length of the tick and no goal is
    scored in it. *)
Theorem capture_gating (s : State.t) :
  (forall i p, timerGate s \/ tooFast s -> capture i p s = s) /\
  (forall dt,
     timerGate s ->
     noNewCarrier s (defend dt s) /\ timerGate (defend dt s)) /\
  (forall dt s',
     dt * 1000 < State.tackleCd s ->
     update dt s = Some s' ->
     forall k, AI.carrier (State.ai s') = Some k ->
               AI.carrier (State.ai s) = Some k) /\
  (forall dt s',
     dt * 1000 < State.protect s ->
     crossesAway (State.ball (beforeGoals dt s)) = false ->
     crossesHome (State.ball (beforeGoals dt s)) = false ->
     update dt s = Some s' ->
     forall k, AI.carrier (State.ai s') = Some k ->
               AI.carrier (State.ai s) = Some k).
Proof.
  split; [|split; [|split]].
  - intros i p Hg. exact (capture_gated i p s Hg).
  - intros dt Hg. exact (defend_gate dt s Hg).
  - intros dt s' Hcd Hu k Hk.
    destruct (update_tackle dt s s' Hu) as (c & -> & Ht & Hn).
    assert (Hg : timerGate c).
    { right. rewrite Ht. apply Qlt_le_trans with (State.tackleCd s - dt * 1000).
      - lra.
      - apply Q.le_max_r. }
    destruct (defend_gate dt c Hg) as (Hn' & _).
    pose proof (noNewCarrier_trans s c (defend dt c) Hn Hn') as [E | E];
      rewrite E in Hk; [exact Hk | discriminate].
  - intros dt s' Hp Ha Hh Hu k Hk.
    destruct (update_tackle dt s s' Hu) as (c & E & _ & Hn).
    destruct (update_split dt s s' Hu) as (c0 & Ec & E0).
    pose proof (update_protect dt s c0 Hp Ha Hh Ec) as Hg.
    destruct (defend_gate dt (keepers dt c0) (or_introl Hg)) as (Hn' & _).
    rewrite <- E0 in Hn'.
    assert (Hn0 : noNewCarrier s (keepers dt c0)).
    { destruct (beforeGoals_tackle dt s) as (_ & N1).
      apply (noNewCarrier_trans s (beforeGoals dt s)); [exact N1|].
      rewrite (goals_idle _ Ha Hh) in Ec.
      destruct (trapFrom_tackle (State.mates (beforeGoals dt s)) 0
                  (beforeGoals dt s)) as (_ & N2).
      apply (noNewCarrier_trans _ (trap (beforeGoals dt s))); [exact N2|].
      destruct (moveMates_tackle dt (trap (beforeGoals dt s))) as (_ & N3).
      apply (noNewCarrier_trans _ (moveMates dt (trap (beforeGoals dt s))));
        [exact N3|].
      destruct (carryMate_tackle _ _ _ Ec) as (_ & N4).
      apply (noNewCarrier_trans _ c0); [exact N4|].
      exact (proj2 (keepers_tackle dt c0)). }
    pose proof (noNewCarrier_trans s (keepers dt c0) s' Hn0 Hn') as [E1 | E1];
      rewrite E1 in Hk; [exact Hk | discriminate].
Qed.

End Capture.

Lemma capture_gating_witness :
  timerGate dribbleState /\
  @capture refMath 3 leftBack dribbleState = dribbleState.
Proof.
  assert (Hg : timerGate dribbleState) by (left; vm_compute; reflexivity).
  split; [exact Hg|].
  exact (proj1 (capture_gating (M := refMath) dribbleState) 3%nat leftBack
           (or_introl Hg)).
Defined.

(** C3 fails as stated: with the protection timer and the tackle cooldown
    above 0 for the whole tick, the carrier of [breakawayState] is not the
    same after the tick: defender 8 has shot and nobody carries the ball. *)
Lemma carrier_released_under_protection :
  0.016 * 1000 < State.protect breakawayState /\
  0.016 * 1000 < State.tackleCd breakawayState /\
  AI.carrier (State.ai breakawayState) = Some 8%nat /\
  option_map (fun s' => AI.carrier (State.ai s'))
    (@update refMath 0.016 breakawayState) = Some None.
Proof. vm_compute. repeat split. Qed.

(** ** The engagement set *)

Section Engagement.
Context {M : MathLib}.

Lemma set_add_length (a : nat) (l : set nat) :
  (List.length (set_add Nat.eq_dec a l) <= S (List.length l))%nat.
Proof.
  induction l as [|b l IH]; cbn [set_add List.length]; [lia|].
  destruct (Nat.eq_dec a b); cbn [List.length]; lia.
Qed.

(** With a bound [n] that is a natural number the loop never lets the set
    grow past [n], and it keeps it free of duplicates. *)
Lemma engageLoop_bound (n : nat) (radE : Q) (sorted : list (nat * Q)) :
  forall engaged,
    NoDup engaged -> (List.length engaged <= n)%nat ->
    NoDup (engageLoop (inject_Z (Z.of_nat n)) radE sorted engaged) /\
    (List.length (engageLoop (inject_Z (Z.of_nat n)) radE sorted engaged)
     <= n)%nat.
Proof.
  induction sorted as [|e rest IH]; intros engaged Hnd Hlen;
    cbn [engageLoop]; [auto|].
  destruct (Qle_bool (inject_Z (Z.of_nat n)) (sizeQ engaged)) eqn:E; [auto|].
  apply Qle_bool_false in E. unfold sizeQ in E.
  rewrite <- Zlt_Qlt in E. apply Nat2Z.inj_lt in E.
  destruct (Qltb (snd e) radE); [|apply IH; assumption].
  apply IH.
  - apply set_add_nodup. exact Hnd.
  - pose proof (set_add_length (fst e) engaged). lia.
Qed.

Lemma moveDefender_engaged (dt : Q) (e : bool) (s : State.t) (p : Player.t) :
  Player.engaged (moveDefender dt e s p) = e.
Proof.
  unfold moveDefender. cbv zeta.
  destruct e, (Player.engaged p) eqn:Ep; cbn [andb negb];
    fields; rewrite ?Ep; cbn [andb negb];
    repeat match goal with
      | |- context [if ?c then _ else _] => destruct c
      end; fields; try reflexivity; exact Ep.
Qed.

(** After the loop over the defenders the [engaged] flag of each is his
    membership in the engagement set. *)
Lemma defendLoop_flags (dt : Q) (eng : set nat) (ps : list Player.t) :
  forall i s,
    map Player.engaged (fst (defendLoop dt eng i ps s))
    = map (has eng) (seq i (List.length ps)).
Proof.
  induction ps as [|p ps IH]; intros i s; cbn [defendLoop]; [reflexivity|].
  unfold defenderStep.
  set (p1 := moveDefender dt (has eng i) s p).
  specialize (IH (S i) (carry i p1 (capture i p1 s))).
  destruct (defendLoop dt eng (S i) ps _) as [ps' s''].
  cbn [fst map List.length seq] in *.
  rewrite IH. subst p1. rewrite moveDefender_engaged. reflexivity.
Qed.

Lemma engagedCount_map (ps : list Player.t) :
  engagedCount ps
  = List.length (filter (fun b : bool => b) (map Player.engaged ps)).
Proof.
  unfold engagedCount. induction ps as [|p ps IH]; [reflexivity|].
  cbn [filter map]. destruct (Player.engaged p); cbn [List.length]; lia.
Qed.

Lemma has_count (eng : set nat) (l : list nat) :
  NoDup eng -> NoDup l ->
  (List.length (filter (fun b : bool => b) (map (has eng) l))
   <= List.length eng)%nat.
Proof.
  intros Hnd Hl.
  assert (E : List.length (filter (fun b : bool => b) (map (has eng) l))
              = List.length (filter (has eng) l)).
  { clear. induction l as [|a l IH]; [reflexivity|].
    cbn [filter map]. destruct (has eng a); cbn [List.length]; lia. }
  rewrite E. apply NoDup_incl_length.
  - apply NoDup_filter. exact Hl.
  - intros a Ha. apply filter_In in Ha. destruct Ha as (_ & Ha).
    unfold has in Ha. apply (set_mem_correct1 Nat.eq_dec) in Ha. exact Ha.
Qed.

(** The tier maximum is a natural number when the tier is one of [LEVELS],
    or missing. *)
Lemma MAX_E_nat (s : State.t) :
  tierOk s -> exists n : nat, MAX_E s = inject_Z (Z.of_nat n).
Proof.
  intros (Hr & Hc). unfold MAX_E. rewrite Hc. rewrite LAST_LEVEL_value in Hr.
  assert (Hcases : (State.levelIdx s = 0 \/ State.levelIdx s = 1
                    \/ State.levelIdx s = 2 \/ State.levelIdx s = 3
                    \/ State.levelIdx s = 4 \/ State.levelIdx s = 5
                    \/ State.levelIdx s = 6)%Z) by lia.
  destruct Hcases as [-> | [-> | [-> | [-> | [-> | [-> | ->]]]]]];
    cbn; first [now exists 2%nat | now exists 3%nat].
Qed.

Lemma defend_cap (dt : Q) (s : State.t) :
  tierOk s ->
  inject_Z (Z.of_nat (engagedCount (State.defenders (defend dt s))))
  <= MAX_E (defend dt s).
Proof.
  intros Hok.
  assert (Hcfg : MAX_E (defend dt s) = MAX_E s).
  { unfold MAX_E. destruct (defend_progress dt s) as (_ & _ & _ & _ & _ & Ec).
    rewrite Ec. reflexivity. }
  rewrite Hcfg. destruct (MAX_E_nat s Hok) as (n & Hn).
  unfold defend.
  pose proof (defendLoop_flags dt (engagedSet s) (State.defenders s) 0 s) as Hf.
  destruct (defendLoop _ _ _ _ _) as [ps s']. cbn [fst] in Hf. fields.
  rewrite engagedCount_map, Hf, Hn.
  rewrite <- Zle_Qle. apply Nat2Z.inj_le.
  destruct (engageLoop_bound n (RAD_E s)
              (sortByDist (distances (State.ball s) (State.defenders s))) []
              (NoDup_nil nat) (Nat.le_0_l n)) as (Hnd & Hlen).
  unfold engagedSet. rewrite Hn.
  eapply Nat.le_trans; [|exact Hlen].
  apply has_count; [exact Hnd | apply seq_NoDup].
Qed.

End Engagement.

(** ** Invariants of a tick *)

Section Tick.
Context {M : MathLib}.

Lemma tierOk_progress (s s' : State.t) :
  sameProgress s s' -> tierOk s -> tierOk s'.
Proof.
  intros (_ & _ & El & _ & _ & Ec). unfold tierOk. rewrite El, Ec. auto.
Qed.

Lemma awayGoal_tierOk (s : State.t) : tierOk s -> tierOk (awayGoal s).
Proof.
  intros (Hr & Hc).
  destruct (awayGoal_level s (proj2 Hr)) as (Hm & Hadv & Hstay & _).
  split; [lia|].
  destruct (Z_lt_le_dec (State.levelProgress s + 1) (State.goalsToAdvance s))
    as [Hlt | Hge].
  - destruct (Hstay Hlt) as (E1 & _ & E3). rewrite E1, E3. exact Hc.
  - destruct (Hadv Hge) as (_ & _ & E3). exact E3.
Qed.

Lemma homeGoal_progress (s : State.t) :
  State.levelIdx (homeGoal s) = State.levelIdx s /\
  State.cfg (homeGoal s) = State.cfg s.
Proof. unfold homeGoal, resetBall. fields. auto. Qed.

Lemma homeGoal_tierOk (s : State.t) : tierOk s -> tierOk (homeGoal s).
Proof.
  destruct (homeGoal_progress s) as (El & Ec).
  unfold tierOk. rewrite El, Ec. auto.
Qed.

Lemma goals_tierOk (s : State.t) : tierOk s -> tierOk (goals s).
Proof.
  intros Hok. unfold goals. cbv zeta.
  destruct (crossesAway (State.ball s)).
  - destruct (crossesHome (State.ball (awayGoal s)));
      [apply homeGoal_tierOk|]; apply awayGoal_tierOk; exact Hok.
  - destruct (crossesHome (State.ball s)); [apply homeGoal_tierOk|]; exact Hok.
Qed.

Lemma sameRoster_refl (s : State.t) : sameRoster s s.
Proof. unfold sameRoster. auto. Qed.

Lemma sameRoster_trans (s1 s2 s3 : State.t) :
  sameRoster s1 s2 -> sameRoster s2 s3 -> sameRoster s1 s3.
Proof.
  unfold sameRoster. intros (a1 & a2 & a3) (b1 & b2 & b3).
  split; [congruence|]. split; [congruence|].
  destruct b3 as [E | E]; rewrite E; auto.
Qed.

Lemma matesOk_roster (s s' : State.t) :
  sameRoster s s' -> matesOk s -> matesOk s'.
Proof.
  unfold sameRoster, matesOk. cbv zeta.
  intros (El & Es & Ep) (Hs & Hp). rewrite El, Es.
  split; [exact Hs|]. destruct Ep as [E | E]; rewrite E; lia.
Qed.

Ltac roster := unfold sameRoster; fields; auto.

Lemma beforeGoals_roster (dt : Q) (s : State.t) :
  sameRoster s (beforeGoals dt s).
Proof. unfold beforeGoals, tickTimers. roster. Qed.

Lemma resetBall_roster (s : State.t) : sameRoster s (resetBall s).
Proof. unfold resetBall. roster. Qed.

Lemma awayGoal_roster (s : State.t) : sameRoster s (awayGoal s).
Proof.
  unfold awayGoal. cbv zeta.
  destruct (_ <=? _)%Z; unfold advanceLevel, applyLevel, resetBall; roster.
Qed.

Lemma homeGoal_roster (s : State.t) : sameRoster s (homeGoal s).
Proof. unfold homeGoal, resetBall. roster. Qed.

Lemma goals_roster (s : State.t) : sameRoster s (goals s).
Proof.
  unfold goals. cbv zeta.
  destruct (crossesAway (State.ball s)).
  - destruct (crossesHome (State.ball (awayGoal s))).
    + apply (sameRoster_trans s (awayGoal s));
        [apply awayGoal_roster | apply homeGoal_roster].
    + apply awayGoal_roster.
  - destruct (crossesHome (State.ball s));
      [apply homeGoal_roster | apply sameRoster_refl].
Qed.

(** The trap keeps the roster and the selection; the attacking carrier
    index it may set is the index of a mate. *)
Lemma trapFrom_roster (ms : list Player.t) :
  forall k s,
    List.length (State.mates (trapFrom k ms s)) = List.length (State.mates s) /\
    State.selectedIdx (trapFrom k ms s) = State.selectedIdx s /\
    (AI.ptCarrier (State.ai (trapFrom k ms s)) = AI.ptCarrier (State.ai s) \/
     (Z.of_nat k <= AI.ptCarrier (State.ai (trapFrom k ms s))
      < Z.of_nat (k + List.length ms))%Z).
Proof.
  induction ms as [|m ms IH]; intros k s; cbn [trapFrom List.length].
  - auto.
  - destruct (canTrap s m).
    + unfold trapBy. fields. repeat split. right. lia.
    + destruct (IH (S k) s) as (a & b & c). repeat split; try assumption.
      destruct c as [c | c]; [left; exact c | right; lia].
Qed.

Lemma trap_matesOk (s : State.t) : matesOk s -> matesOk (trap s).
Proof.
  unfold matesOk, trap. cbv zeta. intros (Hs & Hp).
  destruct (trapFrom_roster (State.mates s) 0 s) as (El & Es & Ep).
  rewrite El, Es. split; [exact Hs|].
  destruct Ep as [E | E]; [rewrite E; exact Hp | cbn [Nat.add] in E; lia].
Qed.

Lemma mapFrom_length {A B : Type} (f : nat -> A -> B) (l : list A) :
  forall i, List.length (mapFrom f i l) = List.length l.
Proof.
  induction l as [|a l IH]; intros i; cbn [mapFrom List.length];
    [reflexivity | rewrite IH; reflexivity].
Qed.

Lemma moveMates_roster (dt : Q) (s : State.t) : sameRoster s (moveMates dt s).
Proof.
  unfold moveMates, sameRoster. fields. rewrite mapFrom_length. auto.
Qed.

Lemma list_set_length {A : Type} (v : A) (l : list A) :
  forall i, List.length (list_set i v l) = List.length l.
Proof.
  induction l as [|a l IH]; intros i; destruct i; cbn [list_set List.length];
    try reflexivity. rewrite IH. reflexivity.
Qed.

Lemma nthZ_some {A : Type} (l : list A) (i : Z) :
  (0 <= i < Z.of_nat (List.length l))%Z -> exists a, nthZ l i = Some a.
Proof.
  intros Hi. unfold nthZ.
  destruct (i <? 0)%Z eqn:E; [apply Z.ltb_lt in E; lia|].
  destruct (nth_error l (Z.to_nat i)) as [a|] eqn:En; [eauto|].
  apply nth_error_None in En. lia.
Qed.

(** With valid indices the carrier step does not throw. *)
Lemma carryMate_total (dt : Q) (s : State.t) :
  matesOk s -> exists s', carryMate dt s = Some s' /\ sameRoster s s'.
Proof.
  unfold matesOk. cbv zeta. intros (Hs & Hp). unfold carryMate. cbv zeta.
  destruct (_ =? _)%Z.
  - destruct (nthZ_some (State.mates s) (State.selectedIdx s) Hs) as (m & ->).
    eexists. split; [reflexivity|]. roster.
  - destruct (0 <=? AI.ptCarrier (State.ai s))%Z eqn:E.
    + apply Z.leb_le in E.
      destruct (nthZ_some (State.mates s) (AI.ptCarrier (State.ai s))
                  (conj E (proj2 Hp))) as (m & ->).
      eexists. split; [reflexivity|].
      unfold sameRoster. fields. rewrite list_set_length. auto.
    + eexists. split; [reflexivity | apply sameRoster_refl].
Qed.

Lemma gkSave_roster (gk : Keeper.t) (top : bool) (s : State.t) :
  sameRoster s (gkSave gk top s).
Proof.
  unfold gkSave.
  destruct top;
    repeat match goal with
      | |- context [if ?c then _ else _] => destruct c
      end; roster.
Qed.

Lemma keepers_roster (dt : Q) (s : State.t) : sameRoster s (keepers dt s).
Proof.
  unfold keepers. cbv zeta.
  set (s1 := State.set_gkFR _ s).
  set (s2 := State.set_gkPT _ s1).
  apply (sameRoster_trans s s2); [subst s2 s1; roster|].
  apply (sameRoster_trans s2 (gkSave (State.gkFR s2) true s2));
    apply gkSave_roster.
Qed.

Lemma capture_roster (i : nat) (p : Player.t) (s : State.t) :
  sameRoster s (capture i p s).
Proof. unfold capture. destruct (canCapture i p s); roster. Qed.

Lemma carry_roster (i : nat) (p : Player.t) (s : State.t) :
  sameRoster s (carry i p s).
Proof.
  unfold carry. destruct (isCarrier s i); [|roster].
  destruct (_ && _); roster.
Qed.

Lemma defendLoop_roster (dt : Q) (eng : set nat) (ps : list Player.t) :
  forall i s, sameRoster s (snd (defendLoop dt eng i ps s)).
Proof.
  induction ps as [|p ps IH]; intros i s; cbn [defendLoop].
  - apply sameRoster_refl.
  - unfold defenderStep.
    set (p1 := moveDefender dt (has eng i) s p).
    specialize (IH (S i) (carry i p1 (capture i p1 s))).
    destruct (defendLoop dt eng (S i) ps _) as [ps' s'']. cbn [snd] in *.
    apply (sameRoster_trans s (capture i p1 s)); [apply capture_roster|].
    apply (sameRoster_trans _ (carry i p1 (capture i p1 s)));
      [apply carry_roster | exact IH].
Qed.

Lemma defend_roster (dt : Q) (s : State.t) : sameRoster s (defend dt s).
Proof.
  unfold defend.
  pose proof (defendLoop_roster dt (engagedSet s) (State.defenders s) 0 s) as P.
  destruct (defendLoop _ _ _ _ _) as [ps s']. cbn [snd] in P.
  apply (sameRoster_trans s s'); [exact P | roster].
Qed.

(** A tick from a well-formed state does not throw; it ends in a
    well-formed state that respects the engagement cap. *)
Lemma update_inv (dt : Q) (s : State.t) :
  tierOk s -> matesOk s ->
  exists s', update dt s = Some s' /\ tierOk s' /\ matesOk s' /\ capped s'.
Proof.
  intros Ht Hm. unfold update. cbv zeta. fold (beforeGoals dt s).
  set (b := beforeGoals dt s).
  assert (Hb : tierOk b /\ matesOk b).
  { split.
    - exact (tierOk_progress s b (beforeGoals_progress dt s) Ht).
    - exact (matesOk_roster s b (beforeGoals_roster dt s) Hm). }
  destruct Hb as (Htb & Hmb).
  pose proof (goals_tierOk b Htb) as Htg.
  pose proof (matesOk_roster b (goals b) (goals_roster b) Hmb) as Hmg.
  set (g := goals b) in *.
  pose proof (tierOk_progress g (trap g)
                (trapFrom_progress (State.mates g) 0 g) Htg) as Htt.
  pose proof (trap_matesOk g Hmg) as Hmt.
  set (t := trap g) in *.
  pose proof (tierOk_progress t _ (moveMates_progress dt t) Htt) as Htm.
  pose proof (matesOk_roster t _ (moveMates_roster dt t) Hmt) as Hmm.
  set (m := moveMates dt t) in *.
  destruct (carryMate_total dt m Hmm) as (c & Ec & Hrc).
  rewrite Ec. exists (defend dt (keepers dt c)). split; [reflexivity|].
  pose proof (tierOk_progress m c (carryMate_progress dt m c Ec) Htm) as Htc.
  pose proof (matesOk_roster m c Hrc Hmm) as Hmc.
  pose proof (tierOk_progress c _ (keepers_progress dt c) Htc) as Htk.
  pose proof (matesOk_roster c _ (keepers_roster dt c) Hmc) as Hmk.
  set (k := keepers dt c) in *.
  split; [exact (tierOk_progress k _ (defend_progress dt k) Htk)|].
  split; [exact (matesOk_roster k _ (defend_roster dt k) Hmk)|].
  exact (defend_cap dt k Htk).
Qed.

Lemma run_inv (dts : list Q) :
  forall s, tierOk s -> matesOk s ->
    exists s', run dts s = Some s' /\ tierOk s' /\ matesOk s' /\
               (dts = [] \/ capped s').
Proof.
  induction dts as [|dt dts IH]; intros s Ht Hm; cbn [run].
  - exists s. auto.
  - destruct (update_inv dt s Ht Hm) as (u & -> & Htu & Hmu & Hcu).
    destruct (IH u Htu Hmu) as (s' & Hr & Ht' & Hm' & Hc').
    exists s'. split; [exact Hr|]. split; [exact Ht'|]. split; [exact Hm'|].
    right.
    destruct Hc' as [-> | Hc']; [|exact Hc'].
    cbn [run] in Hr. injection Hr as <-. exact Hcu.
Qed.

End Tick.

(** ** Reachable states *)

Section Reachable.
Context {M : MathLib}.

Ltac radius := unfold sameRadius; fields; reflexivity.

Lemma sameRadius_trans (s1 s2 s3 : State.t) :
  sameRadius s1 s2 -> sameRadius s2 s3 -> sameRadius s1 s3.
Proof. unfold sameRadius. congruence. Qed.

Lemma walls_radius (b : Ball.t) : Ball.r (walls b) = Ball.r b.
Proof.
  unfold walls, wallBottom, wallTop, wallRight, wallLeft.
  destruct b as [x y vx vy r spin]. ball_fields.
  repeat match goal with
    | |- context [if ?c then _ else _] => destruct c; ball_fields
    end; reflexivity.
Qed.

Lemma beforeGoals_radius (dt : Q) (s : State.t) :
  sameRadius s (beforeGoals dt s).
Proof.
  unfold sameRadius, beforeGoals. fields. rewrite walls_radius.
  unfold integrate, tickTimers. fields. reflexivity.
Qed.

Lemma resetBall_radius (s : State.t) : sameRadius s (resetBall s).
Proof. unfold resetBall. radius. Qed.

Lemma awayGoal_radius (s : State.t) : sameRadius s (awayGoal s).
Proof.
  unfold awayGoal. cbv zeta.
  destruct (_ <=? _)%Z; unfold advanceLevel, applyLevel, resetBall; radius.
Qed.

Lemma homeGoal_radius (s : State.t) : sameRadius s (homeGoal s).
Proof. unfold homeGoal, resetBall. radius. Qed.

Lemma goals_radius (s : State.t) : sameRadius s (goals s).
Proof.
  unfold goals. cbv zeta.
  destruct (crossesAway (State.ball s)).
  - destruct (crossesHome (State.ball (awayGoal s))).
    + apply (sameRadius_trans s (awayGoal s));
        [apply awayGoal_radius | apply homeGoal_radius].
    + apply awayGoal_radius.
  - destruct (crossesHome (State.ball s));
      [apply homeGoal_radius | reflexivity].
Qed.

Lemma trapFrom_radius (ms : list Player.t) :
  forall i s, sameRadius s (trapFrom i ms s).
Proof.
  induction ms as [|m ms IH]; intros i s; cbn [trapFrom]; [reflexivity|].
  destruct (canTrap s m); [unfold trapBy; radius | apply IH].
Qed.

Lemma carryMate_radius (dt : Q) (s s' : State.t) :
  carryMate dt s = Some s' -> sameRadius s s'.
Proof.
  unfold carryMate.
  destruct (_ =? _)%Z.
  - destruct (nthZ _ _); [|discriminate]. intros [= <-]. radius.
  - destruct (0 <=? _)%Z.
    + destruct (nthZ _ _); [|discriminate]. intros [= <-]. radius.
    + intros [= <-]. reflexivity.
Qed.

Lemma gkSave_radius (gk : Keeper.t) (top : bool) (s : State.t) :
  sameRadius s (gkSave gk top s).
Proof.
  unfold gkSave.
  destruct top;
    repeat match goal with
      | |- context [if ?c then _ else _] => destruct c
      end; radius.
Qed.

Lemma keepers_radius (dt : Q) (s : State.t) : sameRadius s (keepers dt s).
Proof.
  unfold keepers. cbv zeta.
  set (s1 := State.set_gkFR _ s).
  set (s2 := State.set_gkPT _ s1).
  apply (sameRadius_trans s s2); [subst s2 s1; radius|].
  apply (sameRadius_trans s2 (gkSave (State.gkFR s2) true s2));
    apply gkSave_radius.
Qed.

Lemma capture_radius (i : nat) (p : Player.t) (s : State.t) :
  sameRadius s (capture i p s).
Proof. unfold capture. destruct (canCapture i p s); radius. Qed.

Lemma carry_radius (i : nat) (p : Player.t) (s : State.t) :
  sameRadius s (carry i p s).
Proof.
  unfold carry. destruct (isCarrier s i); [|radius].
  destruct (_ && _); radius.
Qed.

Lemma defendLoop_radius (dt : Q) (eng : set nat) (ps : list Player.t) :
  forall i s, sameRadius s (snd (defendLoop dt eng i ps s)).
Proof.
  induction ps as [|p ps IH]; intros i s; cbn [defendLoop]; [reflexivity|].
  unfold defenderStep.
  set (p1 := moveDefender dt (has eng i) s p).
  specialize (IH (S i) (carry i p1 (capture i p1 s))).
  destruct (defendLoop dt eng (S i) ps _) as [ps' s'']. cbn [snd] in *.
  apply (sameRadius_trans s (capture i p1 s)); [apply capture_radius|].
  apply (sameRadius_trans _ (carry i p1 (capture i p1 s)));
    [apply carry_radius | exact IH].
Qed.

Lemma defend_radius (dt : Q) (s : State.t) : sameRadius s (defend dt s).
Proof.
  unfold defend.
  pose proof (defendLoop_radius dt (engagedSet s) (State.defenders s) 0 s) as P.
  destruct (defendLoop _ _ _ _ _) as [ps s']. cbn [snd] in P.
  apply (sameRadius_trans s s'); [exact P | radius].
Qed.

Lemma moveMates_radius (dt : Q) (s : State.t) : sameRadius s (moveMates dt s).
Proof. unfold moveMates. radius. Qed.

Lemma update_radius (dt : Q) (s s' : State.t) :
  update dt s = Some s' -> sameRadius s s'.
Proof.
  unfold update. cbv zeta. fold (beforeGoals dt s).
  set (b := beforeGoals dt s).
  destruct (carryMate dt (moveMates dt (trap (goals b)))) as [c|] eqn:E;
    [|discriminate].
  intros [= <-].
  apply (sameRadius_trans s b); [apply beforeGoals_radius|].
  apply (sameRadius_trans b (goals b)); [apply goals_radius|].
  apply (sameRadius_trans _ (trap (goals b)));
    [exact (trapFrom_radius (State.mates (goals b)) 0 (goals b))|].
  apply (sameRadius_trans _ (moveMates dt (trap (goals b))));
    [apply moveMates_radius|].
  apply (sameRadius_trans _ c); [exact (carryMate_radius _ _ _ E)|].
  apply (sameRadius_trans _ (keepers dt c)); [apply keepers_radius|].
  apply defend_radius.
Qed.

(** A handler that keeps the field, the selection and (up to a reset to
    [-1]) the attacking carrier index keeps a state well formed. *)
Lemma wellFormed_field (s s' : State.t) :
  sameField s s' ->
  State.selectedIdx s' = State.selectedIdx s ->
  (AI.ptCarrier (State.ai s') = AI.ptCarrier (State.ai s) \/
   AI.ptCarrier (State.ai s') = (-1)%Z) ->
  wellFormed s -> wellFormed s'.
Proof.
  intros (Ed & Ec & El & Em & Er) Es Ep ((Hr & Hc) & Hm & Hrad & Hcap).
  split; [|split; [|split]].
  - unfold tierOk. rewrite El, Ec. auto.
  - apply (matesOk_roster s s'); [|exact Hm].
    unfold sameRoster. rewrite Em. auto.
  - rewrite Er. exact Hrad.
  - unfold capped, MAX_E in *. rewrite Ed, Ec. exact Hcap.
Qed.

Lemma shoot_wellFormed (now : Q) (s : State.t) :
  wellFormed s -> wellFormed (shoot now s).
Proof.
  apply wellFormed_field.
  - unfold shoot, sameField. fields. repeat split.
  - unfold shoot. fields. reflexivity.
  - right. unfold shoot. fields. reflexivity.
Qed.

Lemma passToIndex_wellFormed (idx : Z) (s : State.t) :
  wellFormed s -> wellFormed (passToIndex idx s).
Proof.
  unfold passToIndex. cbv zeta. destruct (nthZ (State.mates s) idx); [|auto].
  apply wellFormed_field.
  - unfold sameField. fields. repeat split.
  - fields. reflexivity.
  - right. fields. reflexivity.
Qed.

Lemma cycleSelected_wellFormed (dir : Z) (s : State.t) :
  wellFormed s -> wellFormed (cycleSelected dir s).
Proof.
  intros (Ht & Hm & Hr & Hc). unfold cycleSelected. cbv zeta.
  split; [|split; [|split]]; try assumption.
  unfold matesOk in *. cbv zeta in *. fields.
  destruct Hm as (Hs & Hp). split; [|exact Hp].
  set (n := Z.of_nat (List.length (State.mates s))) in *.
  assert (Hn : (0 < n)%Z) by lia.
  pose proof (Z.rem_bound_abs (State.selectedIdx s + dir) n ltac:(lia)) as Hb.
  set (a := Z.rem (State.selectedIdx s + dir) n) in *.
  assert (Ha : (0 <= a + n)%Z) by lia.
  pose proof (Z.rem_bound_pos (a + n) n Ha Hn). lia.
Qed.

Lemma handle_wellFormed (e : Event) (s : State.t) :
  wellFormed s -> exists s', handle e s = Some s' /\ wellFormed s'.
Proof.
  intros Hw. destruct e as [t | button rawX rawY sh ct now | rawX rawY
                            | button now | key sh | key]; cbn [handle].
  - unfold step. cbv zeta.
    set (s0 := State.set_time t s).
    assert (Hw0 : wellFormed s0).
    { revert Hw. apply wellFormed_field; subst s0;
        [unfold sameField; fields; repeat split | reflexivity | left; reflexivity]. }
    destruct Hw0 as (Ht & Hm & Hr & _).
    destruct (update_inv (Qmin 0.033 ((t - State.time s) / 1000)) s0 Ht Hm)
      as (s' & Hu & Ht' & Hm' & Hc').
    exists s'. split; [exact Hu|].
    split; [exact Ht'|]. split; [exact Hm'|]. split; [|exact Hc'].
    rewrite (update_radius _ _ _ Hu). exact Hr.
  - eexists. split; [reflexivity|]. unfold mousedown.
    destruct (button =? 2)%Z; [apply passToIndex_wellFormed; exact Hw|].
    destruct (button =? 0)%Z; cbn [negb]; [|exact Hw].
    revert Hw. apply wellFormed_field;
      [unfold sameField; fields; repeat split | reflexivity | left; reflexivity].
  - eexists. split; [reflexivity|]. unfold mousemove.
    destruct (State.charging s); cbn [negb]; [|exact Hw].
    revert Hw. apply wellFormed_field;
      [unfold sameField; fields; repeat split | reflexivity | left; reflexivity].
  - eexists. split; [reflexivity|].
    destruct (button =? 0)%Z; [|exact Hw]. unfold mouseup.
    destruct (State.charging s); [|exact Hw].
    apply shoot_wellFormed. revert Hw. apply wellFormed_field;
      [unfold sameField; fields; repeat split | reflexivity | left; reflexivity].
  - eexists. split; [reflexivity|]. unfold keydown. cbv zeta.
    set (s0 := State.set_keys _ s).
    assert (Hw0 : wellFormed s0).
    { revert Hw. apply wellFormed_field; subst s0;
        [unfold sameField; fields; repeat split | reflexivity | left; reflexivity]. }
    destruct (String.eqb key "Tab"); [|exact Hw0].
    apply cycleSelected_wellFormed. exact Hw0.
  - eexists. split; [reflexivity|]. unfold keyup.
    revert Hw. apply wellFormed_field;
      [unfold sameField; fields; repeat split | reflexivity | left; reflexivity].
Qed.

Lemma initState_wellFormed (now : Q) : wellFormed (initState now).
Proof.
  unfold initState, applyLevel. cbv zeta.
  split; [|split; [|split]].
  - split; fields; [rewrite LAST_LEVEL_value; cbn; lia | reflexivity].
  - unfold matesOk. fields. cbn. lia.
  - fields. reflexivity.
  - unfold capped, MAX_E, engagedCount. fields. cbn. discriminate.
Qed.

(** No session throws, and every state it passes through is well formed. *)
Lemma play_wellFormed (es : list Event) :
  forall s, wellFormed s -> exists s', play es s = Some s' /\ wellFormed s'.
Proof.
  induction es as [|e es IH]; intros s Hw; cbn [play].
  - exists s. auto.
  - destruct (handle_wellFormed e s Hw) as (u & -> & Hu). exact (IH u Hu).
Qed.

Lemma reachable_wellFormed (s : State.t) : reachable s -> wellFormed s.
Proof.
  intros (now & es & Hp).
  destruct (play_wellFormed es (initState now) (initState_wellFormed now))
    as (s' & Hp' & Hw).
  rewrite Hp in Hp'. injection Hp' as <-. exact Hw.
Qed.

(** In a reachable state the ball fits the field, as the wall resolution
    needs it. *)
Lemma reachable_fitsField (s : State.t) :
  reachable s -> fitsField (State.ball s).
Proof.
  intros Hr. destruct (reachable_wellFormed s Hr) as (_ & _ & Er & _).
  unfold fitsField. rewrite Er. unfold pad, BALL_R, H. lra.
Qed.

End Reachable.

(** ** The fetch handler of the service worker *)

Section ServiceWorker.
Variable network : SW.Request -> option SW.Response.
Variable selfOrigin : string.

Lemma sameUrl_refl (r : SW.Request) : SW.sameUrl r r = true.
Proof. unfold SW.sameUrl. rewrite !String.eqb_refl. reflexivity. Qed.

(** After [cache.put(req, res)] the cache answers [req] with [res]. *)
Lemma cache_match_put (c : SW.Cache) (req : SW.Request) (res : SW.Response) :
  SW.method req = "GET" ->
  SW.cache_match (SW.cache_put c req res) req = Some res.
Proof.
  intros Hg. unfold SW.cache_put.
  induction c as [|[k v] c IH]; cbn [filter app SW.cache_match fst].
  - rewrite Hg, sameUrl_refl. reflexivity.
  - destruct (SW.sameUrl k req) eqn:E; cbn [negb]; [exact IH|].
    cbn [app SW.cache_match]. rewrite E, andb_false_r. exact IH.
Qed.

(** After the backfill the cache storage answers [req] with [res], when no
    cache answered it before. *)
Lemma caches_match_open_put (cs : SW.CacheStorage) (req : SW.Request)
    (res : SW.Response) :
  SW.method req = "GET" ->
  SW.caches_match cs req = None ->
  SW.caches_match (SW.open_put SW.VERSION req res cs) req = Some res.
Proof.
  intros Hg. induction cs as [|[n c] cs IH]; cbn [SW.caches_match SW.open_put].
  - intros _. rewrite (cache_match_put [] req res Hg). reflexivity.
  - destruct (SW.cache_match c req) eqn:Ec; [discriminate|]. intros Hrest.
    destruct (String.eqb n SW.VERSION); cbn [SW.caches_match].
    + rewrite (cache_match_put c req res Hg). reflexivity.
    + rewrite Ec. exact (IH Hrest).
Qed.

Lemma onFetch_inScope (req : SW.Request) (w : SW.World) :
  SW.inScope selfOrigin req ->
  SW.onFetch network selfOrigin req w
  = (let (p, w') := SW.cacheFirst network req w in (SW.RespondWith p, w')).
Proof.
  intros (Ho & Hp & Hm). unfold SW.onFetch.
  rewrite Ho, String.eqb_refl, Hp, Hm. reflexivity.
Qed.

Lemma caches_match_open_cache (name : string) (cs : SW.CacheStorage)
    (q : SW.Request) :
  SW.caches_match (SW.open_cache name cs) q = SW.caches_match cs q.
Proof.
  induction cs as [|[n c] cs IH]; cbn [SW.open_cache SW.caches_match];
    [reflexivity|].
  destruct (String.eqb n name); cbn [SW.caches_match];
    [reflexivity | rewrite IH; reflexivity].
Qed.

(** After a put into the cache of the version, the caches of the version
    answer the request with the response put. *)
Lemma versionMatch_put (cs : SW.CacheStorage) (req : SW.Request)
    (res : SW.Response) :
  SW.method req = "GET" ->
  versionMatch (SW.open_put SW.VERSION req res cs) req = Some res.
Proof.
  intros Hg. unfold versionMatch.
  induction cs as [|[n c] cs IH]; cbn [SW.open_put filter fst].
  - rewrite String.eqb_refl. cbn [SW.caches_match].
    rewrite (cache_match_put [] req res Hg). reflexivity.
  - destruct (String.eqb n SW.VERSION) eqn:En; cbn [filter fst]; rewrite En.
    + cbn [SW.caches_match]. rewrite (cache_match_put c req res Hg).
      reflexivity.
    + exact IH.
Qed.

Lemma settle_unfold (n : nat) (req : SW.Request) (res : SW.Response)
    (w : SW.World) :
  nth_error (SW.pending w) n = Some (req, res) ->
  SW.method req = "GET" ->
  SW.caches (SW.settle n w)
  = if SW.storable res then SW.open_put SW.VERSION req res (SW.caches w)
    else SW.open_cache SW.VERSION (SW.caches w).
Proof.
  intros Hn Hg. unfold SW.settle. rewrite Hn, Hg. reflexivity.
Qed.

(** C9 (as amended): for a same-origin GET request inside the /kickcraft/
    scope the fetch handler answers from the cache when some cache holds a
    response, without sending anything to the network.  Otherwise it sends
    the request to the network once.  When the network answers, it hands
    that response on and starts a put into the versioned cache without
    waiting for it; when that put settles, the response is stored, and
    found by the next lookup if the request was still unanswered then,
    unless the response is a partial one (status 206): then the put rejects
    and the caches answer as before.  When the network fails, the promise
    is fulfilled with the outcome of the cache lookup, which is empty in
    this branch: there is no response to fall back to and the promise does
    not reject. *)
Theorem fetch_cache_first (req : SW.Request) (w : SW.World) :
  SW.inScope selfOrigin req ->
  (forall cached,
      SW.caches_match (SW.caches w) req = Some cached ->
      SW.onFetch network selfOrigin req w
        = (SW.RespondWith (SW.Fulfilled (Some cached)), w)) /\
  (forall res,
      SW.caches_match (SW.caches w) req = None ->
      network req = Some res ->
      SW.onFetch network selfOrigin req w
        = (SW.RespondWith (SW.Fulfilled (Some res)),
           SW.mkWorld (SW.caches w) (SW.fetched w ++ [req])%list
             (SW.pending w ++ [(req, res)])%list) /\
      forall n w',
        nth_error (SW.pending w') n = Some (req, res) ->
        (SW.status res <> 206%Z ->
         versionMatch (SW.caches (SW.settle n w')) req = Some res /\
         (SW.caches_match (SW.caches w') req = None ->
          SW.caches_match (SW.caches (SW.settle n w')) req = Some res)) /\
        (SW.status res = 206%Z ->
         forall q,
           SW.caches_match (SW.caches (SW.settle n w')) q
           = SW.caches_match (SW.caches w') q)) /\
  (SW.caches_match (SW.caches w) req = None ->
   network req = None ->
   SW.onFetch network selfOrigin req w
     = (SW.RespondWith (SW.Fulfilled None),
        SW.mkWorld (SW.caches w) (SW.fetched w ++ [req])%list
          (SW.pending w))).
Proof.
  intros Hs. pose proof (onFetch_inScope req w Hs) as E.
  destruct Hs as (_ & _ & Hget).
  unfold SW.cacheFirst, SW.bind, SW.matchAll in E.
  split; [|split].
  - intros cached Hc. rewrite Hc in E. cbn [SW.truthy SW.ret] in E.
    exact E.
  - intros res Hc Hn. rewrite Hc in E.
    unfold SW.fetch, SW.put, SW.then_, SW.catch_, SW.bind, SW.ret in E.
    rewrite Hn in E. cbn [SW.truthy SW.caches SW.fetched SW.pending] in E.
    split; [exact E|].
    intros n w' Hp. pose proof (settle_unfold n req res w' Hp Hget) as Es.
    unfold SW.storable in Es. split.
    + intros Hst. apply Z.eqb_neq in Hst. rewrite Hst in Es. cbn [negb] in Es.
      rewrite Es. split; [apply versionMatch_put; exact Hget|].
      intros Hmiss. apply caches_match_open_put; assumption.
    + intros Hst. apply Z.eqb_eq in Hst. rewrite Hst in Es. cbn [negb] in Es.
      intros q. rewrite Es. apply caches_match_open_cache.
  - intros Hc Hn. rewrite Hc in E.
    unfold SW.fetch, SW.put, SW.then_, SW.catch_, SW.bind, SW.ret in E.
    rewrite Hn in E. cbn [SW.truthy SW.caches SW.fetched SW.pending] in E.
    exact E.
Qed.

End ServiceWorker.

Lemma fetch_cache_first_witness :
  SW.onFetch SW.offline "https://richducat.github.io" SW.indexRequest
    SW.installed
  = (SW.RespondWith (SW.Fulfilled (Some SW.indexPage)), SW.installed).
Proof.
  assert (Hs : SW.inScope "https://richducat.github.io" SW.indexRequest).
  { repeat split. }
  destruct (fetch_cache_first SW.offline "https://richducat.github.io"
              SW.indexRequest SW.installed Hs) as (Hhit & _ & _).
  exact (Hhit SW.indexPage eq_refl).
Defined.

(** C9 fails as stated in two places.  A partial response is handed on but
    never stored: after its put has settled, the request is still
    unanswered by the caches.  And a failed fetch is not propagated: the
    promise of the handler is fulfilled, with no response, and there is no
    cached response it could fall back to. *)
Lemma fetch_gaps :
  SW.inScope "https://richducat.github.io" SW.creditsRequest /\
  SW.caches_match (SW.caches SW.installed) SW.creditsRequest = None /\
  (fst (SW.onFetch SW.ranged "https://richducat.github.io"
          SW.creditsRequest SW.installed)
   = SW.RespondWith (SW.Fulfilled (Some SW.partialContent)) /\
   SW.caches_match
     (SW.caches
        (SW.settle 0
           (snd (SW.onFetch SW.ranged "https://richducat.github.io"
                   SW.creditsRequest SW.installed))))
     SW.creditsRequest
   = None) /\
  (SW.offline SW.creditsRequest = None /\
   fst (SW.onFetch SW.offline "https://richducat.github.io"
          SW.creditsRequest SW.installed)
   = SW.RespondWith (SW.Fulfilled None) /\
   fst (SW.onFetch SW.offline "https://richducat.github.io"
          SW.creditsRequest SW.installed)
   <> SW.RespondWith SW.Rejected).
Proof.
  split; [repeat split|]. split; [reflexivity|]. split.
  - split; reflexivity.
  - split; [reflexivity|]. split; [reflexivity | discriminate].
Qed.

(** ** The engagement cap *)

Section EngagementCap.
Context {M : MathLib}.

(** C4: the number of defenders whose [engaged] flag is set never exceeds
    the maximum number of engagers of the active tier.  From any state whose
    tier is one of [LEVELS] and whose mate indices point at mates, a tick
    runs to its end and its result respects the cap, wherever the defenders
    stand; and every state that a session can reach from the initial state
    respects the cap, before and after any further event. *)
Theorem engagement_cap (s : State.t) :
  (tierOk s -> matesOk s ->
   forall dt, exists s',
     update dt s = Some s' /\
     inject_Z (Z.of_nat (engagedCount (State.defenders s'))) <= MAX_E s') /\
  (reachable s ->
   inject_Z (Z.of_nat (engagedCount (State.defenders s))) <= MAX_E s /\
   forall e, exists s',
     handle e s = Some s' /\
     inject_Z (Z.of_nat (engagedCount (State.defenders s'))) <= MAX_E s').
Proof.
  split.
  - intros Ht Hm dt.
    destruct (update_inv dt s Ht Hm) as (s' & Hu & _ & _ & Hc).
    exists s'. split; [exact Hu | exact Hc].
  - intros Hr. pose proof (reachable_wellFormed s Hr) as Hw.
    split; [exact (proj2 (proj2 (proj2 Hw)))|].
    intros e. destruct (handle_wellFormed e s Hw) as (s' & He & Hw').
    exists s'. split; [exact He | exact (proj2 (proj2 (proj2 Hw')))].
Qed.

End EngagementCap.

Lemma engagement_cap_witness :
  List.length (withinRadius crowdState) = 6%nat /\
  MAX_E crowdState == 2 /\
  exists s',
    @update refMath 0.016 crowdState = Some s' /\
    inject_Z (Z.of_nat (engagedCount (State.defenders s'))) <= MAX_E s'.
Proof.
  split; [vm_compute; reflexivity|]. split; [reflexivity|].
  assert (Ht : tierOk crowdState).
  { split; [vm_compute; split; discriminate | reflexivity]. }
  assert (Hm : matesOk crowdState).
  { vm_compute. repeat split; discriminate. }
  exact (proj1 (engagement_cap (M := refMath) crowdState) Ht Hm 0.016).
Defined.

(* ====================================================================== *)
(** * Further properties of the code *)

(** ** Projection and field geometry *)

Lemma unproject_fraction (py : Q) :
  PERS.top <= py <= PERS.bottom ->
  0 <= (py - PERS.top) / (PERS.bottom - PERS.top) * H <= H.
Proof.
  unfold PERS.top, PERS.bottom, H. intros [Hlo Hhi].
  assert (E : (py - 24) / (620 - 24 - 24) * 620 == (py - 24) * (155 # 143))
    by field.
  rewrite E. split; lra.
Qed.

(** The other round trip: a screen point between the top and the bottom
    margin goes to the world and back to itself. *)
Theorem unproject_project_roundtrip (px py : Q) :
  PERS.top <= py <= PERS.bottom ->
  pr_x (project (pt_x (unproject px py)) (pt_y (unproject px py))) == px /\
  pr_y (project (pt_x (unproject px py)) (pt_y (unproject px py))) == py.
Proof.
  intros Hpy. pose proof (unproject_fraction py Hpy) as [Hlo Hhi].
  unfold unproject, project; cbn [pr_x pr_y pt_x pt_y].
  set (v := (py - PERS.top) / (PERS.bottom - PERS.top) * H) in *.
  assert (Ey : Qmax 0 (Qmin H v) == v).
  { rewrite (Q.min_r H v) by exact Hhi. rewrite (Q.max_r 0 v) by exact Hlo.
    reflexivity. }
  rewrite orElse_scale. rewrite !Ey.
  pose proof (scaleAtY_pos v) as Hs.
  split.
  - field. lra.
  - subst v. unfold PERS.top, PERS.bottom, H. field.
Qed.

Lemma unproject_project_roundtrip_witness :
  pr_x (project (pt_x (unproject 900 100)) (pt_y (unproject 900 100))) == 900 /\
  pr_y (project (pt_x (unproject 900 100)) (pt_y (unproject 900 100))) == 100.
Proof.
  apply (unproject_project_roundtrip 900 100).
  unfold PERS.top, PERS.bottom, H. split; lra.
Defined.

(** A pointer above the top margin or below the bottom margin is taken to
    the far, respectively the near, goal line of the world. *)
Theorem unproject_outside (px py : Q) :
  (py <= PERS.top -> pt_y (unproject px py) == 0) /\
  (PERS.bottom <= py -> pt_y (unproject px py) == H).
Proof.
  unfold unproject; cbn [pt_y].
  assert (E : (py - PERS.top) / (PERS.bottom - PERS.top) * H
              == (py - 24) * (155 # 143))
    by (unfold PERS.top, PERS.bottom, H; field).
  rewrite E. unfold PERS.top, PERS.bottom, H. split; intros Hp.
  - rewrite (Q.max_l 0); [reflexivity|].
    eapply Qle_trans; [apply Q.le_min_r|]. lra.
  - rewrite (Q.min_l 620) by lra. rewrite (Q.max_r 0) by lra. reflexivity.
Qed.


(** A point of the world field is drawn inside the border trapezoid: its
    screen y lies between the margins and its screen x between the two
    slanted edges at its depth, which lie between the far and the near
    half-widths. *)
Theorem project_inside_trapezoid (x y : Q) :
  0 <= x <= W -> 0 <= y <= H ->
  PERS.top <= pr_y (project x y) <= PERS.bottom /\
  W / 2 - (W / 2) * pr_s (project x y) <= pr_x (project x y)
    <= W / 2 + (W / 2) * pr_s (project x y) /\
  PERS.sFar <= pr_s (project x y) <= PERS.sNear /\
  0 <= pr_x (project x y) <= W.
Proof.
  intros [Hx0 Hx1] [Hy0 Hy1].
  unfold project; cbn [pr_x pr_y pr_s].
  pose proof (scaleAtY_bounds y) as [Hs0 Hs1].
  set (s := scaleAtY y) in *.
  assert (Hq : 0 <= y / H <= 1).
  { unfold H in *. split.
    - apply Qle_shift_div_l; [reflexivity | lra].
    - apply Qle_shift_div_r; [reflexivity | lra]. }
  set (q := y / H) in *.
  assert (Ew : W / 2 == 550) by reflexivity. rewrite !Ew.
  assert (Hxs : 0 <= x * s).
  { apply Qmult_le_0_compat; [exact Hx0 | unfold PERS.sFar in Hs0; lra]. }
  assert (Hws : 0 <= (W - x) * s).
  { apply Qmult_le_0_compat; [lra | unfold PERS.sFar in Hs0; lra]. }
  unfold PERS.top, PERS.bottom, PERS.sFar, PERS.sNear, W, H in *.
  repeat split; lra.
Qed.

Lemma project_inside_trapezoid_witness :
  PERS.top <= pr_y (project 200 500) <= PERS.bottom /\
  0 <= pr_x (project 200 500) <= W.
Proof.
  assert (Hx : 0 <= 200 <= W) by (unfold W; split; lra).
  assert (Hy : 0 <= 500 <= H) by (unfold H; split; lra).
  destruct (project_inside_trapezoid 200 500 Hx Hy) as (A & _ & _ & B).
  split; [exact A | exact B].
Defined.


(** The grass stripes of [drawField] are the projections of fourteen equal
    bands of the world field: the top edge of stripe [i] runs between the
    projections of the two field corners at depth [i * H / 14], and the
    border trapezoid joins the projections of the four field corners. *)
Theorem stripes_are_projected_bands (i : nat) :
  (i <= 14)%nat ->
  let y := inject_Z (Z.of_nat i) * H / stripes in
  stripeY i == pr_y (project 0 y) /\
  stripeL i == pr_x (project 0 y) /\
  stripeR i == pr_x (project W y) /\
  (borderLT == pr_x (project 0 0) /\ borderRT == pr_x (project W 0) /\
   borderLB == pr_x (project 0 H) /\ borderRB == pr_x (project W H)).
Proof.
  intros Hi. cbv zeta.
  set (k := inject_Z (Z.of_nat i)).
  assert (Hk : 0 <= k <= 14).
  { subst k. split.
    - change 0 with (inject_Z 0). rewrite <- Zle_Qle. lia.
    - change 14 with (inject_Z 14). rewrite <- Zle_Qle. lia. }
  assert (Hy : 0 <= k * H / stripes <= H).
  { unfold H, stripes.
    assert (E : k * 620 / 14 == k * (310 # 7)) by field. rewrite E.
    split; lra. }
  assert (Es : scaleAtY (k * H / stripes)
               == PERS.sFar + (PERS.sNear - PERS.sFar) * (k / stripes)).
  { rewrite (scaleAtY_inside _ Hy). unfold H, stripes. field. }
  assert (E0 : scaleAtY 0 == PERS.sFar).
  { rewrite (scaleAtY_inside 0) by (unfold H; split; lra).
    unfold PERS.sFar, PERS.sNear, H. field. }
  assert (EH : scaleAtY H == PERS.sNear).
  { rewrite (scaleAtY_inside H) by (unfold H; split; lra).
    unfold PERS.sFar, PERS.sNear, H. field. }
  unfold stripeY, stripeL, stripeR, stripeS, borderLT, borderRT, borderLB,
    borderRB, project; cbn [pr_x pr_y]. fold k.
  rewrite Es, E0, EH.
  unfold PERS.top, PERS.bottom, PERS.sFar, PERS.sNear, W, H, stripes.
  repeat split; field.
Qed.

Lemma stripes_are_projected_bands_witness :
  stripeY 7 == pr_y (project 0 (H / 2)) /\
  stripeL 7 == pr_x (project 0 (H / 2)).
Proof.
  destruct (stripes_are_projected_bands 7 ltac:(lia)) as (A & B & _).
  cbv zeta in A, B.
  assert (E : inject_Z (Z.of_nat 7) * H / stripes = 7 * H / stripes)
    by reflexivity.
  rewrite E in A, B. clear E.
  assert (Ey : pr_y (project 0 (7 * H / stripes)) == pr_y (project 0 (H / 2)))
    by (vm_compute; reflexivity).
  assert (Ex : pr_x (project 0 (7 * H / stripes)) == pr_x (project 0 (H / 2)))
    by (vm_compute; reflexivity).
  rewrite <- Ey, <- Ex. split; assumption.
Defined.


Lemma unproject_outside_witness :
  pt_y (unproject 50 0) == 0 /\ pt_y (unproject 50 10000) == H.
Proof.
  destruct (unproject_outside 50 0) as (Htop & _).
  destruct (unproject_outside 50 10000) as (_ & Hbot).
  split; [apply Htop | apply Hbot]; apply Qle_bool_iff; reflexivity.
Defined.

(** ** Ball integration, goals and the score board *)

Lemma orElse_zero (x : Q) : orElse x 0 == x.
Proof.
  unfold orElse. destruct (Qeq_bool x 0) eqn:E; [|reflexivity].
  apply Qeq_bool_eq in E. rewrite E. reflexivity.
Qed.

(** One integration step of at most 33 ms: the position advances by the
    velocity, spin bends the horizontal velocity only, and drag shrinks both
    velocity components by the same factor without ever reversing them or
    letting the vertical speed grow. *)
Theorem integrate_drag (dt : Q) (b : Ball.t) :
  0 <= dt <= 0.033 ->
  let b' := integrate dt b in
  let k := 1 - 0.08 * dt in
  0 < k <= 1 /\
  Ball.y b' == Ball.y b + Ball.vy b * dt /\
  Ball.vy b' == Ball.vy b * k /\
  Qabs (Ball.vy b') <= Qabs (Ball.vy b) /\
  0 <= Ball.vy b * Ball.vy b' /\
  Ball.x b' == Ball.x b + (Ball.vx b + Ball.spin b * dt) * dt /\
  Ball.vx b' == (Ball.vx b + Ball.spin b * dt) * k /\
  Ball.r b' = Ball.r b /\ Ball.spin b' = Ball.spin b.
Proof.
  intros [Hd0 Hd1]. cbv zeta. unfold integrate. ball_fields.
  pose proof (orElse_zero (Ball.spin b)) as Es.
  set (k := 1 - 0.08 * dt).
  assert (Hk : 0 < k <= 1) by (subst k; split; lra).
  split; [exact Hk|]. split; [reflexivity|]. split; [reflexivity|].
  split.
  { rewrite Qabs_Qmult. rewrite (Qabs_pos k) by lra.
    pose proof (Qabs_nonneg (Ball.vy b)) as Ha.
    assert (Hm : 0 <= Qabs (Ball.vy b) * (1 - k))
      by (apply Qmult_le_0_compat; lra).
    lra. }
  split.
  { assert (E : Ball.vy b * (Ball.vy b * k) == (Ball.vy b * Ball.vy b) * k)
      by ring.
    rewrite E. apply Qmult_le_0_compat; [|lra].
    destruct (Qlt_le_dec (Ball.vy b) 0) as [Hn | Hp].
    - assert (E2 : Ball.vy b * Ball.vy b == (- Ball.vy b) * (- Ball.vy b))
        by ring.
      rewrite E2. apply Qmult_le_0_compat; lra.
    - apply Qmult_le_0_compat; lra. }
  split; [rewrite Es; reflexivity|].
  split; [rewrite Es; reflexivity|].
  split; reflexivity.
Qed.

Lemma integrate_drag_witness :
  Ball.vy (integrate 0.016 (Ball.mk 550 310 0 (-300) BALL_R 0))
  == -300 * (1 - 0.08 * 0.016).
Proof.
  assert (Hdt : 0 <= 0.016 <= 0.033) by (split; lra).
  destruct (integrate_drag 0.016 (Ball.mk 550 310 0 (-300) BALL_R 0) Hdt)
    as (_ & _ & E & _).
  exact E.
Defined.

Lemma homeGoal_against (s : State.t) :
  State.against (homeGoal s) = (State.against s + 1)%Z /\
  State.levelProgress (homeGoal s) = State.levelProgress s.
Proof. unfold homeGoal, resetBall. fields. auto. Qed.

Lemma awayGoal_ball (s : State.t) :
  Ball.y (State.ball (awayGoal s)) = H / 2 /\
  Ball.x (State.ball (awayGoal s)) = W / 2.
Proof.
  destruct (awayGoal_shape s) as (u & Eu & _). rewrite Eu.
  destruct (resetBall_fields u) as (Ex & Ey & _). auto.
Qed.

(** The home-goal branch: when the ball's trailing edge is over the near
    goal line inside the goal mouth (and the away test has not fired), the
    defending side's count goes up by one; the attacking score, the tier and
    its counter are left alone, and the ball and the possession are reset as
    after an away goal. *)
Theorem home_goal_concedes (s : State.t) :
  crossesAway (State.ball s) = false ->
  crossesHome (State.ball s) = true ->
  State.against (goals s) = (State.against s + 1)%Z /\
  State.score (goals s) = State.score s /\
  State.levelIdx (goals s) = State.levelIdx s /\
  State.levelProgress (goals s) = State.levelProgress s /\
  State.cfg (goals s) = State.cfg s /\
  (Ball.x (State.ball (goals s)) == W / 2 /\
   Ball.y (State.ball (goals s)) == H / 2 /\
   Ball.vx (State.ball (goals s)) == 0 /\
   Ball.vy (State.ball (goals s)) == 0) /\
  AI.carrier (State.ai (goals s)) = None /\
  AI.ptCarrier (State.ai (goals s)) = (-1)%Z.
Proof.
  intros Ha Hh.
  assert (E : goals s = homeGoal s) by (unfold goals; rewrite Ha, Hh; reflexivity).
  rewrite E.
  destruct (homeGoal_against s) as (A1 & A2).
  destruct (homeGoal_keeps s) as (_ & _ & _ & A3).
  destruct (homeGoal_progress s) as (A4 & A5).
  destruct (homeGoal_shape s) as (u & Eu & _).
  destruct (resetBall_fields u) as (f1 & f2 & f3 & f4 & _ & f6 & f7 & _).
  rewrite A1, A2, A3, A4, A5. rewrite Eu, f1, f2, f3, f4, f6, f7.
  repeat split; reflexivity.
Qed.

Lemma home_goal_concedes_witness :
  State.against (goals ownHalfState) = 1%Z /\
  State.score (goals ownHalfState) = 0%Z.
Proof.
  assert (Ha : crossesAway (State.ball ownHalfState) = false)
    by (vm_compute; reflexivity).
  assert (Hh : crossesHome (State.ball ownHalfState) = true)
    by (vm_compute; reflexivity).
  destruct (home_goal_concedes ownHalfState Ha Hh) as (A & B & _).
  split; [exact A | exact B].
Defined.

Lemma goals_board (s : State.t) :
  (State.score (goals s) = State.score s /\
   State.levelIdx (goals s) = State.levelIdx s \/
   State.score (goals s) = (State.score s + 1)%Z) /\
  (State.against (goals s) = State.against s \/
   State.against (goals s) = (State.against s + 1)%Z) /\
  (Ball.r (State.ball s) = BALL_R ->
   State.score (goals s) = (State.score s + 1)%Z ->
   State.against (goals s) = State.against s).
Proof.
  unfold goals. cbv zeta.
  destruct (awayGoal_keeps s) as (_ & _ & _ & As & Aa).
  destruct (crossesAway (State.ball s)).
  - destruct (crossesHome (State.ball (awayGoal s))) eqn:Eh.
    + destruct (homeGoal_keeps (awayGoal s)) as (_ & _ & _ & Hs).
      destruct (homeGoal_against (awayGoal s)) as (Ha & _).
      split; [right; congruence|]. split; [right; congruence|].
      intros Er _. exfalso.
      unfold crossesHome in Eh.
      destruct (awayGoal_ball s) as (Ey & _).
      pose proof (awayGoal_radius s) as Err. unfold sameRadius in Err.
      rewrite Ey, Err, Er in Eh.
      apply andb_true_iff in Eh. destruct Eh as (Eh & _).
      vm_compute in Eh. discriminate.
    + split; [right; exact As|]. split; [left; exact Aa|]. intros _ _. exact Aa.
  - destruct (crossesHome (State.ball s)).
    + destruct (homeGoal_keeps s) as (_ & _ & _ & Hs).
      destruct (homeGoal_against s) as (Ha & _).
      destruct (homeGoal_progress s) as (Hl & _).
      split; [left; auto|]. split; [right; exact Ha|].
      intros _ E. rewrite Hs in E. lia.
    + split; [left; auto|]. split; [left; reflexivity|]. reflexivity.
Qed.

Section ScoreBoard.
Context {M : MathLib}.

(** In one tick each side's count grows by one or stays, never both grow
    (for the ball of radius [BALL_R]), and the tier index only moves in a
    tick that scores for the attacking side. *)
Theorem update_score_step (dt : Q) (s s' : State.t) :
  update dt s = Some s' ->
  (State.score s' = State.score s \/ State.score s' = (State.score s + 1)%Z) /\
  (State.against s' = State.against s \/
   State.against s' = (State.against s + 1)%Z) /\
  (State.levelIdx s' <> State.levelIdx s ->
   State.score s' = (State.score s + 1)%Z) /\
  (Ball.r (State.ball s) = BALL_R ->
   State.score s' = (State.score s + 1)%Z ->
   State.against s' = State.against s).
Proof.
  intros Hu.
  destruct (update_progress dt s s' Hu) as (Es & Ea & El & _).
  destruct (beforeGoals_progress dt s) as (Bs & Ba & Bl & _).
  pose proof (beforeGoals_radius dt s) as Br. unfold sameRadius in Br.
  destruct (goals_board (beforeGoals dt s)) as (Gs & Ga & Gx).
  rewrite Es, Ea, El. rewrite Bs, Ba, Bl, Br in *.
  repeat split.
  - destruct Gs as [(G & _) | G]; auto.
  - exact Ga.
  - intros Hne. destruct Gs as [(_ & G) | G]; [contradiction | exact G].
  - exact Gx.
Qed.

End ScoreBoard.

Lemma update_score_step_witness :
  option_map State.score (@update refMath 0.016 goalState) = Some 1%Z /\
  option_map State.against (@update refMath 0.016 goalState) = Some 0%Z.
Proof.
  destruct (@update refMath 0.016 goalState) as [s'|] eqn:Hu;
    [|vm_compute in Hu; discriminate].
  destruct (update_score_step (M := refMath) 0.016 goalState s' Hu)
    as (_ & _ & _ & Hx).
  assert (Hs : State.score s' = 1%Z).
  { assert (E : option_map State.score (@update refMath 0.016 goalState)
                = Some 1%Z) by (vm_compute; reflexivity).
    rewrite Hu in E. injection E as E. exact E. }
  cbn [option_map]. split; [rewrite Hs; reflexivity|].
  rewrite (Hx eq_refl Hs). reflexivity.
Defined.

(** ** Passing, shooting, dribbling and the selection *)

(** The velocity [(dx / d * speed, dy / d * speed)] with [d = h || 1],
    when [h] is the Euclidean length of [(dx, dy)]: off the origin its
    length is [speed] and it points along [(dx, dy)]; at the origin the
    guard fires and the velocity is zero. *)
Lemma aimed_velocity (dx dy speed h : Q) :
  0 <= h -> h * h == dx * dx + dy * dy ->
  (~ (dx == 0 /\ dy == 0) ->
   (dx / orElse h 1 * speed) * (dx / orElse h 1 * speed)
   + (dy / orElse h 1 * speed) * (dy / orElse h 1 * speed) == speed * speed /\
   (0 < speed ->
    0 < (dx / orElse h 1 * speed) * dx + (dy / orElse h 1 * speed) * dy)) /\
  (dx == 0 /\ dy == 0 ->
   dx / orElse h 1 * speed == 0 /\ dy / orElse h 1 * speed == 0).
Proof.
  intros Hh Hsq. unfold orElse. destruct (Qeq_bool h 0) eqn:E.
  - apply Qeq_bool_eq in E. split.
    + intros Hn. exfalso. apply Hn.
      assert (Hz : dx * dx + dy * dy == 0) by (rewrite <- Hsq, E; ring).
      split; nra.
    + intros (Hx & Hy). rewrite Hx, Hy. split; field.
  - apply Qeq_bool_neq in E.
    assert (Hpos : 0 < h).
    { destruct (Qle_lt_or_eq _ _ Hh) as [Hlt | Heq]; [exact Hlt|].
      exfalso. apply E. symmetry. exact Heq. }
    split.
    + intros _. split.
      * setoid_replace (dx / h * speed * (dx / h * speed)
                        + dy / h * speed * (dy / h * speed))
          with ((dx * dx + dy * dy) * (speed * speed) / (h * h))
          by (field; exact E).
        rewrite <- Hsq. field. exact E.
      * intros Hs.
        setoid_replace (dx / h * speed * dx + dy / h * speed * dy)
          with ((dx * dx + dy * dy) * speed / h) by (field; exact E).
        rewrite <- Hsq.
        setoid_replace (h * h * speed / h) with (h * speed)
          by (field; exact E).
        apply Qmult_lt_0_compat; assumption.
    + intros (Hx & Hy). exfalso. apply E.
      assert (Hz : h * h == 0) by (rewrite Hsq, Hx, Hy; ring).
      nra.
Qed.

Section Kicks.
Context {M : MathLib}.

(** A pass to an existing mate leaves the ball where it is, clears its
    spin, and gives it the velocity [(dx / d, dy / d) * speed], where
    [(dx, dy)] leads from the ball to the mate, [d] is [hypot dx dy || 1]
    and [speed] is 5 times [d] clamped to [PASS_MIN, PASS_MAX].  When
    [hypot] is the Euclidean length, the ball then moves toward the mate
    with exactly that speed, unless the mate stands on the ball: there the
    guard fires and the ball is left with velocity zero, below the pass
    band. *)
Theorem pass_speed_band (idx : Z) (m : Player.t) (s : State.t) :
  nthZ (State.mates s) idx = Some m ->
  let b := State.ball s in
  let b' := State.ball (passToIndex idx s) in
  let dx := Player.x m - Ball.x b in
  let dy := Player.y m - Ball.y b in
  let d := orElse (hypot dx dy) 1 in
  let speed := Qmin PASS_MAX (Qmax PASS_MIN (5 * d)) in
  ~ d == 0 /\
  PASS_MIN <= speed <= PASS_MAX /\
  (PASS_MIN <= 5 * d <= PASS_MAX -> speed == 5 * d) /\
  Ball.vx b' == dx / d * speed /\
  Ball.vy b' == dy / d * speed /\
  Ball.vx b' * dy == Ball.vy b' * dx /\
  Ball.spin b' == 0 /\
  Ball.x b' = Ball.x b /\ Ball.y b' = Ball.y b /\ Ball.r b' = Ball.r b /\
  (0 <= hypot dx dy -> hypot dx dy * hypot dx dy == dx * dx + dy * dy ->
   (~ (dx == 0 /\ dy == 0) ->
    Ball.vx b' * Ball.vx b' + Ball.vy b' * Ball.vy b' == speed * speed /\
    0 < Ball.vx b' * dx + Ball.vy b' * dy) /\
   (dx == 0 /\ dy == 0 -> Ball.vx b' == 0 /\ Ball.vy b' == 0)).
Proof.
  intros Hm. cbv zeta. unfold passToIndex. rewrite Hm. fields.
  set (dx := Player.x m - Ball.x (State.ball s)).
  set (dy := Player.y m - Ball.y (State.ball s)).
  assert (Hd : ~ orElse (hypot dx dy) 1 == 0).
  { unfold orElse. destruct (Qeq_bool (hypot dx dy) 0) eqn:E.
    - intros H1. discriminate H1.
    - apply Qeq_bool_neq in E. exact E. }
  pose proof (aimed_velocity dx dy
                (Qmin PASS_MAX (Qmax PASS_MIN (5 * orElse (hypot dx dy) 1)))
                (hypot dx dy)) as Haim.
  set (d := orElse (hypot dx dy) 1) in *.
  set (speed := Qmin PASS_MAX (Qmax PASS_MIN (5 * d))) in *.
  assert (Hb : PASS_MIN <= speed <= PASS_MAX).
  { subst speed. split.
    - apply Q.min_glb; [unfold PASS_MIN, PASS_MAX; lra | apply Q.le_max_l].
    - apply Q.le_min_l. }
  split; [exact Hd|]. split; [exact Hb|]. split.
  { intros [H1 H2]. subst speed.
    rewrite (Q.max_r PASS_MIN (5 * d)) by exact H1.
    rewrite (Q.min_r PASS_MAX (5 * d)) by exact H2. reflexivity. }
  split; [reflexivity|]. split; [reflexivity|].
  split; [field; exact Hd|].
  split; [reflexivity|]. split; [reflexivity|]. split; [reflexivity|].
  split; [reflexivity|].
  intros Hh Hsq. destruct (Haim Hh Hsq) as (Hoff & Hon).
  split; [|exact Hon].
  intros Hn. destruct (Hoff Hn) as (Hlen & Hdir).
  split; [exact Hlen|]. apply Hdir.
  destruct Hb as (Hb & _). unfold PASS_MIN in Hb. lra.
Qed.

(** A shot leaves the ball where it is and gives it the velocity
    [(cos a, sin a) * spd]: the angle is the aim direction plus the spray,
    the speed lies between 307.5 and 944, between 375 and 800 for a plain
    shot, and is 800 for a plain shot held for 900 ms or more.  Only a
    finesse shot (Shift without Ctrl) carries spin, 85 toward the side the
    aim point lies on. *)
Theorem shot_speed (now : Q) (s : State.t) :
  let b := State.ball s in
  let b' := State.ball (shoot now s) in
  let dx := pt_x (State.aim s) - Ball.x b in
  let dy := pt_y (State.aim s) - Ball.y b in
  let a := atan2 dy dx + (random (State.rng s) - 0.5) * SHOT_SPRAY in
  let finesse := Mod.shift (State.mod_ s) && negb (Mod.ctrl (State.mod_ s)) in
  let driven := Mod.ctrl (State.mod_ s) && negb (Mod.shift (State.mod_ s)) in
  exists spd,
    Ball.vx b' == cos a * spd /\
    Ball.vy b' == sin a * spd /\
    307.5 <= spd <= 944 /\
    (finesse = false -> driven = false ->
     375 <= spd <= 800 /\ (900 <= now - State.t0 s -> spd == 800)) /\
    (finesse = false -> Ball.spin b' == 0) /\
    (finesse = true ->
     (0 < dx -> Ball.spin b' == FINESSE_SPIN) /\
     (dx <= 0 -> Ball.spin b' == - FINESSE_SPIN)) /\
    Ball.x b' = Ball.x b /\ Ball.y b' = Ball.y b /\ Ball.r b' = Ball.r b /\
    State.rng (shoot now s) = S (State.rng s).
Proof.
  cbv zeta. unfold shoot. fields.
  set (pwr := Qmax 0.15 (Qmin 1 (Qmin 900 (now - State.t0 s) / 900))).
  assert (Hp : 0.15 <= pwr <= 1).
  { subst pwr. split; [apply Q.le_max_l|].
    apply Q.max_lub; [lra | apply Q.le_min_l]. }
  set (finesse := Mod.shift (State.mod_ s) && negb (Mod.ctrl (State.mod_ s))).
  set (driven := Mod.ctrl (State.mod_ s) && negb (Mod.shift (State.mod_ s))).
  set (speedF := if finesse then FINESSE_SPEED_F
                 else if driven then DRIVEN_SPEED_F else 1.0).
  exists ((300 + pwr * 500) * speedF).
  split; [reflexivity|]. split; [reflexivity|].
  assert (Hf : 0.82 <= speedF <= 1.18).
  { subst speedF. unfold FINESSE_SPEED_F, DRIVEN_SPEED_F.
    destruct finesse, driven; split; lra. }
  split.
  { assert (H1 : 0 <= (300 + pwr * 500 - 375) * (speedF - 0.82))
      by (apply Qmult_le_0_compat; lra).
    assert (H2 : 0 <= (800 - (300 + pwr * 500)) * (1.18 - speedF))
      by (apply Qmult_le_0_compat; lra).
    assert (H3 : 0 <= pwr * 500 * (1.18 - speedF))
      by (apply Qmult_le_0_compat; lra).
    split; lra. }
  split.
  { intros Ef Ed. subst speedF. rewrite Ef, Ed.
    split; [split; lra|].
    intros Hh. subst pwr.
    rewrite (Q.min_l 900 (now - State.t0 s)) by exact Hh.
    assert (E1 : 900 / 900 == 1) by reflexivity. rewrite E1.
    rewrite (Q.min_l 1 1) by lra. rewrite (Q.max_r 0.15 1) by lra.
    reflexivity. }
  split; [intros Ef; rewrite Ef; reflexivity|].
  split.
  { intros Ef. rewrite Ef. split; intros Hx.
    - apply Qltb_true in Hx. rewrite Hx. reflexivity.
    - apply Qltb_false in Hx. rewrite Hx. reflexivity. }
  repeat split; reflexivity.
Qed.

(** The carrier step of the attacking side.  A carrier that is not the
    selected player walks straight up the field by [TEAMMATE_SPEED * dt],
    but never past y = 60, with the ball 12 units ahead of him and at rest;
    so the ball he carries (radius [BALL_R]) never crosses the far goal
    line.  A carrier that is the selected player has the ball put 12 units
    ahead of him, at rest and without spin. *)
Theorem carrier_walks_to_line (dt : Q) (s s' : State.t) :
  carryMate dt s = Some s' ->
  let pc := AI.ptCarrier (State.ai s) in
  (pc <> State.selectedIdx s -> (0 <= pc)%Z ->
   exists m m',
     nthZ (State.mates s) pc = Some m /\
     nthZ (State.mates s') pc = Some m' /\
     Player.x m' = Player.x m /\
     Player.y m' == Qmax (awayY + 24) (Player.y m - TEAMMATE_SPEED * dt) /\
     60 <= Player.y m' /\
     Ball.x (State.ball s') = Player.x m' /\
     Ball.y (State.ball s') = Player.y m' - 12 /\
     Ball.vx (State.ball s') = 0 /\ Ball.vy (State.ball s') = 0 /\
     (Ball.r (State.ball s) = BALL_R -> crossesAway (State.ball s') = false)) /\
  (pc = State.selectedIdx s ->
   exists m,
     nthZ (State.mates s) pc = Some m /\
     State.mates s' = State.mates s /\
     Ball.x (State.ball s') = Player.x m /\
     Ball.y (State.ball s') = Player.y m - 12 /\
     Ball.vx (State.ball s') = 0 /\ Ball.vy (State.ball s') = 0 /\
     Ball.spin (State.ball s') = 0) /\
  (pc <> State.selectedIdx s -> (pc < 0)%Z -> s' = s).
Proof.
  cbv zeta. unfold carryMate. cbv zeta.
  destruct (AI.ptCarrier (State.ai s) =? State.selectedIdx s)%Z eqn:Esel.
  - apply Z.eqb_eq in Esel.
    destruct (nthZ (State.mates s) (State.selectedIdx s)) as [m|] eqn:Em;
      [|discriminate].
    intros [= <-]. split; [intros Hne; contradiction|].
    split; [|intros Hne; contradiction].
    intros _. exists m. rewrite Esel. fields. repeat split. exact Em.
  - apply Z.eqb_neq in Esel.
    destruct (0 <=? AI.ptCarrier (State.ai s))%Z eqn:Epos.
    + apply Z.leb_le in Epos.
      destruct (nthZ (State.mates s) (AI.ptCarrier (State.ai s))) as [m|] eqn:Em;
        [|discriminate].
      intros [= <-]. split; [|split; [intros E; contradiction | intros _ Hn; lia]].
      intros _ _.
      set (y' := Player.y m
                 + (Qmax (awayY + 24) (Player.y m - TEAMMATE_SPEED * dt)
                    - Player.y m)).
      assert (Ey : y' == Qmax (awayY + 24) (Player.y m - TEAMMATE_SPEED * dt))
        by (subst y'; ring).
      assert (Hy : 60 <= y').
      { rewrite Ey. eapply Qle_trans; [|apply Q.le_max_l]. unfold awayY. lra. }
      exists m, (Player.set_y y' m).
      split; [reflexivity|]. fields.
      split.
      { unfold nthZ in *.
        destruct (AI.ptCarrier (State.ai s) <? 0)%Z; [discriminate|].
        revert Em. generalize (Z.to_nat (AI.ptCarrier (State.ai s))).
        generalize (State.mates s). clear.
        induction l as [|a l IH]; intros [|n] Hn; cbn in *;
          try discriminate; [reflexivity | apply IH; exact Hn]. }
      split; [reflexivity|]. split; [exact Ey|]. split; [exact Hy|].
      split; [reflexivity|]. split; [reflexivity|].
      split; [reflexivity|]. split; [reflexivity|].
      intros Er. unfold crossesAway. fields. rewrite Er.
      apply andb_false_iff. left. apply Qltb_false.
      unfold awayY, BALL_R. lra.
    + apply Z.leb_gt in Epos. intros [= <-].
      split; [intros _ Hp; lia|]. split; [intros E; contradiction|].
      reflexivity.
Qed.

(** The selected player never leaves the field: after his move he is at
    least 24 units inside every edge, whatever keys are held; with no key
    held he stays where he is (clamped into the field). *)
Theorem selected_mate_in_field (dt : Q) (s : State.t) (i : nat) (m : Player.t) :
  Z.of_nat i = State.selectedIdx s ->
  let m' := moveMate dt s i m in
  24 <= Player.x m' <= W - 24 /\
  24 <= Player.y m' <= H - 24 /\
  Player.phase m' == Player.phase m + dt /\
  (State.keys s = Keys.mk false false false false false false false false ->
   Player.x m' == Qmax 24 (Qmin (W - 24) (Player.x m)) /\
   Player.y m' == Qmax 24 (Qmin (H - 24) (Player.y m))).
Proof.
  intros Hsel. cbv zeta. unfold moveMate. cbv zeta.
  rewrite Hsel, Z.eqb_refl. fields.
  split; [split; [apply Q.le_max_l | apply Q.max_lub;
                   [unfold W; lra | apply Q.le_min_l]]|].
  split; [split; [apply Q.le_max_l | apply Q.max_lub;
                   [unfold H; lra | apply Q.le_min_l]]|].
  split; [reflexivity|].
  intros Hk. rewrite Hk. cbn [Keys.w Keys.a Keys.s Keys.d Keys.ArrowLeft
                               Keys.ArrowRight Keys.ArrowUp Keys.ArrowDown orb].
  unfold keyAxis.
  assert (E0 : forall mag step x, x + (0 + 0) / mag * step == x).
  { intros mag step x. unfold Qdiv. ring. }
  rewrite !E0. split; reflexivity.
Qed.

(** [cycleSelected] steps the selection modulo the number of mates: the
    result is a valid index for any direction, and stepping back undoes a
    step. *)
Theorem cycle_wraps (dir : Z) (s : State.t) :
  (0 < Z.of_nat (List.length (State.mates s)))%Z ->
  let n := Z.of_nat (List.length (State.mates s)) in
  State.selectedIdx (cycleSelected dir s)
    = ((State.selectedIdx s + dir) mod n)%Z /\
  (0 <= State.selectedIdx (cycleSelected dir s) < n)%Z /\
  State.mates (cycleSelected dir s) = State.mates s /\
  ((0 <= State.selectedIdx s < n)%Z ->
   State.selectedIdx (cycleSelected (- dir) (cycleSelected dir s))
     = State.selectedIdx s).
Proof.
  intros Hn. cbv zeta.
  assert (Hrem : forall a n : Z, (0 < n)%Z ->
            Z.rem (Z.rem a n + n) n = (a mod n)%Z).
  { intros a n Hpos.
    pose proof (Z.rem_bound_abs a n ltac:(lia)) as Hb.
    pose proof (Z.quot_rem' a n) as Hq.
    rewrite Z.rem_mod_nonneg by lia.
    replace (Z.rem a n + n)%Z with (a + (1 - Z.quot a n) * n)%Z by lia.
    apply Z.mod_add. lia. }
  assert (E1 : State.selectedIdx (cycleSelected dir s)
               = ((State.selectedIdx s + dir)
                    mod Z.of_nat (List.length (State.mates s)))%Z).
  { unfold cycleSelected. fields. apply Hrem. exact Hn. }
  assert (Em : State.mates (cycleSelected dir s) = State.mates s)
    by (unfold cycleSelected; fields; reflexivity).
  split; [exact E1|]. split; [rewrite E1; apply Z.mod_pos_bound; exact Hn|].
  split; [exact Em|].
  intros Hs.
  assert (E2 : State.selectedIdx (cycleSelected (- dir) (cycleSelected dir s))
               = ((State.selectedIdx (cycleSelected dir s) + - dir)
                    mod Z.of_nat (List.length
                                    (State.mates (cycleSelected dir s))))%Z).
  { unfold cycleSelected at 1. fields. apply Hrem. rewrite Em. exact Hn. }
  rewrite E2, Em, E1.
  rewrite Zplus_mod_idemp_l.
  replace (State.selectedIdx s + dir + - dir)%Z with (State.selectedIdx s)
    by lia.
  apply Z.mod_small. exact Hs.
Qed.

End Kicks.

Lemma pass_speed_band_witness :
  Ball.vx (State.ball (@passToIndex refMath 2 passState))
  * Ball.vx (State.ball (@passToIndex refMath 2 passState))
  + Ball.vy (State.ball (@passToIndex refMath 2 passState))
    * Ball.vy (State.ball (@passToIndex refMath 2 passState))
  == 360 * 360.
Proof.
  assert (Hm : nthZ (State.mates passState) 2 = Some centreBack)
    by reflexivity.
  destruct (pass_speed_band (M := refMath) 2 centreBack passState Hm)
    as (_ & _ & _ & _ & _ & _ & _ & _ & _ & _ & Heu).
  assert (Hh : 0 <= @hypot refMath
                      (Player.x centreBack - Ball.x (State.ball passState))
                      (Player.y centreBack - Ball.y (State.ball passState)))
    by (apply Qle_bool_iff; vm_compute; reflexivity).
  assert (Hsq : @hypot refMath
                  (Player.x centreBack - Ball.x (State.ball passState))
                  (Player.y centreBack - Ball.y (State.ball passState))
                * @hypot refMath
                    (Player.x centreBack - Ball.x (State.ball passState))
                    (Player.y centreBack - Ball.y (State.ball passState))
                == (Player.x centreBack - Ball.x (State.ball passState))
                   * (Player.x centreBack - Ball.x (State.ball passState))
                   + (Player.y centreBack - Ball.y (State.ball passState))
                     * (Player.y centreBack - Ball.y (State.ball passState)))
    by (apply Qeq_bool_eq; vm_compute; reflexivity).
  destruct (Heu Hh Hsq) as (Hoff & _).
  assert (Hn : ~ (Player.x centreBack - Ball.x (State.ball passState) == 0 /\
                  Player.y centreBack - Ball.y (State.ball passState) == 0)).
  { intros (Hx & _). apply Qeq_bool_iff in Hx. vm_compute in Hx.
    discriminate Hx. }
  destruct (Hoff Hn) as (Hlen & _).
  rewrite Hlen. apply Qeq_bool_eq. vm_compute. reflexivity.
Defined.

Lemma carrier_walks_to_line_witness :
  option_map (fun s' => crossesAway (State.ball s'))
    (carryMate 0.016 strikerRunState) = Some false.
Proof.
  destruct (carryMate 0.016 strikerRunState) as [s'|] eqn:Hc;
    [|vm_compute in Hc; discriminate].
  destruct (carrier_walks_to_line 0.016 strikerRunState s' Hc)
    as (Hrun & _).
  destruct (Hrun ltac:(vm_compute; discriminate) ltac:(vm_compute; discriminate))
    as (m & m' & _ & _ & _ & _ & _ & _ & _ & _ & _ & Hx).
  cbn [option_map]. rewrite (Hx eq_refl). reflexivity.
Defined.

Lemma selected_mate_in_field_witness :
  24 <= Player.x (@moveMate refMath 0.016 kickoff 0 leftBack) <= W - 24.
Proof.
  destruct (selected_mate_in_field (M := refMath) 0.016 kickoff 0 leftBack
              eq_refl) as (Hx & _).
  exact Hx.
Defined.

Lemma cycle_wraps_witness :
  State.selectedIdx (cycleSelected 1 (cycleSelected 1 lastSelectedState))
  = 1%Z /\
  State.selectedIdx (cycleSelected (-1) kickoff) = 9%Z.
Proof.
  assert (Hn : (0 < Z.of_nat (List.length (State.mates kickoff)))%Z)
    by (vm_compute; reflexivity).
  destruct (cycle_wraps (-1) kickoff Hn) as (E & _).
  split; [vm_compute; reflexivity|].
  rewrite E. vm_compute. reflexivity.
Defined.

(** ** Goalkeepers *)

Lemma clamp_step (step d : Q) :
  0 <= step ->
  - step <= Qmax (- step) (Qmin step d) <= step /\
  (0 <= d -> 0 <= Qmax (- step) (Qmin step d) <= d) /\
  (d <= 0 -> d <= Qmax (- step) (Qmin step d) <= 0).
Proof.
  intros Hs.
  destruct (Q.min_spec step d) as [(H1 & E1) | (H1 & E1)];
    destruct (Q.max_spec (- step) (Qmin step d)) as [(H2 & E2) | (H2 & E2)];
    rewrite E2 in *; rewrite ?E1 in *; repeat split; intros; lra.
Qed.

(** Outside that range the binary64 prediction is no number: for a ball
    with spin that creeps toward the goal line the square of the time
    overflows, and its product with 0 is NaN. *)
Lemma projX_out_of_range :
  PrimFloat.is_nan
    (FloatKeeper.projX 550 0 85
       (FloatKeeper.flightTime 584 300 0x1p-512%float)) = true.
Proof. vm_compute. reflexivity. Qed.

(** One keeper update with [dt >= 0], the time to the goal line and the
    spin being of a size that binary64 holds where the keeper moves: the
    keeper keeps his line, his speed and his reaction time; he moves
    sideways by at most [speed * dt]; inside the span he covers he stays
    inside it; and his reaction timer never becomes negative.  He does not
    move at all while the ball is not coming toward his goal or his reaction
    timer is running, the timer counting down; otherwise the timer is set to
    a quarter of [GK_REACT_MS] and he steps toward the point where the ball
    will cross the line, taken straight ahead without the spin and clamped
    to his span. *)
Theorem keeper_step (gk : Keeper.t) (b : Ball.t) (top : bool) (dt : Q) :
  0 <= dt -> 0 <= Keeper.speed gk ->
  (towardGoal top b -> Keeper.reactT gk <= 0 -> flightInRange top b) ->
  let gk' := gkUpdate gk b top dt in
  (Keeper.y gk' = Keeper.y gk /\ Keeper.speed gk' = Keeper.speed gk /\
   Keeper.react gk' = Keeper.react gk) /\
  Qabs (Keeper.x gk' - Keeper.x gk) <= Keeper.speed gk * dt /\
  (leftBound <= Keeper.x gk <= rightBound ->
   leftBound <= Keeper.x gk' <= rightBound) /\
  0 <= Keeper.reactT gk' /\
  (~ towardGoal top b \/ 0 < Keeper.reactT gk ->
   Keeper.x gk' = Keeper.x gk /\
   Keeper.reactT gk' == Qmax 0 (Keeper.reactT gk - dt * 1000)) /\
  (towardGoal top b -> Keeper.reactT gk <= 0 ->
   Keeper.reactT gk' == GK_REACT_MS * 0.25 /\
   Keeper.x gk'
   == Keeper.x gk
      + Qmax (- (Keeper.speed gk * dt))
          (Qmin (Keeper.speed gk * dt)
             (Qmax leftBound
                (Qmin rightBound
                   (Ball.x b + Ball.vx b * flightTime top b))
              - Keeper.x gk))).
Proof.
  intros Hdt Hsp _. cbv zeta. unfold gkUpdate. cbv zeta.
  assert (Hstep : 0 <= Keeper.speed gk * dt)
    by (apply Qmult_le_0_compat; assumption).
  set (vyToward := if top then Qltb (Ball.vy b) 0 else Qltb 0 (Ball.vy b)).
  assert (Ht : vyToward = true <-> towardGoal top b).
  { subst vyToward. unfold towardGoal. destruct top; apply Qltb_true. }
  assert (Hidle : forall r, Qabs (Keeper.x gk - Keeper.x gk) <= r * dt
                            \/ True) by (intros; right; exact I).
  assert (Hz : Qabs (Keeper.x gk - Keeper.x gk) <= Keeper.speed gk * dt).
  { assert (E : Keeper.x gk - Keeper.x gk == 0) by ring.
    rewrite E. exact Hstep. }
  clear Hidle.
  destruct vyToward eqn:Ev; cbn [negb].
  - assert (Htw : towardGoal top b) by (apply Ht; reflexivity).
    destruct (Qltb 0 (Keeper.reactT gk)) eqn:Er;
      [apply Qltb_true in Er | apply Qltb_false in Er]; fields.
    + split; [auto|]. split; [exact Hz|]. split; [auto|].
      split; [apply Q.le_max_l|]. split; [intros _; split; reflexivity|].
      intros _ Hr. lra.
    + set (target := Qmax (W / 2 - GOAL_W / 2 + 18)
                       (Qmin (W / 2 + GOAL_W / 2 - 18) _)).
      assert (Htar : leftBound <= target <= rightBound).
      { subst target. unfold leftBound, rightBound. split; [apply Q.le_max_l|].
        apply Q.max_lub; [apply Qle_bool_iff; reflexivity | apply Q.le_min_l]. }
      destruct (clamp_step (Keeper.speed gk * dt) (target - Keeper.x gk) Hstep)
        as ((C1 & C2) & Cpos & Cneg).
      set (c := Qmax (- (Keeper.speed gk * dt))
                  (Qmin (Keeper.speed gk * dt) (target - Keeper.x gk))) in *.
      split; [auto|]. split.
      { apply Qabs_Qle_condition. split; lra. }
      split.
      { intros [Hl Hr].
        destruct (Qlt_le_dec (target - Keeper.x gk) 0) as [Hn | Hp].
        - destruct (Cneg ltac:(lra)). split; lra.
        - destruct (Cpos Hp). split; lra. }
      split; [unfold GK_REACT_MS; lra|].
      split; [intros [Hn | Hr]; [contradiction | lra]|].
      intros _ _. split; [reflexivity|].
      subst c target. unfold leftBound, rightBound, flightTime.
      apply Qplus_comp; [reflexivity|].
      apply Q.max_compat; [reflexivity|].
      apply Q.min_compat; [reflexivity|].
      apply Qplus_comp; [|reflexivity].
      apply Q.max_compat; [reflexivity|].
      apply Q.min_compat; [reflexivity|]. ring.
  - assert (Htw : ~ towardGoal top b).
    { intros T. apply Ht in T. congruence. }
    fields. split; [auto|]. split; [exact Hz|]. split; [auto|].
    split; [apply Q.le_max_l|]. split; [intros _; split; reflexivity|].
    intros T. contradiction.
Qed.

Lemma keeper_step_witness :
  Qabs (Keeper.x (gkUpdate (State.gkPT kickoff)
                    (Ball.mk 300 500 0 200 BALL_R 0) false 0.016)
        - Keeper.x (State.gkPT kickoff))
  <= Keeper.speed (State.gkPT kickoff) * 0.016.
Proof.
  assert (Hdt : 0 <= 0.016) by lra.
  assert (Hsp : 0 <= Keeper.speed (State.gkPT kickoff))
    by (vm_compute; discriminate).
  assert (Hr : flightInRange false (Ball.mk 300 500 0 200 BALL_R 0)).
  { unfold flightInRange. split; apply Qle_bool_iff; vm_compute; reflexivity. }
  destruct (keeper_step (State.gkPT kickoff) (Ball.mk 300 500 0 200 BALL_R 0)
              false 0.016 Hdt Hsp (fun _ _ => Hr)) as (_ & Hmove & _).
  exact Hmove.
Defined.

Section Saves.
Context {M : MathLib}.

Lemma reaches_test (gk : Keeper.t) (top : bool) (b : Ball.t) :
  reaches gk top b ->
  (if top
   then Qltb (Ball.y b - Ball.r b) (Keeper.y gk + 14)
        && Qltb (Qabs (Ball.x b - Keeper.x gk)) 34 && Qltb (Ball.vy b) 0
   else Qltb (Keeper.y gk - 14) (Ball.y b + Ball.r b)
        && Qltb (Qabs (Ball.x b - Keeper.x gk)) 34 && Qltb 0 (Ball.vy b))
  = true.
Proof.
  unfold reaches, towardGoal. destruct top; intros (H1 & H2 & H3);
    apply Qltb_true in H1, H2, H3; rewrite H1, H2, H3; reflexivity.
Qed.

Lemma not_reaches_test (gk : Keeper.t) (top : bool) (b : Ball.t) :
  ~ reaches gk top b ->
  (if top
   then Qltb (Ball.y b - Ball.r b) (Keeper.y gk + 14)
        && Qltb (Qabs (Ball.x b - Keeper.x gk)) 34 && Qltb (Ball.vy b) 0
   else Qltb (Keeper.y gk - 14) (Ball.y b + Ball.r b)
        && Qltb (Qabs (Ball.x b - Keeper.x gk)) 34 && Qltb 0 (Ball.vy b))
  = false.
Proof.
  intros Hn.
  match goal with |- ?t = false => destruct t eqn:E end; [|reflexivity].
  exfalso. apply Hn. unfold reaches, towardGoal.
  destruct top; apply andb_true_iff in E; destruct E as (E & E3);
    apply andb_true_iff in E; destruct E as (E1 & E2);
    apply Qltb_true in E1, E2, E3; auto.
Qed.

(** A save.  When the ball reaches a keeper, it is put 12 units in front of
    his line and no longer moves toward his goal, and a protection grace
    starts: a ball slower than [GK_HOLD_SPEED] is held at the keeper with
    zero velocity and 200 ms of grace, a faster one is parried with 140 ms
    of grace, keeping its x.  When the ball does not reach the keeper,
    nothing changes. *)
Theorem keeper_save (gk : Keeper.t) (top : bool) (s : State.t) :
  let b := State.ball s in
  let s' := gkSave gk top s in
  let b' := State.ball s' in
  let front := if top then Keeper.y gk + 12 else Keeper.y gk - 12 in
  (reaches gk top b ->
   Ball.y b' == front /\
   ~ towardGoal top b' /\
   0 < State.protect s' /\
   (hypot (Ball.vx b) (Ball.vy b) < GK_HOLD_SPEED ->
    Ball.x b' = Keeper.x gk /\ Ball.vx b' == 0 /\ Ball.vy b' == 0 /\
    State.protect s' == 200 /\ State.rng s' = State.rng s) /\
   (GK_HOLD_SPEED <= hypot (Ball.vx b) (Ball.vy b) ->
    Ball.x b' = Ball.x b /\ State.protect s' == 140 /\
    State.rng s' = S (S (State.rng s)))) /\
  (~ reaches gk top b -> s' = s).
Proof.
  cbv zeta. split.
  - intros Hr. pose proof (reaches_test gk top (State.ball s) Hr) as Et.
    unfold gkSave. cbv zeta. unfold towardGoal.
    destruct top; rewrite Et;
      (destruct (Qltb (hypot (Ball.vx (State.ball s)) (Ball.vy (State.ball s)))
                   GK_HOLD_SPEED) eqn:Eh;
       [apply Qltb_true in Eh | apply Qltb_false in Eh]); fields;
      (split; [reflexivity|]);
      (split; [|split; [reflexivity|split; intros Hs;
                          first [lra | repeat split; reflexivity]]]).
    + lra.
    + pose proof (Qabs_nonneg (pt_y (rotate (Ball.vx (State.ball s))
                    (Ball.vy (State.ball s)) (parryAngle (State.rng s))))) as Ha.
      set (a := Qabs _) in *. lra.
    + lra.
    + pose proof (Qabs_nonneg (pt_y (rotate (Ball.vx (State.ball s))
                    (Ball.vy (State.ball s)) (parryAngle (State.rng s))))) as Ha.
      set (a := Qabs _) in *. lra.
  - intros Hn. pose proof (not_reaches_test gk top (State.ball s) Hn) as Et.
    unfold gkSave. cbv zeta. destruct top; rewrite Et; reflexivity.
Qed.

End Saves.

Lemma keeper_save_witness :
  Ball.y (State.ball (@gkSave refMath (State.gkPT ownHalfState) false
                        ownHalfState))
  == Keeper.y (State.gkPT ownHalfState) - 12.
Proof.
  assert (Hr : reaches (State.gkPT ownHalfState) false
                 (State.ball ownHalfState)).
  { unfold reaches, towardGoal. vm_compute. repeat split. }
  destruct (keeper_save (M := refMath) (State.gkPT ownHalfState) false
              ownHalfState) as (Hsave & _).
  destruct (Hsave Hr) as (Ey & _). exact Ey.
Defined.

(** ** The defenders *)

Section Defense.
Context {M : MathLib}.

Lemma insertByDist_perm (e : nat * Q) (l : list (nat * Q)) :
  Permutation (insertByDist e l) (e :: l).
Proof.
  induction l as [|a l IH]; cbn [insertByDist]; [reflexivity|].
  destruct (Qltb (snd e) (snd a)); [reflexivity|].
  rewrite IH. apply perm_swap.
Qed.

Lemma insertByDist_sorted (e : nat * Q) (l : list (nat * Q)) :
  StronglySorted byDist l -> StronglySorted byDist (insertByDist e l).
Proof.
  induction l as [|a l IH]; intros Hs; cbn [insertByDist].
  - constructor; constructor.
  - inversion Hs as [|a' l' Hl Ha]; subst.
    destruct (Qltb (snd e) (snd a)) eqn:E.
    + apply Qltb_true in E. constructor; [exact Hs|].
      constructor; [unfold byDist; lra|].
      eapply Forall_impl; [|exact Ha]. unfold byDist. intros b Hb. lra.
    + apply Qltb_false in E. constructor; [apply IH; exact Hl|].
      eapply Permutation_Forall; [symmetry; apply insertByDist_perm|].
      constructor; [exact E | exact Ha].
Qed.

Lemma sortByDist_from (l : list (nat * Q)) :
  forall acc,
    StronglySorted byDist acc ->
    Permutation (fold_left (fun a e => insertByDist e a) l acc) (acc ++ l)%list /\
    StronglySorted byDist (fold_left (fun a e => insertByDist e a) l acc).
Proof.
  induction l as [|e l IH]; intros acc Hs; cbn [fold_left].
  - rewrite app_nil_r. split; [reflexivity | exact Hs].
  - destruct (IH (insertByDist e acc) (insertByDist_sorted e acc Hs))
      as (Hp & Hs').
    split; [|exact Hs'].
    rewrite Hp. rewrite insertByDist_perm.
    apply Permutation_middle.
Qed.

Lemma sortByDist_perm (l : list (nat * Q)) : Permutation (sortByDist l) l.
Proof.
  unfold sortByDist.
  exact (proj1 (sortByDist_from l [] (SSorted_nil byDist))).
Qed.

Lemma sortByDist_sorted (l : list (nat * Q)) :
  StronglySorted byDist (sortByDist l).
Proof.
  unfold sortByDist.
  exact (proj2 (sortByDist_from l [] (SSorted_nil byDist))).
Qed.

(** [sorted] holds the same entries as the list of distances, in ascending
    order of distance. *)
Theorem sortByDist_sorted_perm (l : list (nat * Q)) :
  Permutation (sortByDist l) l /\ StronglySorted byDist (sortByDist l).
Proof. split; [apply sortByDist_perm | apply sortByDist_sorted]. Qed.

Lemma mapFrom_In {A B : Type} (f : nat -> A -> B) (l : list A) :
  forall k b, In b (mapFrom f k l) ->
    exists i a, nth_error l i = Some a /\ b = f (k + i)%nat a.
Proof.
  induction l as [|a l IH]; intros k b; cbn [mapFrom In]; [contradiction|].
  intros [E | Hin].
  - exists 0%nat, a. rewrite Nat.add_0_r. auto.
  - destruct (IH (S k) b Hin) as (i & a' & Hn & E).
    exists (S i), a'. split; [exact Hn|].
    rewrite E. f_equal. lia.
Qed.

Lemma distanceTo_spec (s : State.t) (i : nat) (d : Q) :
  distanceTo s i d ->
  exists p, nth_error (State.defenders s) i = Some p /\
    d = hypot (Player.x p - Ball.x (State.ball s))
              (Player.y p - Ball.y (State.ball s)).
Proof.
  unfold distanceTo, distances. intros Hin.
  destruct (mapFrom_In _ _ _ _ Hin) as (j & p & Hn & E).
  injection E as -> ->. exists p. auto.
Qed.

(** What the engagement loop does with [sorted]: it reads a prefix of it
    and stops; the set it ends with holds the entries of that prefix that
    are inside the radius (and what it held before); if it stopped before
    the end, the set is full. *)
Lemma engageLoop_prefix (maxE radE : Q) (sorted : list (nat * Q)) :
  forall acc,
    exists pre post,
      sorted = (pre ++ post)%list /\
      (forall e, In e pre -> snd e < radE ->
                 In (fst e) (engageLoop maxE radE sorted acc)) /\
      (forall i, In i (engageLoop maxE radE sorted acc) ->
                 In i acc \/ exists d, In (i, d) pre /\ d < radE) /\
      (forall i, In i acc -> In i (engageLoop maxE radE sorted acc)) /\
      (post = [] \/ maxE <= sizeQ (engageLoop maxE radE sorted acc)).
Proof.
  induction sorted as [|e rest IH]; intros acc; cbn [engageLoop].
  - exists [], []. repeat split; auto. intros e [].
  - destruct (Qle_bool maxE (sizeQ acc)) eqn:Efull.
    + apply Qle_bool_iff in Efull.
      exists [], (e :: rest). repeat split; auto. intros e' [].
    + set (acc' := if Qltb (snd e) radE
                   then set_add Nat.eq_dec (fst e) acc else acc).
      destruct (IH acc') as (pre & post & Es & Hin & Hout & Hacc & Hend).
      assert (Hmono : forall i, In i acc -> In i acc').
      { intros i Hi. subst acc'. destruct (Qltb (snd e) radE); [|exact Hi].
        apply set_add_intro1. exact Hi. }
      exists (e :: pre), post. split; [rewrite Es; reflexivity|].
      split.
      { intros e' [<- | He'] Hr; [|apply Hin; assumption].
        apply Hacc. subst acc'. apply Qltb_true in Hr. rewrite Hr.
        apply set_add_intro2. reflexivity. }
      split.
      { intros i Hi. destruct (Hout i Hi) as [Ha | (d & Hd & Hr)].
        - subst acc'. destruct (Qltb (snd e) radE) eqn:Er; [|left; exact Ha].
          apply set_add_elim in Ha. destruct Ha as [-> | Ha]; [|left; exact Ha].
          right. exists (snd e). apply Qltb_true in Er.
          split; [left; destruct e; reflexivity | exact Er].
        - right. exists d. split; [right; exact Hd | exact Hr]. }
      split; [intros i Hi; apply Hacc, Hmono, Hi | exact Hend].
Qed.

(** Every defender of the engagement set is a defender of the state and
    stands closer to the ball than the engagement radius of the active
    tier. *)
Theorem engaged_within_radius (s : State.t) (i : nat) :
  In i (engagedSet s) ->
  exists p, nth_error (State.defenders s) i = Some p /\
    hypot (Player.x p - Ball.x (State.ball s))
          (Player.y p - Ball.y (State.ball s)) < RAD_E s.
Proof.
  unfold engagedSet. intros Hin.
  destruct (engageLoop_prefix (MAX_E s) (RAD_E s)
              (sortByDist (distances (State.ball s) (State.defenders s))) [])
    as (pre & post & Es & _ & Hout & _).
  destruct (Hout i Hin) as [[] | (d & Hd & Hr)].
  assert (Hs : In (i, d) (sortByDist (distances (State.ball s)
                                        (State.defenders s))))
    by (rewrite Es; apply in_or_app; left; exact Hd).
  pose proof (sortByDist_perm (distances (State.ball s) (State.defenders s)))
    as Hp.
  apply (Permutation_in _ Hp) in Hs.
  destruct (distanceTo_spec s i d Hs) as (p & Hn & ->).
  exists p. split; [exact Hn | exact Hr].
Qed.

Lemma sorted_app_le (pre post : list (nat * Q)) :
  StronglySorted byDist (pre ++ post)%list ->
  forall a b, In a pre -> In b post -> snd a <= snd b.
Proof.
  induction pre as [|x pre IH]; intros Hs a b Ha Hb; [destruct Ha|].
  cbn [app] in Hs. inversion Hs as [|x' l' Hl Hx]; subst.
  destruct Ha as [<- | Ha]; [|exact (IH Hl a b Ha Hb)].
  rewrite Forall_forall in Hx. apply (Hx b). apply in_or_app. right. exact Hb.
Qed.

(** The engagement set takes the nearest defenders: a defender inside the
    radius that is left out is at least as far from the ball as every
    engaged one, and he is left out only because the set is full. *)
Theorem engaged_are_nearest (s : State.t) (i j : nat) (di dj : Q) :
  distanceTo s i di -> distanceTo s j dj ->
  In i (engagedSet s) ->
  ~ In j (engagedSet s) -> dj < RAD_E s ->
  MAX_E s <= sizeQ (engagedSet s) /\ di <= dj.
Proof.
  unfold engagedSet. intros Hi Hj Hin Hout Hr.
  set (dl := distances (State.ball s) (State.defenders s)) in *.
  pose proof (sortByDist_perm dl) as Hp.
  pose proof (sortByDist_sorted dl) as Hs.
  destruct (engageLoop_prefix (MAX_E s) (RAD_E s) (sortByDist dl) [])
    as (pre & post & Es & Hpre & Hres & _ & Hend).
  assert (Hjs : In (j, dj) (sortByDist dl)).
  { apply (Permutation_in _ (Permutation_sym Hp)). exact Hj. }
  rewrite Es in Hjs. apply in_app_or in Hjs.
  destruct Hjs as [Hjpre | Hjpost].
  { exfalso. apply Hout. exact (Hpre (j, dj) Hjpre Hr). }
  split.
  { destruct Hend as [-> | Hfull]; [destruct Hjpost | exact Hfull]. }
  destruct (Hres i Hin) as [[] | (d & Hd & _)].
  assert (Hid : In (i, d) dl).
  { apply (Permutation_in _ Hp). rewrite Es. apply in_or_app. left. exact Hd. }
  destruct (distanceTo_spec s i d Hid) as (p & Hn & Ed).
  destruct (distanceTo_spec s i di Hi) as (p' & Hn' & Edi).
  rewrite Hn in Hn'. injection Hn' as <-.
  rewrite Edi, <- Ed. rewrite Es in Hs.
  exact (sorted_app_le pre post Hs (i, d) (j, dj) Hd Hjpost).
Qed.

(** What a defender's move keeps and how his reaction lag runs.  Role,
    number, radius, reaction time and anchor are never changed and the
    [engaged] flag becomes the membership in the engagement set.  A defender
    that leaves the set has his lag cleared; one that enters it (with a
    positive reaction time) starts with his reaction time in seconds, less
    this tick; one that stays in it counts a positive lag down.  A defender
    that stands on his anchor and does not chase stays there. *)
Theorem defender_lag (dt : Q) (e : bool) (s : State.t) (p : Player.t) :
  let p' := moveDefender dt e s p in
  (Player.role p' = Player.role p /\ Player.num p' = Player.num p /\
   Player.r p' = Player.r p /\ Player.react p' = Player.react p /\
   Player.homeX p' = Player.homeX p /\ Player.homeY p' = Player.homeY p) /\
  Player.engaged p' = e /\
  Player.phase p' == Player.phase p + dt /\
  (e = false -> Player.engaged p = true -> Player.lag p' == 0) /\
  (e = false -> Player.engaged p = false -> Player.lag p' == Player.lag p) /\
  (e = true -> Player.engaged p = false -> 0 < Player.react p ->
   Player.lag p' == Player.react p / 1000 - dt) /\
  (e = true -> Player.engaged p = true -> 0 < Player.lag p ->
   Player.lag p' == Player.lag p - dt) /\
  (e = true -> Player.engaged p = true -> Player.lag p <= 0 ->
   Player.lag p' == Player.lag p) /\
  ((e = false \/ (Player.engaged p = true /\ 0 < Player.lag p)) ->
   Player.x p = Player.homeX p -> Player.y p = Player.homeY p ->
   Player.x p' == Player.x p /\ Player.y p' == Player.y p).
Proof.
  cbv zeta. split; [|split; [apply moveDefender_engaged|]].
  { unfold moveDefender. cbv zeta.
    destruct e, (Player.engaged p); cbn [andb negb]; fields;
      repeat match goal with
        | |- context [if ?c then _ else _] => destruct c
        end; fields; repeat split. }
  assert (Ez : forall a d st, a + (a - a) / d * st == a)
    by (intros; unfold Qdiv; ring).
  assert (Hreact : 0 < Player.react p -> 0 < Player.react p / 1000)
    by (intros Hr; apply Qlt_shift_div_l; [reflexivity | lra]).
  unfold moveDefender. cbv zeta.
  destruct e, (Player.engaged p) eqn:Ep; cbn [andb negb]; fields;
    rewrite ?Ep; cbn [andb negb]; fields;
    repeat match goal with
      | |- context [Qltb ?a ?b] =>
          let E := fresh "E" in
          destruct (Qltb a b) eqn:E;
          [apply Qltb_true in E | apply Qltb_false in E]; cbn [negb]; fields
      end;
    repeat split; intros; try congruence; try reflexivity;
    try (specialize (Hreact ltac:(assumption))); try lra;
    try (match goal with
         | Hd : _ \/ _ |- _ =>
             destruct Hd as [Hd | (Hd & Hd')]; try congruence; try lra
         end);
    repeat match goal with
      | Hx : Player.x p = Player.homeX p |- _ => rewrite <- Hx; clear Hx
      | Hy : Player.y p = Player.homeY p |- _ => rewrite <- Hy; clear Hy
      end;
    try apply Ez.
Qed.

Lemma canCapture_true (i : nat) (p : Player.t) (s : State.t) :
  canCapture i p s = true -> isCarrier s i = false.
Proof.
  unfold canCapture. cbv zeta. intros E.
  repeat (apply andb_true_iff in E; destruct E as (E & _)).
  apply negb_true_iff in E. exact E.
Qed.

(** A successful capture: the defender becomes the carrier and the
    attacking side loses its carrier, so one side at most owns the ball; the
    ball keeps position and velocity and loses its spin; tackle cooldown and
    protection are set to 120 and 250, which closes the capture test for
    every defender that follows in the same pass. *)
Theorem capture_takes_ball (i : nat) (p : Player.t) (s : State.t) :
  canCapture i p s = true ->
  let s' := capture i p s in
  AI.carrier (State.ai s') = Some i /\
  AI.carrier (State.ai s) <> Some i /\
  AI.ptCarrier (State.ai s') = (-1)%Z /\
  (owners s' <= 1)%nat /\
  State.tackleCd s' == 120 /\ State.protect s' == 250 /\
  (Ball.x (State.ball s') = Ball.x (State.ball s) /\
   Ball.y (State.ball s') = Ball.y (State.ball s) /\
   Ball.vx (State.ball s') = Ball.vx (State.ball s) /\
   Ball.vy (State.ball s') = Ball.vy (State.ball s) /\
   Ball.spin (State.ball s') == 0) /\
  (forall j q, capture j q s' = s').
Proof.
  intros Hc. cbv zeta.
  pose proof (canCapture_true i p s Hc) as Hn.
  assert (E : capture i p s
              = State.set_ball (Ball.set_spin 0 (State.ball s))
                  (State.set_ai (AI.set_ptCarrier (-1)
                                   (AI.set_carrier (Some i) (State.ai s)))
                     (State.set_protect 250
                        (State.set_tackleCd 120
                           (State.set_ai (AI.set_carrier (Some i) (State.ai s))
                              s))))).
  { unfold capture. rewrite Hc. reflexivity. }
  set (s' := capture i p s) in *. clearbody s'. subst s'.
  split; [fields; reflexivity|].
  split.
  { unfold isCarrier in Hn. destruct (AI.carrier (State.ai s)) as [k|];
      [|discriminate].
    intros [= ->]. rewrite Nat.eqb_refl in Hn. discriminate. }
  split; [fields; reflexivity|].
  split; [unfold owners; fields; cbn; lia|].
  split; [fields; reflexivity|]. split; [fields; reflexivity|].
  split; [fields; repeat split; reflexivity|].
  intros j q. apply capture_gated. left. left. fields. reflexivity.
Qed.

(** The carrier's step.  A carrying defender inside the shooting zone in
    front of the home goal lets the ball go: it starts at his x and 6 units
    up the field from him (y - 6) with the velocity
    [(dxs / Ls, dys / Ls) * speed], where [(dxs, dys)] leads from him to the
    point 6 units short of the middle of the home goal line, [Ls] is
    [hypot dxs dys || 1] and [speed] is [520 + random * 160]; nobody
    carries it and 40 ms of protection run.  When [hypot] is the Euclidean
    length, the ball then flies toward that point with exactly that speed,
    unless he stands on the point: there the guard fires and the ball is
    released with velocity zero.  Outside the zone the ball is put at his x
    and 12 units up the field from him (y - 12), at rest.  A defender who is
    not the carrier changes nothing. *)
Theorem carrier_shoots_or_dribbles (i : nat) (p : Player.t) (s : State.t) :
  let s' := carry i p s in
  let b' := State.ball s' in
  let dxs := W / 2 - Player.x p in
  let dys := (H - 36) - Player.y p - 6 in
  (isCarrier s i = true -> inShootingZone p ->
   AI.carrier (State.ai s') = None /\
   State.protect s' == 40 /\
   Ball.x b' = Player.x p /\ Ball.y b' = Player.y p - 6 /\
   Ball.vx b' * dys == Ball.vy b' * dxs /\
   (exists speed,
      speed = 520 + random (State.rng s) * 160 /\
      Ball.vx b' == dxs / orElse (hypot dxs dys) 1 * speed /\
      Ball.vy b' == dys / orElse (hypot dxs dys) 1 * speed /\
      (0 <= random (State.rng s) < 1 -> 520 <= speed < 680)) /\
   (0 <= hypot dxs dys ->
    hypot dxs dys * hypot dxs dys == dxs * dxs + dys * dys ->
    (~ (dxs == 0 /\ dys == 0) ->
     Ball.vx b' * Ball.vx b' + Ball.vy b' * Ball.vy b'
     == (520 + random (State.rng s) * 160)
        * (520 + random (State.rng s) * 160) /\
     (0 <= random (State.rng s) ->
      0 < Ball.vx b' * dxs + Ball.vy b' * dys)) /\
    (dxs == 0 /\ dys == 0 -> Ball.vx b' == 0 /\ Ball.vy b' == 0)) /\
   State.rng s' = S (State.rng s)) /\
  (isCarrier s i = true -> ~ inShootingZone p ->
   AI.carrier (State.ai s') = AI.carrier (State.ai s) /\
   State.protect s' = State.protect s /\
   Ball.x b' = Player.x p /\ Ball.y b' = Player.y p - 12 /\
   Ball.vx b' == 0 /\ Ball.vy b' == 0) /\
  (isCarrier s i = false -> s' = s).
Proof.
  cbv zeta. unfold carry, inShootingZone. cbv zeta.
  destruct (isCarrier s i).
  2:{ split; [intros E; discriminate|]. split; [intros E; discriminate|].
      reflexivity. }
  destruct (Qltb (H - 36 - Player.y p) 60) eqn:E1;
    [apply Qltb_true in E1 | apply Qltb_false in E1];
    (destruct (Qltb (Qabs (Player.x p - W / 2)) (GOAL_W / 2 - 20)) eqn:E2;
     [apply Qltb_true in E2 | apply Qltb_false in E2]); cbn [andb]; fields.
  - split; [|split; [intros _ Hn; exfalso; apply Hn; split; assumption
                    | intros E; discriminate]].
    intros _ _.
    assert (Hd : ~ orElse (hypot (W / 2 - Player.x p) (H - 36 - Player.y p - 6)) 1
                   == 0).
    { unfold orElse. destruct (Qeq_bool _ 0) eqn:E.
      - intros H1. discriminate H1.
      - apply Qeq_bool_neq in E. exact E. }
    split; [reflexivity|]. split; [reflexivity|]. split; [reflexivity|].
    split; [reflexivity|]. split; [field; exact Hd|].
    split.
    { eexists. split; [reflexivity|]. split; [reflexivity|].
      split; [reflexivity|]. intros [Hr0 Hr1]. split; lra. }
    split; [|reflexivity].
    intros Hh Hsq.
    destruct (aimed_velocity (W / 2 - Player.x p) (H - 36 - Player.y p - 6)
                (520 + random (State.rng s) * 160) _ Hh Hsq) as (Hoff & Hon).
    split; [|exact Hon].
    intros Hn. destruct (Hoff Hn) as (Hlen & Hdir).
    split; [exact Hlen|]. intros Hr. apply Hdir. lra.
  - split; [intros _ (_ & Hz); lra|].
    split; [|intros E; discriminate]. intros _ _. repeat split; reflexivity.
  - split; [intros _ (Hz & _); lra|].
    split; [|intros E; discriminate]. intros _ _. repeat split; reflexivity.
  - split; [intros _ (Hz & _); lra|].
    split; [|intros E; discriminate]. intros _ _. repeat split; reflexivity.
Qed.

End Defense.

Lemma engaged_within_radius_witness :
  exists p, nth_error (State.defenders crowdState) 8 = Some p /\
    @hypot refMath (Player.x p - Ball.x (State.ball crowdState))
      (Player.y p - Ball.y (State.ball crowdState)) < RAD_E crowdState.
Proof.
  apply (engaged_within_radius (M := refMath) crowdState 8).
  vm_compute. right. left. reflexivity.
Defined.

Lemma engaged_are_nearest_witness :
  MAX_E crowdState <= sizeQ (@engagedSet refMath crowdState) /\
  76 <= 3146007607 # 26214400.
Proof.
  apply (engaged_are_nearest (M := refMath) crowdState 8 1 76
           (3146007607 # 26214400)).
  - vm_compute. do 8 right. left. reflexivity.
  - vm_compute. right. left. reflexivity.
  - vm_compute. right. left. reflexivity.
  - vm_compute. intros [E | [E | []]]; discriminate.
  - vm_compute. reflexivity.
Defined.

Lemma capture_takes_ball_witness :
  AI.carrier
    (State.ai (@capture refMath 4 holdingMidfielder kickoff_ball_at_striker))
  = Some 4%nat /\
  (owners (@capture refMath 4 holdingMidfielder kickoff_ball_at_striker)
   <= 1)%nat.
Proof.
  assert (Hc : @canCapture refMath 4 holdingMidfielder kickoff_ball_at_striker
               = true) by (vm_compute; reflexivity).
  destruct (capture_takes_ball (M := refMath) 4 holdingMidfielder
              kickoff_ball_at_striker Hc) as (A & _ & _ & B & _).
  split; [exact A | exact B].
Defined.

Lemma carrier_shoots_or_dribbles_witness :
  AI.carrier (State.ai (@carry refMath 8 breakawayStriker breakawayState))
  = None /\
  State.protect (@carry refMath 8 breakawayStriker breakawayState) == 40 /\
  Ball.vx (State.ball (@carry refMath 8 breakawayStriker breakawayState))
  * Ball.vx (State.ball (@carry refMath 8 breakawayStriker breakawayState))
  + Ball.vy (State.ball (@carry refMath 8 breakawayStriker breakawayState))
    * Ball.vy (State.ball (@carry refMath 8 breakawayStriker breakawayState))
  == (520 + @random refMath (State.rng breakawayState) * 160)
     * (520 + @random refMath (State.rng breakawayState) * 160) /\
  AI.carrier (State.ai (@carry refMath 4 holdingMidfielder dribbleState))
  = Some 4%nat.
Proof.
  destruct (carrier_shoots_or_dribbles (M := refMath) 8 breakawayStriker
              breakawayState) as (Hshoot & _ & _).
  destruct (carrier_shoots_or_dribbles (M := refMath) 4 holdingMidfielder
              dribbleState) as (_ & Hdribble & _).
  assert (Hz : inShootingZone breakawayStriker).
  { unfold inShootingZone. vm_compute. split; reflexivity. }
  assert (Hn : ~ inShootingZone holdingMidfielder).
  { unfold inShootingZone. vm_compute. intros (Hd & _). discriminate Hd. }
  destruct (Hshoot eq_refl Hz) as (A & B & _ & _ & _ & _ & Heu & _).
  destruct (Hdribble eq_refl Hn) as (C & _).
  split; [exact A|]. split; [exact B|]. split; [|rewrite C; reflexivity].
  assert (Hh : 0 <= @hypot refMath (W / 2 - Player.x breakawayStriker)
                      (H - 36 - Player.y breakawayStriker - 6))
    by (apply Qle_bool_iff; vm_compute; reflexivity).
  assert (Hsq : @hypot refMath (W / 2 - Player.x breakawayStriker)
                  (H - 36 - Player.y breakawayStriker - 6)
                * @hypot refMath (W / 2 - Player.x breakawayStriker)
                    (H - 36 - Player.y breakawayStriker - 6)
                == (W / 2 - Player.x breakawayStriker)
                   * (W / 2 - Player.x breakawayStriker)
                   + (H - 36 - Player.y breakawayStriker - 6)
                     * (H - 36 - Player.y breakawayStriker - 6))
    by (apply Qeq_bool_eq; vm_compute; reflexivity).
  destruct (Heu Hh Hsq) as (Hoff & _).
  assert (Hne : ~ (W / 2 - Player.x breakawayStriker == 0 /\
                   H - 36 - Player.y breakawayStriker - 6 == 0)).
  { intros (_ & Hy). apply Qeq_bool_iff in Hy. vm_compute in Hy.
    discriminate Hy. }
  exact (proj1 (Hoff Hne)).
Defined.

(** ** What a session keeps *)

Section Session.
Context {M : MathLib}.

(** *** The score board *)

Lemma boardOk_progress (s s' : State.t) :
  sameProgress s s' -> boardOk s -> boardOk s'.
Proof.
  intros (Es & Ea & El & Ep & Eg & Ec). unfold boardOk.
  rewrite Es, Ea, El, Ep, Eg, Ec. auto.
Qed.

Lemma awayGoal_boardOk (s : State.t) : boardOk s -> boardOk (awayGoal s).
Proof.
  intros (Hg & Hs & Ha & Hp & Hl & Hc).
  assert (Hle : (State.levelIdx s <= LAST_LEVEL)%Z) by (rewrite Hl; lia).
  destruct (awayGoal_level s Hle) as (_ & Hadv & Hstay & Eg).
  destruct (awayGoal_keeps s) as (_ & _ & _ & Es & Ea).
  rewrite LAST_LEVEL_value in *.
  pose proof (Z.mod_pos_bound (State.score s) 2 ltac:(lia)) as Hm.
  pose proof (Z.div_mod (State.score s) 2 ltac:(lia)) as Hd.
  pose proof (Z.div_mod (State.score s + 1) 2 ltac:(lia)) as Hd'.
  pose proof (Z.mod_pos_bound (State.score s + 1) 2 ltac:(lia)) as Hm'.
  unfold boardOk. rewrite Eg, Es, Ea, LAST_LEVEL_value.
  destruct (Z.eq_dec (State.score s mod 2) 1) as [E1 | E0].
  - destruct (Hadv ltac:(lia)) as (A1 & A2 & A3).
    rewrite A3, A1, A2, Hl.
    repeat split; try lia.
  - destruct (Hstay ltac:(lia)) as (A1 & A2 & A3).
    rewrite A3, A1, A2, Hc, Hl, Hp.
    repeat split; try lia.
Qed.

Lemma homeGoal_boardOk (s : State.t) : boardOk s -> boardOk (homeGoal s).
Proof.
  intros (Hg & Hs & Ha & Hp & Hl & Hc).
  destruct (homeGoal_against s) as (Ea & Ep).
  destruct (homeGoal_keeps s) as (_ & _ & _ & Es).
  destruct (homeGoal_progress s) as (El & Ec).
  assert (Eg : State.goalsToAdvance (homeGoal s) = State.goalsToAdvance s)
    by (unfold homeGoal, resetBall; fields; reflexivity).
  unfold boardOk. rewrite Eg, Es, Ea, Ep, El, Ec.
  repeat split; try assumption; lia.
Qed.

Lemma goals_boardOk (s : State.t) : boardOk s -> boardOk (goals s).
Proof.
  intros Hb. unfold goals. cbv zeta.
  destruct (crossesAway (State.ball s)).
  - destruct (crossesHome (State.ball (awayGoal s)));
      [apply homeGoal_boardOk|]; apply awayGoal_boardOk; exact Hb.
  - destruct (crossesHome (State.ball s)); [apply homeGoal_boardOk|]; exact Hb.
Qed.

Lemma update_boardOk (dt : Q) (s s' : State.t) :
  update dt s = Some s' -> boardOk s -> boardOk s'.
Proof.
  intros Hu Hb.
  apply (boardOk_progress _ _ (update_progress dt s s' Hu)).
  apply goals_boardOk.
  exact (boardOk_progress _ _ (beforeGoals_progress dt s) Hb).
Qed.

Lemma shoot_progress (now : Q) (s : State.t) : sameProgress s (shoot now s).
Proof. unfold shoot, sameProgress. fields. repeat split. Qed.

Lemma passToIndex_progress (idx : Z) (s : State.t) :
  sameProgress s (passToIndex idx s).
Proof.
  unfold passToIndex. cbv zeta. destruct (nthZ (State.mates s) idx);
    [|apply sameProgress_refl].
  unfold sameProgress. fields. repeat split.
Qed.

(** The input handlers leave the score board and the tier alone. *)
Lemma input_progress (e : Event) (s s' : State.t) :
  (forall t, e <> Frame t) -> handle e s = Some s' -> sameProgress s s'.
Proof.
  intros Hnf. destruct e as [t | button rawX rawY sh ct now | rawX rawY
                             | button now | key sh | key]; cbn [handle].
  - destruct (Hnf t). reflexivity.
  - intros [= <-]. unfold mousedown.
    destruct (button =? 2)%Z; [apply passToIndex_progress|].
    destruct (button =? 0)%Z; cbn [negb]; [|apply sameProgress_refl].
    unfold sameProgress. fields. repeat split.
  - intros [= <-]. unfold mousemove.
    destruct (State.charging s); cbn [negb]; [|apply sameProgress_refl].
    unfold sameProgress. fields. repeat split.
  - intros [= <-]. destruct (button =? 0)%Z; [|apply sameProgress_refl].
    unfold mouseup. destruct (State.charging s); [|apply sameProgress_refl].
    apply (sameProgress_trans s (State.set_charging false s));
      [unfold sameProgress; fields; repeat split | apply shoot_progress].
  - intros [= <-]. unfold keydown. cbv zeta.
    destruct (String.eqb key "Tab"); unfold cycleSelected, sameProgress;
      fields; repeat split.
  - intros [= <-]. unfold keyup, sameProgress. fields. repeat split.
Qed.

Lemma handle_boardOk (e : Event) (s s' : State.t) :
  handle e s = Some s' -> boardOk s -> boardOk s'.
Proof.
  destruct e as [t | button rawX rawY sh ct now | rawX rawY
                 | button now | key sh | key].
  - cbn [handle]. unfold step. cbv zeta. intros Hu Hb.
    apply (update_boardOk _ _ _ Hu).
    revert Hb. apply boardOk_progress. unfold sameProgress. fields.
    repeat split.
  - intros Hh. apply boardOk_progress.
    refine (input_progress _ _ _ _ Hh). intros t Hf. discriminate Hf.
  - intros Hh. apply boardOk_progress.
    refine (input_progress _ _ _ _ Hh). intros t Hf. discriminate Hf.
  - intros Hh. apply boardOk_progress.
    refine (input_progress _ _ _ _ Hh). intros t Hf. discriminate Hf.
  - intros Hh. apply boardOk_progress.
    refine (input_progress _ _ _ _ Hh). intros t Hf. discriminate Hf.
  - intros Hh. apply boardOk_progress.
    refine (input_progress _ _ _ _ Hh). intros t Hf. discriminate Hf.
Qed.

Lemma initState_boardOk (now : Q) : boardOk (initState now).
Proof.
  unfold initState, applyLevel, boardOk. cbv zeta. fields.
  rewrite LAST_LEVEL_value. cbn. repeat split; lia.
Qed.

Lemma play_boardOk (es : list Event) :
  forall s s', play es s = Some s' -> boardOk s -> boardOk s'.
Proof.
  induction es as [|e es IH]; intros s s'; cbn [play].
  - intros [= <-]. auto.
  - destruct (handle e s) as [u|] eqn:Eh; [|discriminate].
    intros Hp Hb. exact (IH u s' Hp (handle_boardOk e s u Eh Hb)).
Qed.

(** In every state of a session the tier is the one the attacking score
    commands: with the threshold of two goals, the tier index is half the
    score (rounded down) until the last tier, the counter is the score
    modulo two, and the active configuration is that entry of [LEVELS];
    neither count is ever negative. *)
Theorem tier_follows_score (s : State.t) :
  reachable s ->
  State.goalsToAdvance s = 2%Z /\
  (0 <= State.score s)%Z /\ (0 <= State.against s)%Z /\
  State.levelProgress s = (State.score s mod 2)%Z /\
  State.levelIdx s = Z.min (State.score s / 2) LAST_LEVEL /\
  State.cfg s = nthZ LEVELS (State.levelIdx s).
Proof.
  intros (now & es & Hp).
  exact (play_boardOk es (initState now) s Hp (initState_boardOk now)).
Qed.

(** *** Rosters and timers *)

Ltac defenders := unfold sameDefenders; fields; reflexivity.

Lemma sameDefenders_trans (s1 s2 s3 : State.t) :
  sameDefenders s1 s2 -> sameDefenders s2 s3 -> sameDefenders s1 s3.
Proof. unfold sameDefenders. congruence. Qed.

Lemma beforeGoals_defenders (dt : Q) (s : State.t) :
  sameDefenders s (beforeGoals dt s).
Proof. unfold beforeGoals, tickTimers. defenders. Qed.

Lemma awayGoal_defenders (s : State.t) : sameDefenders s (awayGoal s).
Proof.
  unfold awayGoal. cbv zeta.
  destruct (_ <=? _)%Z; unfold advanceLevel, applyLevel, resetBall; defenders.
Qed.

Lemma homeGoal_defenders (s : State.t) : sameDefenders s (homeGoal s).
Proof. unfold homeGoal, resetBall. defenders. Qed.

Lemma goals_defenders (s : State.t) : sameDefenders s (goals s).
Proof.
  unfold goals. cbv zeta.
  destruct (crossesAway (State.ball s)).
  - destruct (crossesHome (State.ball (awayGoal s))).
    + apply (sameDefenders_trans s (awayGoal s));
        [apply awayGoal_defenders | apply homeGoal_defenders].
    + apply awayGoal_defenders.
  - destruct (crossesHome (State.ball s));
      [apply homeGoal_defenders | reflexivity].
Qed.

Lemma trapFrom_defenders (ms : list Player.t) :
  forall i s, sameDefenders s (trapFrom i ms s).
Proof.
  induction ms as [|m ms IH]; intros i s; cbn [trapFrom]; [reflexivity|].
  destruct (canTrap s m); [unfold trapBy; defenders | apply IH].
Qed.

Lemma moveMates_defenders (dt : Q) (s : State.t) :
  sameDefenders s (moveMates dt s).
Proof. unfold moveMates. defenders. Qed.

Lemma carryMate_defenders (dt : Q) (s s' : State.t) :
  carryMate dt s = Some s' -> sameDefenders s s'.
Proof.
  unfold carryMate.
  destruct (_ =? _)%Z.
  - destruct (nthZ _ _); [|discriminate]. intros [= <-]. defenders.
  - destruct (0 <=? _)%Z.
    + destruct (nthZ _ _); [|discriminate]. intros [= <-]. defenders.
    + intros [= <-]. reflexivity.
Qed.

Lemma gkSave_defenders (gk : Keeper.t) (top : bool) (s : State.t) :
  sameDefenders s (gkSave gk top s).
Proof.
  unfold gkSave.
  destruct top;
    repeat match goal with
      | |- context [if ?c then _ else _] => destruct c
      end; defenders.
Qed.

Lemma keepers_defenders (dt : Q) (s : State.t) :
  sameDefenders s (keepers dt s).
Proof.
  unfold keepers. cbv zeta.
  set (s1 := State.set_gkFR _ s).
  set (s2 := State.set_gkPT _ s1).
  apply (sameDefenders_trans s s2); [subst s2 s1; defenders|].
  apply (sameDefenders_trans s2 (gkSave (State.gkFR s2) true s2));
    apply gkSave_defenders.
Qed.

Lemma defend_length (dt : Q) (s : State.t) :
  List.length (State.defenders (defend dt s))
  = List.length (State.defenders s).
Proof.
  unfold defend.
  pose proof (defendLoop_flags dt (engagedSet s) (State.defenders s) 0 s) as Hf.
  destruct (defendLoop _ _ _ _ _) as [ps s']. cbn [fst] in Hf. fields.
  apply (f_equal (@List.length bool)) in Hf.
  rewrite !length_map, length_seq in Hf. exact Hf.
Qed.

Lemma trap_defenders (s : State.t) : sameDefenders s (trap s).
Proof. exact (trapFrom_defenders (State.mates s) 0 s). Qed.

Lemma trap_mates_length (s : State.t) :
  List.length (State.mates (trap s)) = List.length (State.mates s).
Proof. exact (proj1 (trapFrom_roster (State.mates s) 0 s)). Qed.

Lemma carryMate_mates_length (dt : Q) (s s' : State.t) :
  carryMate dt s = Some s' ->
  List.length (State.mates s') = List.length (State.mates s).
Proof.
  unfold carryMate.
  destruct (_ =? _)%Z.
  - destruct (nthZ _ _); [|discriminate]. intros [= <-]. fields. reflexivity.
  - destruct (0 <=? _)%Z.
    + destruct (nthZ _ _); [|discriminate]. intros [= <-]. fields.
      apply list_set_length.
    + intros [= <-]. reflexivity.
Qed.

Lemma attack_rosters (dt : Q) (b c : State.t) :
  carryMate dt (moveMates dt (trap (goals b))) = Some c ->
  State.defenders c = State.defenders b /\
  List.length (State.mates c) = List.length (State.mates b).
Proof.
  pose proof (goals_defenders b) as D1.
  pose proof (proj1 (goals_roster b)) as R1.
  revert D1 R1. generalize (goals b). intros g D1 R1.
  pose proof (trap_defenders g) as D2.
  pose proof (trap_mates_length g) as R2.
  revert D2 R2. generalize (trap g). intros t D2 R2.
  pose proof (moveMates_defenders dt t) as D3.
  pose proof (proj1 (moveMates_roster dt t)) as R3.
  revert D3 R3. generalize (moveMates dt t). intros m D3 R3 Ec.
  pose proof (carryMate_defenders dt m c Ec) as D4.
  pose proof (carryMate_mates_length dt m c Ec) as R4.
  unfold sameDefenders in *. split; congruence.
Qed.

Lemma update_rosters (dt : Q) (s s' : State.t) :
  update dt s = Some s' ->
  List.length (State.defenders s') = List.length (State.defenders s) /\
  List.length (State.mates s') = List.length (State.mates s).
Proof.
  intros Hu. destruct (update_split dt s s' Hu) as (c & Ec & ->).
  destruct (attack_rosters dt _ c Ec) as (D & R).
  pose proof (beforeGoals_defenders dt s) as D0.
  pose proof (proj1 (beforeGoals_roster dt s)) as R0.
  revert D R D0 R0. generalize (beforeGoals dt s). intros b D R D0 R0.
  pose proof (keepers_defenders dt c) as D5.
  pose proof (proj1 (keepers_roster dt c)) as R5.
  revert D5 R5. generalize (keepers dt c). intros k D5 R5.
  pose proof (defend_length dt k) as D6.
  pose proof (proj1 (defend_roster dt k)) as R6.
  unfold sameDefenders in *. split; congruence.
Qed.

Lemma beforeGoals_timersOk (dt : Q) (s : State.t) :
  timersOk (beforeGoals dt s).
Proof.
  unfold timersOk, beforeGoals, tickTimers. fields.
  repeat split; apply Q.le_max_l.
Qed.

Lemma resetBall_timersOk (s : State.t) :
  0 <= State.tackleCd s -> 0 <= State.trapLock s -> timersOk (resetBall s).
Proof.
  intros H2 H3. unfold timersOk, resetBall. fields.
  repeat split; [lra | exact H2 | exact H3].
Qed.

Lemma awayGoal_timersOk (s : State.t) : timersOk s -> timersOk (awayGoal s).
Proof.
  intros (H1 & H2 & H3).
  destruct (awayGoal_shape s) as (v & Ev & _ & El & Et & _).
  rewrite Ev.
  apply resetBall_timersOk; [rewrite Et; exact H2 | rewrite El; exact H3].
Qed.

Lemma homeGoal_timersOk (s : State.t) : timersOk s -> timersOk (homeGoal s).
Proof.
  intros (A & B & C). unfold homeGoal.
  apply resetBall_timersOk; fields; assumption.
Qed.

Lemma goals_timersOk (s : State.t) : timersOk s -> timersOk (goals s).
Proof.
  intros Hs. unfold goals. cbv zeta.
  destruct (crossesAway (State.ball s)).
  - destruct (crossesHome (State.ball (awayGoal s)));
      [apply homeGoal_timersOk|]; apply awayGoal_timersOk; exact Hs.
  - destruct (crossesHome (State.ball s)); [apply homeGoal_timersOk|];
      exact Hs.
Qed.

Lemma trapFrom_timersOk (ms : list Player.t) :
  forall i s, timersOk s -> timersOk (trapFrom i ms s).
Proof.
  induction ms as [|m ms IH]; intros i s Hs; cbn [trapFrom]; [exact Hs|].
  destruct (canTrap s m); [|apply IH; exact Hs].
  destruct Hs as (A & B & C). unfold timersOk, trapBy. fields.
  repeat split; [lra | exact B | lra].
Qed.

Lemma moveMates_timersOk (dt : Q) (s : State.t) :
  timersOk s -> timersOk (moveMates dt s).
Proof. intros (A & B & C). unfold timersOk, moveMates. fields. auto. Qed.

Lemma carryMate_timersOk (dt : Q) (s s' : State.t) :
  carryMate dt s = Some s' -> timersOk s -> timersOk s'.
Proof.
  unfold carryMate. intros Ec (A & B & C).
  destruct (_ =? _)%Z.
  - destruct (nthZ _ _); [|discriminate]. injection Ec as <-.
    unfold timersOk. fields. auto.
  - destruct (0 <=? _)%Z.
    + destruct (nthZ _ _); [|discriminate]. injection Ec as <-.
      unfold timersOk. fields. auto.
    + injection Ec as <-. unfold timersOk. auto.
Qed.

Lemma gkSave_timersOk (gk : Keeper.t) (top : bool) (s : State.t) :
  timersOk s -> timersOk (gkSave gk top s).
Proof.
  intros (A & B & C). unfold gkSave, timersOk.
  destruct top;
    repeat match goal with
      | |- context [if ?c then _ else _] => destruct c
      end; fields; repeat split; first [assumption | lra].
Qed.

Lemma keepers_timersOk (dt : Q) (s : State.t) :
  timersOk s -> timersOk (keepers dt s).
Proof.
  intros (A & B & C). unfold keepers. cbv zeta.
  set (s1 := State.set_gkFR _ s).
  set (s2 := State.set_gkPT _ s1).
  assert (H2 : timersOk s2) by (subst s2 s1; unfold timersOk; fields; auto).
  clearbody s2. clear s1.
  apply gkSave_timersOk. apply gkSave_timersOk. exact H2.
Qed.

Lemma capture_timersOk (i : nat) (p : Player.t) (s : State.t) :
  timersOk s -> timersOk (capture i p s).
Proof.
  intros (A & B & C). unfold capture.
  destruct (canCapture i p s); [|unfold timersOk; auto].
  unfold timersOk. fields. repeat split; [lra | lra | exact C].
Qed.

Lemma carry_timersOk (i : nat) (p : Player.t) (s : State.t) :
  timersOk s -> timersOk (carry i p s).
Proof.
  intros (A & B & C). unfold carry, timersOk.
  destruct (isCarrier s i); [|auto].
  destruct (_ && _); fields; repeat split; first [assumption | lra].
Qed.

Lemma defendLoop_timersOk (dt : Q) (eng : list nat) (ps : list Player.t) :
  forall i s, timersOk s -> timersOk (snd (defendLoop dt eng i ps s)).
Proof.
  induction ps as [|p ps IH]; intros i s Hs; cbn [defendLoop]; [exact Hs|].
  unfold defenderStep.
  set (p1 := moveDefender dt (has eng i) s p).
  pose proof (carry_timersOk i p1 _ (capture_timersOk i p1 s Hs)) as H2.
  specialize (IH (S i) _ H2).
  destruct (defendLoop dt eng (S i) ps _) as [ps' s'']. exact IH.
Qed.

Lemma defend_timersOk (dt : Q) (s : State.t) :
  timersOk s -> timersOk (defend dt s).
Proof.
  intros Hs. unfold defend.
  pose proof (defendLoop_timersOk dt (engagedSet s) (State.defenders s)
                0%nat s Hs) as Hl.
  destruct (defendLoop _ _ _ _ _) as [ps s']. cbn [snd] in Hl.
  destruct Hl as (A & B & C). unfold timersOk. fields. auto.
Qed.

Lemma timersOk_after_tick (dt : Q) (s s' : State.t) :
  update dt s = Some s' -> timersOk s'.
Proof.
  intros Hu. destruct (update_split dt s s' Hu) as (c & Ec & ->).
  apply defend_timersOk, keepers_timersOk.
  apply (carryMate_timersOk _ _ _ Ec).
  apply moveMates_timersOk.
  apply (trapFrom_timersOk (State.mates (goals (beforeGoals dt s))) 0).
  apply goals_timersOk, beforeGoals_timersOk.
Qed.

Lemma passGrace_nonneg (s : State.t) :
  tierOk s -> 0 <= optField (State.cfg s) Level.passGrace 700.
Proof.
  intros (Hr & Hc). rewrite Hc. rewrite LAST_LEVEL_value in Hr.
  assert (Hcases : (State.levelIdx s = 0 \/ State.levelIdx s = 1
                    \/ State.levelIdx s = 2 \/ State.levelIdx s = 3
                    \/ State.levelIdx s = 4 \/ State.levelIdx s = 5
                    \/ State.levelIdx s = 6)%Z) by lia.
  destruct Hcases as [-> | [-> | [-> | [-> | [-> | [-> | ->]]]]]];
    cbn; discriminate.
Qed.

Lemma shoot_timersOk (now : Q) (s : State.t) :
  timersOk s -> timersOk (shoot now s).
Proof.
  intros (A & B & C). unfold shoot, timersOk. fields.
  repeat split; [lra | exact B | lra].
Qed.

Lemma passToIndex_timersOk (idx : Z) (s : State.t) :
  tierOk s -> timersOk s -> timersOk (passToIndex idx s).
Proof.
  intros Ht (A & B & C). pose proof (passGrace_nonneg s Ht) as Hg.
  unfold passToIndex. cbv zeta.
  destruct (nthZ (State.mates s) idx); [|unfold timersOk; auto].
  unfold timersOk. fields. repeat split; [exact Hg | exact B | lra].
Qed.

(** What one event keeps: both rosters keep their size and the timers stay
    non-negative. *)
Lemma handle_steady (e : Event) (s s' : State.t) :
  wellFormed s -> timersOk s -> handle e s = Some s' ->
  timersOk s' /\
  List.length (State.defenders s') = List.length (State.defenders s) /\
  List.length (State.mates s') = List.length (State.mates s).
Proof.
  intros (Ht & _) Htm.
  destruct e as [t | button rawX rawY sh ct now | rawX rawY
                 | button now | key sh | key]; cbn [handle].
  - unfold step. cbv zeta. intros Hu.
    split; [exact (timersOk_after_tick _ _ _ Hu)|].
    destruct (update_rosters _ _ _ Hu) as (E1 & E2).
    rewrite E1, E2. fields. auto.
  - intros [= <-]. unfold mousedown.
    destruct (button =? 2)%Z.
    + split; [apply passToIndex_timersOk; assumption|].
      unfold passToSelected, passToIndex. cbv zeta.
      destruct (nthZ _ _); fields; auto.
    + destruct (button =? 0)%Z; cbn [negb]; [|auto].
      destruct Htm as (A & B & C). unfold timersOk. fields. auto.
  - intros [= <-]. unfold mousemove.
    destruct (State.charging s); cbn [negb]; [|auto].
    destruct Htm as (A & B & C). unfold timersOk. fields. auto.
  - intros [= <-]. destruct (button =? 0)%Z; [|auto].
    unfold mouseup. destruct (State.charging s); [|auto].
    split.
    + apply shoot_timersOk. destruct Htm as (A & B & C).
      unfold timersOk. fields. auto.
    + unfold shoot. fields. auto.
  - intros [= <-]. unfold keydown. cbv zeta.
    destruct Htm as (A & B & C).
    destruct (String.eqb key "Tab"); unfold cycleSelected, timersOk; fields;
      auto.
  - intros [= <-]. destruct Htm as (A & B & C).
    unfold keyup, timersOk. fields. auto.
Qed.

Lemma play_steady (es : list Event) :
  forall s s', wellFormed s -> timersOk s -> play es s = Some s' ->
    timersOk s' /\
    List.length (State.defenders s') = List.length (State.defenders s) /\
    List.length (State.mates s') = List.length (State.mates s).
Proof.
  induction es as [|e es IH]; intros s s' Hw Ht; cbn [play].
  - intros [= <-]. auto.
  - destruct (handle e s) as [u|] eqn:Eh; [|discriminate]. intros Hp.
    destruct (handle_steady e s u Hw Ht Eh) as (Ht' & E1 & E2).
    destruct (handle_wellFormed e s Hw) as (u' & Eh' & Hw').
    rewrite Eh in Eh'. injection Eh' as <-.
    destruct (IH u s' Hw' Ht' Hp) as (A & B & C).
    split; [exact A|]. split; congruence.
Qed.

(** In every state of a session both sides field ten outfield players, the
    three countdown timers are not negative, the selected player is one of
    the ten mates, and no event ever makes the handlers throw. *)
Theorem session_keeps_rosters (s : State.t) :
  reachable s ->
  List.length (State.defenders s) = NUM_DEFENDERS /\
  List.length (State.mates s) = NUM_TEAMMATES /\
  (0 <= State.selectedIdx s < 10)%Z /\
  (0 <= State.protect s /\ 0 <= State.tackleCd s /\ 0 <= State.trapLock s) /\
  Ball.r (State.ball s) = BALL_R /\
  (forall e, exists s', handle e s = Some s').
Proof.
  intros Hr. pose proof (reachable_wellFormed s Hr) as Hw.
  destruct Hr as (now & es & Hp).
  assert (Hi : timersOk (initState now)).
  { unfold initState, applyLevel, timersOk. cbv zeta. fields.
    repeat split; lra. }
  destruct (play_steady es (initState now) s (initState_wellFormed now) Hi Hp)
    as (Ht & E1 & E2).
  assert (L1 : List.length (State.defenders (initState now)) = 10%nat)
    by (unfold initState, applyLevel; cbv zeta; fields; reflexivity).
  assert (L2 : List.length (State.mates (initState now)) = 10%nat)
    by (unfold initState, applyLevel; cbv zeta; fields; reflexivity).
  rewrite L1 in E1. rewrite L2 in E2.
  split; [exact E1|]. split; [exact E2|].
  destruct Hw as (Hto & Hmo & Hrad & Hcap).
  split.
  { unfold matesOk in Hmo. cbv zeta in Hmo. rewrite E2 in Hmo.
    destruct Hmo as (Hsel & _). exact Hsel. }
  split; [exact Ht|]. split; [exact Hrad|].
  intros e.
  destruct (handle_wellFormed e s (conj Hto (conj Hmo (conj Hrad Hcap))))
    as (s' & He & _).
  exists s'. exact He.
Qed.

End Session.

Lemma opening_reachable : @reachable refMath opening.
Proof. exists 0, openingEvents. vm_compute. reflexivity. Defined.

Lemma tier_follows_score_witness :
  @reachable refMath opening /\
  State.levelIdx opening = Z.min (State.score opening / 2) LAST_LEVEL.
Proof.
  split; [exact opening_reachable|].
  exact (proj1 (proj2 (proj2 (proj2 (proj2
           (tier_follows_score (M := refMath) opening opening_reachable)))))).
Defined.

Lemma session_keeps_rosters_witness :
  @reachable refMath opening /\
  List.length (State.defenders opening) = NUM_DEFENDERS /\
  List.length (State.mates opening) = NUM_TEAMMATES.
Proof.
  split; [exact opening_reachable|].
  pose proof (session_keeps_rosters (M := refMath) opening opening_reachable)
    as (H1 & H2 & _).
  split; [exact H1 | exact H2].
Defined.

(** ** The life of the service worker's caches *)

Section CacheLife.
Variable network network' : SW.Request -> option SW.Response.
Variable selfOrigin : string.

Lemma sameUrl_spec (a b : SW.Request) :
  SW.sameUrl a b = true <->
  SW.origin a = SW.origin b /\ SW.pathname a = SW.pathname b
  /\ SW.search a = SW.search b.
Proof.
  unfold SW.sameUrl. rewrite !andb_true_iff, !String.eqb_eq. tauto.
Qed.

Lemma sameUrl_common (k a b : SW.Request) :
  SW.sameUrl k a = true -> SW.sameUrl k b = true -> SW.sameUrl a b = true.
Proof.
  rewrite !sameUrl_spec. intros (A1 & A2 & A3) (B1 & B2 & B3).
  repeat split; congruence.
Qed.

Lemma sameUrl_sym (a b : SW.Request) :
  SW.sameUrl a b = true -> SW.sameUrl b a = true.
Proof. rewrite !sameUrl_spec. intros (A1 & A2 & A3). auto. Qed.

(** The lookup reads of a request its method and its URL only. *)
Lemma cache_match_url (c : SW.Cache) (a b : SW.Request) :
  SW.sameUrl a b = true -> SW.method a = SW.method b ->
  SW.cache_match c a = SW.cache_match c b.
Proof.
  intros Hu Hm. induction c as [|[k v] c IH]; cbn [SW.cache_match];
    [reflexivity|].
  rewrite Hm, IH.
  destruct (SW.sameUrl k a) eqn:Ea, (SW.sameUrl k b) eqn:Eb; try reflexivity.
  - rewrite (sameUrl_common a k b (sameUrl_sym _ _ Ea) Hu) in Eb.
    discriminate.
  - rewrite (sameUrl_common b k a (sameUrl_sym _ _ Eb) (sameUrl_sym _ _ Hu))
      in Ea. discriminate.
Qed.

Lemma caches_match_url (cs : SW.CacheStorage) (a b : SW.Request) :
  SW.sameUrl a b = true -> SW.method a = SW.method b ->
  SW.caches_match cs a = SW.caches_match cs b.
Proof.
  intros Hu Hm. induction cs as [|[n c] cs IH]; cbn [SW.caches_match];
    [reflexivity|].
  rewrite (cache_match_url c a b Hu Hm), IH. reflexivity.
Qed.

(** Storing a response for one URL does not change what a cache answers to
    a request of another URL, or of another method. *)
Lemma cache_match_put_other (c : SW.Cache) (req q : SW.Request)
    (res : SW.Response) :
  String.eqb (SW.method q) "GET" && SW.sameUrl req q = false ->
  SW.cache_match (SW.cache_put c req res) q = SW.cache_match c q.
Proof.
  intros Hn. unfold SW.cache_put.
  induction c as [|[k v] c IH]; cbn [filter app SW.cache_match fst].
  - rewrite Hn. reflexivity.
  - destruct (SW.sameUrl k req) eqn:E; cbn [negb].
    + rewrite IH.
      destruct (String.eqb (SW.method q) "GET"); cbn [andb] in *;
        [|reflexivity].
      destruct (SW.sameUrl k q) eqn:Eq; [|reflexivity].
      rewrite (sameUrl_common k req q E Eq) in Hn. discriminate.
    + cbn [app SW.cache_match]. rewrite IH. reflexivity.
Qed.

Lemma caches_match_put_other (name : string) (cs : SW.CacheStorage)
    (req q : SW.Request) (res : SW.Response) :
  String.eqb (SW.method q) "GET" && SW.sameUrl req q = false ->
  SW.caches_match (SW.open_put name req res cs) q = SW.caches_match cs q.
Proof.
  intros Hn. induction cs as [|[n c] cs IH]; cbn [SW.open_put SW.caches_match].
  - rewrite (cache_match_put_other [] req q res Hn). reflexivity.
  - destruct (String.eqb n name); cbn [SW.caches_match].
    + rewrite (cache_match_put_other c req q res Hn). reflexivity.
    + rewrite IH. reflexivity.
Qed.

Lemma caches_match_get (cs : SW.CacheStorage) (q : SW.Request)
    (r : SW.Response) :
  SW.caches_match cs q = Some r -> String.eqb (SW.method q) "GET" = true.
Proof.
  induction cs as [|[n c] cs IH]; cbn [SW.caches_match]; [discriminate|].
  destruct (SW.cache_match c q) eqn:Ec; [intros _ | exact IH].
  clear IH. induction c as [|[k v] c IHc]; cbn [SW.cache_match] in Ec;
    [discriminate|].
  destruct (String.eqb (SW.method q) "GET"); [reflexivity|].
  cbn [andb] in Ec. exact (IHc Ec).
Qed.

Lemma cacheFirst_hit (net : SW.Request -> option SW.Response)
    (req : SW.Request) (r : SW.Response) (w : SW.World) :
  SW.caches_match (SW.caches w) req = Some r ->
  SW.cacheFirst net req w = (SW.Fulfilled (Some r), w).
Proof.
  intros Hc. unfold SW.cacheFirst, SW.bind, SW.matchAll. rewrite Hc.
  reflexivity.
Qed.

Lemma onFetch_hit (net : SW.Request -> option SW.Response)
    (req : SW.Request) (r : SW.Response) (w : SW.World) :
  SW.inScope selfOrigin req ->
  SW.caches_match (SW.caches w) req = Some r ->
  SW.onFetch net selfOrigin req w
  = (SW.RespondWith (SW.Fulfilled (Some r)), w).
Proof.
  intros Hs Hc.
  rewrite (onFetch_inScope net selfOrigin req w Hs),
    (cacheFirst_hit net req r w Hc).
  reflexivity.
Qed.

Lemma onFetch_miss (req : SW.Request) (res : SW.Response) (w : SW.World) :
  SW.inScope selfOrigin req ->
  SW.caches_match (SW.caches w) req = None ->
  network req = Some res ->
  SW.onFetch network selfOrigin req w
  = (SW.RespondWith (SW.Fulfilled (Some res)),
     SW.mkWorld (SW.caches w) (SW.fetched w ++ [req])%list
       (SW.pending w ++ [(req, res)])%list).
Proof.
  intros Hs Hc Hn. rewrite (onFetch_inScope network selfOrigin req w Hs).
  unfold SW.cacheFirst, SW.bind, SW.matchAll. rewrite Hc.
  unfold SW.fetch, SW.put, SW.then_, SW.catch_, SW.bind, SW.ret.
  rewrite Hn. reflexivity.
Qed.

Lemma remove_nth_In {A : Type} (l : list A) :
  forall n a, In a (SW.remove_nth n l) -> In a l.
Proof.
  induction l as [|x l IH]; intros n a; cbn [SW.remove_nth].
  - destruct n; intros [].
  - destruct n as [|n]; [intros Ha; right; exact Ha|].
    intros [<- | Ha]; [left; reflexivity | right; exact (IH n a Ha)].
Qed.

Lemma onFetch_quiet (net : SW.Request -> option SW.Response)
    (req q : SW.Request) (r : SW.Response) (w : SW.World) :
  quiet q r w -> quiet q r (snd (SW.onFetch net selfOrigin req w)).
Proof.
  intros (Hq & Hp). unfold SW.onFetch.
  destruct (negb _); [split; assumption|].
  destruct (negb _); [split; assumption|].
  destruct (String.eqb (SW.method req) "GET") eqn:Hget; [|split; assumption].
  unfold SW.cacheFirst, SW.bind, SW.matchAll, SW.ret.
  destruct (SW.caches_match (SW.caches w) req) eqn:Hc; cbn [SW.truthy snd];
    [split; assumption|].
  unfold SW.fetch, SW.put, SW.then_, SW.catch_, SW.bind, SW.ret.
  destruct (net req) as [res|]; cbn [snd SW.caches SW.pending];
    [|split; assumption].
  split; [exact Hq|].
  intros e He. apply in_app_or in He. destruct He as [He | [<- | []]];
    [exact (Hp e He)|].
  cbn [fst]. destruct (SW.sameUrl req q) eqn:Eu; [|reflexivity].
  pose proof (caches_match_get _ _ _ Hq) as Hgq.
  apply String.eqb_eq in Hget, Hgq.
  rewrite (caches_match_url (SW.caches w) req q Eu) in Hc by congruence.
  congruence.
Qed.

Lemma settle_quiet (n : nat) (q : SW.Request) (r : SW.Response)
    (w : SW.World) :
  quiet q r w -> quiet q r (SW.settle n w).
Proof.
  intros (Hq & Hp). unfold SW.settle.
  destruct (nth_error (SW.pending w) n) as [[req res]|] eqn:En;
    [|split; assumption].
  split; cbn [SW.caches SW.pending].
  - destruct (String.eqb (SW.method req) "GET" && SW.storable res).
    + rewrite caches_match_put_other; [exact Hq|].
      pose proof (Hp (req, res) (nth_error_In _ _ En)) as Hu.
      cbn [fst] in Hu. rewrite Hu. apply andb_false_r.
    + rewrite caches_match_open_cache. exact Hq.
  - intros e He. apply Hp. exact (remove_nth_In _ _ _ He).
Qed.

Lemma browse_quiet (net : SW.Request -> option SW.Response)
    (acts : list SW.Activity) (q : SW.Request) (r : SW.Response) :
  forall w, quiet q r w -> quiet q r (SW.browse net selfOrigin acts w).
Proof.
  induction acts as [|a acts IH]; intros w Hq; cbn [SW.browse]; [exact Hq|].
  apply IH. destruct a as [req | n]; cbn [SW.act].
  - apply onFetch_quiet. exact Hq.
  - apply settle_quiet. exact Hq.
Qed.

(** What a cache answers is never replaced by the fetch handler once no
    backfill for the same URL is in flight: when the cache storage answers a
    request with a response and no pending put is for its URL, the storage
    still answers it with that response after any run of fetch events and
    settling puts, whatever is requested and whatever the network says, and
    still no put for its URL is pending; the handler hands out that
    response when the request is in its scope, leaving the world as it
    is. *)
Theorem cached_answer_is_kept (acts : list SW.Activity) (q : SW.Request)
    (r : SW.Response) (w : SW.World) :
  SW.caches_match (SW.caches w) q = Some r ->
  (forall e, In e (SW.pending w) -> SW.sameUrl (fst e) q = false) ->
  let w' := SW.browse network selfOrigin acts w in
  SW.caches_match (SW.caches w') q = Some r /\
  (forall e, In e (SW.pending w') -> SW.sameUrl (fst e) q = false) /\
  (SW.inScope selfOrigin q ->
   SW.onFetch network' selfOrigin q w'
   = (SW.RespondWith (SW.Fulfilled (Some r)), w')).
Proof.
  intros Hq Hp w'.
  destruct (browse_quiet network acts q r w (conj Hq Hp)) as (Hk & Hp').
  fold w' in Hk, Hp'. split; [exact Hk|]. split; [exact Hp'|].
  intros Hs. exact (onFetch_hit network' q r w' Hs Hk).
Qed.

Lemma nth_error_last {A : Type} (l : list A) (a : A) :
  nth_error (l ++ [a])%list (List.length l) = Some a.
Proof. induction l as [|x l IH]; [reflexivity | exact IH]. Qed.

Lemma remove_nth_last {A : Type} (l : list A) (a : A) :
  SW.remove_nth (List.length l) (l ++ [a])%list = l.
Proof.
  induction l as [|x l IH]; [reflexivity|].
  cbn [List.length app SW.remove_nth]. rewrite IH. reflexivity.
Qed.

(** The answer of the network to a request that missed the caches is
    stored and served from then on, an error page as well as a good one,
    when it is no partial response and no other backfill for the URL is in
    flight: once the put that the miss started has settled, and after any
    further run of fetch events and settling puts, the handler answers the
    request with that response without asking the network, even when the
    network would now answer otherwise. *)
Theorem first_answer_sticks (req : SW.Request) (res : SW.Response)
    (acts : list SW.Activity) (w : SW.World) :
  SW.inScope selfOrigin req ->
  SW.caches_match (SW.caches w) req = None ->
  (forall e, In e (SW.pending w) -> SW.sameUrl (fst e) req = false) ->
  network req = Some res ->
  SW.status res <> 206%Z ->
  let w1 := snd (SW.onFetch network selfOrigin req w) in
  let w' := SW.browse network' selfOrigin acts
              (SW.settle (List.length (SW.pending w)) w1) in
  SW.pending w1 = (SW.pending w ++ [(req, res)])%list /\
  SW.onFetch network' selfOrigin req w'
  = (SW.RespondWith (SW.Fulfilled (Some res)), w') /\
  SW.delivered network' req (fst (SW.onFetch network' selfOrigin req w'))
  = SW.Served res /\
  SW.fetched (snd (SW.onFetch network' selfOrigin req w')) = SW.fetched w'.
Proof.
  intros Hs Hc Hp Hn Hst w1 w'.
  assert (E1 : w1 = SW.mkWorld (SW.caches w) (SW.fetched w ++ [req])%list
                      (SW.pending w ++ [(req, res)])%list).
  { subst w1. rewrite (onFetch_miss req res w Hs Hc Hn). reflexivity. }
  assert (Hq : quiet req res (SW.settle (List.length (SW.pending w)) w1)).
  { rewrite E1. unfold SW.settle. cbn [SW.pending SW.caches SW.fetched].
    rewrite nth_error_last, remove_nth_last.
    rewrite (proj2 (proj2 Hs)), String.eqb_refl. unfold SW.storable.
    apply Z.eqb_neq in Hst. rewrite Hst. cbn [negb andb].
    split; cbn [SW.caches SW.pending].
    - apply caches_match_open_put; [exact (proj2 (proj2 Hs)) | exact Hc].
    - exact Hp. }
  destruct (browse_quiet network' acts req res _ Hq) as (H2 & _).
  fold w' in H2.
  pose proof (onFetch_hit network' req res w' Hs H2) as H3.
  split; [rewrite E1; reflexivity|].
  rewrite H3. cbn [fst snd SW.delivered]. auto.
Qed.

(** *** Activation *)

Lemma all_cons {A B : Type} (f : A -> SW.Job B) (a : A) (l : list A)
    (w : SW.World) :
  snd (SW.all f (a :: l) w) = snd (SW.all f l (snd (f a w))).
Proof.
  cbn [SW.all]. unfold SW.bind, SW.ret.
  destruct (f a w) as [b w1]. cbn [snd].
  destruct (SW.all f l w1) as [bs w2]. reflexivity.
Qed.

Lemma all_delete_caches (ks : list string) :
  forall w,
    SW.caches (snd (SW.all SW.caches_delete ks w))
    = filter (fun e => negb (existsb (String.eqb (fst e)) ks)) (SW.caches w)
    /\ SW.fetched (snd (SW.all SW.caches_delete ks w)) = SW.fetched w
    /\ SW.pending (snd (SW.all SW.caches_delete ks w)) = SW.pending w.
Proof.
  induction ks as [|k ks IH]; intros w.
  - cbn [SW.all]. unfold SW.ret. cbn [snd existsb negb].
    split; [|split; reflexivity].
    induction (SW.caches w) as [|e cs IHc]; cbn [filter];
      [reflexivity | rewrite <- IHc; reflexivity].
  - rewrite all_cons.
    destruct (IH (snd (SW.caches_delete k w))) as (Ec & Ef & Ep).
    rewrite Ec, Ef, Ep. unfold SW.caches_delete.
    cbn [snd SW.caches SW.fetched SW.pending].
    split; [|split; reflexivity].
    induction (SW.caches w) as [|e cs IHc]; cbn [filter]; [reflexivity|].
    cbn [existsb]. destruct (String.eqb (fst e) k); cbn [negb orb filter].
    + exact IHc.
    + destruct (negb (existsb (String.eqb (fst e)) ks)); rewrite IHc;
        reflexivity.
Qed.

Lemma stale_keys (cs : SW.CacheStorage) (e : string * SW.Cache) :
  In e cs ->
  negb (existsb (String.eqb (fst e))
          (filter (fun k => negb (String.eqb k SW.VERSION)) (map fst cs)))
  = String.eqb (fst e) SW.VERSION.
Proof.
  intros Hin. destruct (String.eqb (fst e) SW.VERSION) eqn:Ev.
  - apply negb_true_iff. apply not_true_is_false. intros Hex.
    apply existsb_exists in Hex. destruct Hex as (k & Hk & Ek).
    apply filter_In in Hk. destruct Hk as (_ & Hk).
    apply String.eqb_eq in Ek. subst k. rewrite Ev in Hk. discriminate.
  - apply negb_false_iff. apply existsb_exists. exists (fst e).
    split; [|apply String.eqb_refl].
    apply filter_In. split; [apply in_map; exact Hin | rewrite Ev; reflexivity].
Qed.

Lemma activate_caches (w : SW.World) :
  SW.caches (snd (SW.activate w))
  = filter (fun e => String.eqb (fst e) SW.VERSION) (SW.caches w)
  /\ SW.fetched (snd (SW.activate w)) = SW.fetched w
  /\ SW.pending (snd (SW.activate w)) = SW.pending w.
Proof.
  unfold SW.activate, SW.bind, SW.caches_keys, SW.ret.
  destruct (all_delete_caches
              (filter (fun k => negb (String.eqb k SW.VERSION))
                 (map fst (SW.caches w))) w) as (Ec & Ef & Ep).
  destruct (SW.all _ _ w) as [bs w2]. cbn [snd] in *.
  split; [|split; [exact Ef | exact Ep]]. rewrite Ec.
  apply filter_ext_in. intros e Hin. apply stale_keys. exact Hin.
Qed.

(** Activation deletes every cache that is not named after the current
    version and nothing else: the caches left are those named [VERSION],
    with their entries as they were; the promise is fulfilled and nothing
    is asked of the network.  So a response that only an old cache held is
    no longer served: after activation the storage answers a request as
    the caches of the current version alone did before. *)
Theorem activate_purges_stale (w : SW.World) :
  fst (SW.activate w) = SW.Fulfilled tt /\
  SW.fetched (snd (SW.activate w)) = SW.fetched w /\
  SW.pending (snd (SW.activate w)) = SW.pending w /\
  (forall n c,
      In (n, c) (SW.caches (snd (SW.activate w)))
      <-> In (n, c) (SW.caches w) /\ n = SW.VERSION) /\
  (forall q,
      SW.caches_match (SW.caches (snd (SW.activate w))) q
      = SW.caches_match
          (filter (fun e => String.eqb (fst e) SW.VERSION) (SW.caches w)) q).
Proof.
  destruct (activate_caches w) as (Ec & Ef & Ep).
  split.
  { unfold SW.activate, SW.bind, SW.caches_keys, SW.ret.
    destruct (SW.all _ _ w). reflexivity. }
  split; [exact Ef|]. split; [exact Ep|]. split.
  - intros n c. rewrite Ec, filter_In. cbn [fst]. rewrite String.eqb_eq.
    tauto.
  - intros q. rewrite Ec. reflexivity.
Qed.

(** *** Installation *)

Lemma fetchAll_spec (urls : list string) :
  (exists es, SW.fetchAll network selfOrigin urls = Some es) <->
  (forall u, In u urls ->
     exists res, network (SW.assetRequest selfOrigin u) = Some res
                 /\ SW.ok res = true /\ SW.storable res = true).
Proof.
  induction urls as [|u urls IH]; cbn [SW.fetchAll].
  - split; [intros _ v [] | intros _; eauto].
  - split.
    + intros (es & Hes) v [<- | Hin].
      * destruct (network (SW.assetRequest selfOrigin u)) as [res|];
          [|discriminate].
        destruct (SW.ok res && SW.storable res) eqn:Eok; [|discriminate].
        apply andb_true_iff in Eok. eauto.
      * apply IH; [|exact Hin].
        destruct (network (SW.assetRequest selfOrigin u)) as [res|];
          [|discriminate].
        destruct (SW.ok res && SW.storable res); [|discriminate].
        destruct (SW.fetchAll network selfOrigin urls) as [es'|];
          [eauto | discriminate].
    + intros Hall.
      destruct (Hall u (or_introl eq_refl)) as (res & -> & -> & ->).
      destruct (proj2 IH (fun v Hv => Hall v (or_intror Hv))) as (es & ->).
      cbn [andb]. eauto.
Qed.

Lemma fetchAll_entries (urls : list string) :
  forall es,
    SW.fetchAll network selfOrigin urls = Some es ->
    map fst es = map (SW.assetRequest selfOrigin) urls /\
    (forall u, In u urls ->
       exists res, In (SW.assetRequest selfOrigin u, res) es
                   /\ network (SW.assetRequest selfOrigin u) = Some res
                   /\ SW.ok res = true /\ SW.storable res = true).
Proof.
  induction urls as [|u urls IH]; intros es; cbn [SW.fetchAll].
  - intros [= <-]. split; [reflexivity | intros v []].
  - destruct (network (SW.assetRequest selfOrigin u)) as [res|] eqn:En;
      [|discriminate].
    destruct (SW.ok res && SW.storable res) eqn:Eok; [|discriminate].
    apply andb_true_iff in Eok. destruct Eok as (Eok & Est).
    destruct (SW.fetchAll network selfOrigin urls) as [es'|]; [|discriminate].
    intros [= <-]. destruct (IH es' eq_refl) as (Em & Hin).
    split; [cbn [map fst]; rewrite Em; reflexivity|].
    intros v [<- | Hv].
    + exists res. split; [left; reflexivity | auto].
    + destruct (Hin v Hv) as (r & Hr & Hn & Ho).
      exists r. split; [right; exact Hr | auto].
Qed.

Lemma versionMatch_put_other (cs : SW.CacheStorage) (req q : SW.Request)
    (res : SW.Response) :
  String.eqb (SW.method q) "GET" && SW.sameUrl req q = false ->
  versionMatch (SW.open_put SW.VERSION req res cs) q = versionMatch cs q.
Proof.
  intros Hn. unfold versionMatch.
  induction cs as [|[n c] cs IH]; cbn [SW.open_put filter fst].
  - rewrite String.eqb_refl. cbn [SW.caches_match].
    rewrite (cache_match_put_other [] req q res Hn). reflexivity.
  - destruct (String.eqb n SW.VERSION) eqn:En; cbn [filter fst]; rewrite En.
    + cbn [SW.caches_match]. rewrite (cache_match_put_other c req q res Hn).
      reflexivity.
    + exact IH.
Qed.

Lemma assetRequest_sameUrl (u v : string) :
  SW.sameUrl (SW.assetRequest selfOrigin u) (SW.assetRequest selfOrigin v)
  = String.eqb u v.
Proof.
  unfold SW.sameUrl, SW.assetRequest. cbn [SW.origin SW.pathname SW.search].
  rewrite String.eqb_refl, andb_true_r. reflexivity.
Qed.

Lemma putAll_other (es : list (SW.Request * SW.Response)) (q : SW.Request) :
  forall cs,
    (forall e, In e es -> SW.sameUrl (fst e) q = false) ->
    versionMatch (SW.putAll SW.VERSION es cs) q = versionMatch cs q.
Proof.
  unfold SW.putAll.
  induction es as [|e es IH]; intros cs Hd; cbn [fold_left]; [reflexivity|].
  rewrite IH by (intros e' He'; apply Hd; right; exact He').
  apply versionMatch_put_other.
  rewrite (Hd e (or_introl eq_refl)). apply andb_false_r.
Qed.

Lemma putAll_stored (urls : list string) :
  forall es cs u res,
    map fst es = map (SW.assetRequest selfOrigin) urls ->
    SW.distinct urls = true ->
    In (SW.assetRequest selfOrigin u, res) es ->
    (forall res', In (SW.assetRequest selfOrigin u, res') es -> res' = res) ->
    versionMatch (SW.putAll SW.VERSION es cs) (SW.assetRequest selfOrigin u)
    = Some res.
Proof.
  induction urls as [|v urls IH]; intros es cs u res Hm Hd Hin Huniq.
  - destruct es; [destruct Hin | discriminate].
  - destruct es as [|[k r] es]; [discriminate|].
    cbn [map fst] in Hm. injection Hm as Hk Hm. subst k.
    cbn [SW.distinct] in Hd. apply andb_true_iff in Hd.
    destruct Hd as (Hnew & Hd). apply negb_true_iff in Hnew.
    unfold SW.putAll. cbn [fold_left fst snd].
    fold (SW.putAll SW.VERSION es
            (SW.open_put SW.VERSION (SW.assetRequest selfOrigin v) r cs)).
    destruct (String.eqb v u) eqn:Evu.
    + apply String.eqb_eq in Evu. subst v.
      assert (r = res) by (apply Huniq; left; reflexivity). subst r.
      rewrite putAll_other.
      * apply versionMatch_put. reflexivity.
      * intros e He. destruct (SW.sameUrl (fst e) _) eqn:Es; [|reflexivity].
        apply (in_map fst) in He. rewrite Hm in He.
        apply in_map_iff in He. destruct He as (x & Ex & Hx).
        rewrite <- Ex, assetRequest_sameUrl in Es.
        assert (Hex : existsb (String.eqb u) urls = true).
        { apply existsb_exists. exists x. split; [exact Hx|].
          rewrite String.eqb_sym. exact Es. }
        congruence.
    + destruct Hin as [Hin | Hin].
      * injection Hin as Hin _.
        rewrite Hin, String.eqb_refl in Evu. discriminate.
      * apply (IH es _ u res Hm Hd Hin).
        intros res' Hres'. apply Huniq. right. exact Hres'.
Qed.

Lemma entries_functional (urls : list string) :
  forall es u res res',
    SW.fetchAll network selfOrigin urls = Some es ->
    In (SW.assetRequest selfOrigin u, res) es ->
    network (SW.assetRequest selfOrigin u) = Some res' -> res = res'.
Proof.
  induction urls as [|v urls IH]; intros es u res res'; cbn [SW.fetchAll].
  - intros [= <-] [].
  - destruct (network (SW.assetRequest selfOrigin v)) as [r|] eqn:En;
      [|discriminate].
    destruct (SW.ok r && SW.storable r); [|discriminate].
    destruct (SW.fetchAll network selfOrigin urls) as [es'|] eqn:Ef;
      [|discriminate].
    intros [= <-] [Hin | Hin] Hn.
    + injection Hin as Hv Hr.
      assert (Evu : v = u) by (unfold SW.assetRequest in Hv; congruence).
      subst v. congruence.
    + exact (IH es' u res res' eq_refl Hin Hn).
Qed.

Lemma core_assets_distinct : SW.distinct SW.CORE_ASSETS = true.
Proof. reflexivity. Qed.

Lemma core_assets_in_scope (u : string) :
  In u SW.CORE_ASSETS -> String.prefix "/kickcraft/" u = true.
Proof.
  intros Hin.
  assert (Hall : forallb (String.prefix "/kickcraft/") SW.CORE_ASSETS = true)
    by reflexivity.
  exact (proj1 (forallb_forall _ _) Hall u Hin).
Qed.

Lemma install_unfold (w : SW.World) :
  SW.install network selfOrigin w
  = match SW.fetchAll network selfOrigin SW.CORE_ASSETS with
    | Some es =>
        (SW.Fulfilled tt,
         SW.mkWorld
           (SW.putAll SW.VERSION es (SW.open_cache SW.VERSION (SW.caches w)))
           (SW.fetched w ++ map (SW.assetRequest selfOrigin) SW.CORE_ASSETS)
           %list (SW.pending w))
    | None =>
        (SW.Rejected,
         SW.mkWorld (SW.open_cache SW.VERSION (SW.caches w))
           (SW.fetched w ++ map (SW.assetRequest selfOrigin) SW.CORE_ASSETS)
           %list (SW.pending w))
    end.
Proof.
  unfold SW.install, SW.bind, SW.open_, SW.addAll, SW.then_, SW.ret.
  cbn [SW.caches SW.fetched SW.pending]. rewrite core_assets_distinct.
  destruct (SW.fetchAll network selfOrigin SW.CORE_ASSETS); reflexivity.
Qed.

(** What the install listener asks for and when it succeeds.  It asks the
    network for each of the twelve core assets, as a GET on the origin of
    the worker, in the order of the list and whatever the answers are; no
    URL of the list comes twice and every one lies in the scope of the
    fetch listener.  The install promise is fulfilled exactly when every
    asset is answered with an ok response that is no partial one; when it is
    rejected, no entry has been stored: the cache storage is the one
    before, with the empty cache of the version created when there was
    none, and it answers every request as before. *)
Theorem install_all_or_nothing (w : SW.World) :
  SW.fetched (snd (SW.install network selfOrigin w))
  = (SW.fetched w ++ map (SW.assetRequest selfOrigin) SW.CORE_ASSETS)%list /\
  SW.pending (snd (SW.install network selfOrigin w)) = SW.pending w /\
  SW.distinct SW.CORE_ASSETS = true /\
  (forall u, In u SW.CORE_ASSETS ->
     SW.inScope selfOrigin (SW.assetRequest selfOrigin u)) /\
  (fst (SW.install network selfOrigin w) = SW.Fulfilled tt <->
   forall u, In u SW.CORE_ASSETS ->
     exists res, network (SW.assetRequest selfOrigin u) = Some res
                 /\ SW.ok res = true /\ SW.status res <> 206%Z) /\
  (fst (SW.install network selfOrigin w) = SW.Rejected ->
   SW.caches (snd (SW.install network selfOrigin w))
   = SW.open_cache SW.VERSION (SW.caches w) /\
   forall q, SW.caches_match (SW.caches (snd (SW.install network selfOrigin w))) q
             = SW.caches_match (SW.caches w) q).
Proof.
  rewrite install_unfold.
  assert (Hspec :
    (exists es, SW.fetchAll network selfOrigin SW.CORE_ASSETS = Some es) <->
    (forall u, In u SW.CORE_ASSETS ->
       exists res, network (SW.assetRequest selfOrigin u) = Some res
                   /\ SW.ok res = true /\ SW.status res <> 206%Z)).
  { rewrite fetchAll_spec. unfold SW.storable.
    split; intros Hall u Hu; destruct (Hall u Hu) as (res & Hn & Hok & Hst);
      exists res; (split; [exact Hn|]); (split; [exact Hok|]).
    - apply negb_true_iff, Z.eqb_neq in Hst. exact Hst.
    - apply negb_true_iff, Z.eqb_neq. exact Hst. }
  assert (Hscope : forall u, In u SW.CORE_ASSETS ->
            SW.inScope selfOrigin (SW.assetRequest selfOrigin u)).
  { intros u Hu. split; [reflexivity|]. split; [|reflexivity].
    exact (core_assets_in_scope u Hu). }
  destruct (SW.fetchAll network selfOrigin SW.CORE_ASSETS) as [es|];
    cbn [fst snd SW.fetched SW.caches SW.pending].
  - split; [reflexivity|]. split; [reflexivity|].
    split; [exact core_assets_distinct|]. split; [exact Hscope|].
    split; [|discriminate].
    split; [intros _; apply Hspec; eauto | reflexivity].
  - split; [reflexivity|]. split; [reflexivity|].
    split; [exact core_assets_distinct|]. split; [exact Hscope|]. split.
    + split; [discriminate|]. intros Hall.
      destruct (proj2 Hspec Hall) as (es & Hes). discriminate.
    + intros _. split; [reflexivity|]. intros q.
      apply caches_match_open_cache.
Qed.

(** Once installed and activated the worker serves the application shell
    without the network: when the install promise was fulfilled, then after
    activation every core asset is answered by the fetch handler, whatever
    the network says by then, with the very response that the network gave
    at installation, an ok one and no partial one, and the handler neither
    asks the network nor changes the caches. *)
Theorem installed_shell_is_served_offline (w : SW.World) :
  fst (SW.install network selfOrigin w) = SW.Fulfilled tt ->
  let w' := snd (SW.activate (snd (SW.install network selfOrigin w))) in
  forall u, In u SW.CORE_ASSETS ->
    exists res,
      network (SW.assetRequest selfOrigin u) = Some res /\
      SW.ok res = true /\
      SW.status res <> 206%Z /\
      SW.onFetch network' selfOrigin (SW.assetRequest selfOrigin u) w'
      = (SW.RespondWith (SW.Fulfilled (Some res)), w') /\
      SW.delivered network' (SW.assetRequest selfOrigin u)
        (fst (SW.onFetch network' selfOrigin
                (SW.assetRequest selfOrigin u) w'))
      = SW.Served res.
Proof.
  rewrite install_unfold.
  destruct (SW.fetchAll network selfOrigin SW.CORE_ASSETS) as [es|] eqn:Ef;
    [intros _ | discriminate].
  cbv zeta. cbn [snd]. set (w' := snd (SW.activate _)).
  intros u Hu.
  destruct (fetchAll_entries SW.CORE_ASSETS es Ef) as (Em & Hin).
  destruct (Hin u Hu) as (res & Hres & Hn & Hok & Hst).
  exists res. split; [exact Hn|]. split; [exact Hok|].
  split; [unfold SW.storable in Hst; apply negb_true_iff, Z.eqb_neq in Hst;
          exact Hst|].
  assert (Hc : SW.caches_match (SW.caches w') (SW.assetRequest selfOrigin u)
               = Some res).
  { subst w'. rewrite (proj1 (activate_caches _)). cbn [SW.caches].
    apply (putAll_stored SW.CORE_ASSETS es _ u res Em core_assets_distinct
             Hres).
    intros res' Hres'.
    exact (entries_functional SW.CORE_ASSETS es u res' res Ef Hres' Hn). }
  assert (Hs : SW.inScope selfOrigin (SW.assetRequest selfOrigin u)).
  { split; [reflexivity|]. split; [|reflexivity].
    exact (core_assets_in_scope u Hu). }
  assert (H3 : SW.onFetch network' selfOrigin (SW.assetRequest selfOrigin u) w'
               = (SW.RespondWith (SW.Fulfilled (Some res)), w')).
  { exact (onFetch_hit network' _ res w' Hs Hc). }
  split; [exact H3|]. rewrite H3. reflexivity.
Qed.

End CacheLife.

Lemma cached_answer_is_kept_witness :
  SW.caches_match (SW.caches SW.installed) SW.indexRequest
  = Some SW.indexPage /\
  SW.caches_match
    (SW.caches
       (SW.browse SW.broken "https://richducat.github.io"
          [SW.Fetch SW.creditsRequest; SW.Fetch SW.indexRequest;
           SW.Settle 0; SW.Fetch SW.creditsRequest]
          SW.installed))
    SW.indexRequest
  = Some SW.indexPage.
Proof.
  split; [reflexivity|].
  exact (proj1 (cached_answer_is_kept SW.broken SW.offline
                  "https://richducat.github.io"
                  [SW.Fetch SW.creditsRequest; SW.Fetch SW.indexRequest;
                   SW.Settle 0; SW.Fetch SW.creditsRequest]
                  SW.indexRequest SW.indexPage SW.installed eq_refl
                  (fun e (He : In e []) => match He with end))).
Defined.

Lemma first_answer_sticks_witness :
  SW.inScope "https://richducat.github.io" SW.creditsRequest /\
  SW.caches_match (SW.caches SW.installed) SW.creditsRequest = None /\
  SW.broken SW.creditsRequest = Some SW.notFound /\
  SW.status SW.notFound <> 206%Z /\
  SW.delivered SW.online SW.creditsRequest
    (fst (SW.onFetch SW.online "https://richducat.github.io"
            SW.creditsRequest
            (SW.browse SW.online "https://richducat.github.io"
               [SW.Fetch SW.indexRequest]
               (SW.settle 0
                  (snd (SW.onFetch SW.broken "https://richducat.github.io"
                          SW.creditsRequest SW.installed))))))
  = SW.Served SW.notFound.
Proof.
  assert (Hs : SW.inScope "https://richducat.github.io" SW.creditsRequest)
    by (repeat split).
  assert (Hst : SW.status SW.notFound <> 206%Z) by discriminate.
  split; [exact Hs|]. split; [reflexivity|]. split; [reflexivity|].
  split; [exact Hst|].
  exact (proj1 (proj2 (proj2 (first_answer_sticks SW.broken SW.online
                         "https://richducat.github.io" SW.creditsRequest
                         SW.notFound [SW.Fetch SW.indexRequest] SW.installed
                         Hs eq_refl
                         (fun e (He : In e []) => match He with end)
                         eq_refl Hst)))).
Defined.

Lemma installed_shell_is_served_offline_witness :
  fst (SW.install SW.online "https://richducat.github.io" SW.upgraded)
  = SW.Fulfilled tt /\
  exists res,
    SW.online (SW.assetRequest "https://richducat.github.io" "/kickcraft/")
    = Some res /\
    SW.ok res = true /\
    SW.delivered SW.offline
      (SW.assetRequest "https://richducat.github.io" "/kickcraft/")
      (fst (SW.onFetch SW.offline "https://richducat.github.io"
              (SW.assetRequest "https://richducat.github.io" "/kickcraft/")
              (snd (SW.activate
                      (snd (SW.install SW.online
                              "https://richducat.github.io" SW.upgraded))))))
    = SW.Served res.
Proof.
  split; [reflexivity|].
  destruct (installed_shell_is_served_offline SW.online SW.offline
              "https://richducat.github.io" SW.upgraded eq_refl
              "/kickcraft/" (or_introl eq_refl))
    as (res & Hn & Hok & _ & _ & Hd).
  exists res. split; [exact Hn|]. split; [exact Hok | exact Hd].
Defined.
